(** * web-crypto-client: a shallow embedding of the client-side envelope service

    The development follows the bundled module of the repository
    (the [Database], [BufferTools] and [Crypto] classes and the exported
    password-hashing helpers), with the helper of the server side and the
    envelope strings of [src/crypto.js] next to it where they differ.
    JavaScript strings are sequences of UTF-16 code units, [Uint8Array]
    buffers are lists of bytes, promises are modelled by their settled
    outcome, and the mutable session object and the IndexedDB store are
    passed explicitly. *)

From Stdlib Require Import ZArith List Lia Ascii String.
From Stdlib.Strings Require Import Byte.
From stdpp Require Import base decidable option list gmap strings.

Open Scope Z_scope.
Set Warnings "-register-all".

(* ================================================================== *)
(** * Part I: definitions                                              *)
(* ================================================================== *)

(** ** JavaScript values *)

(** A JavaScript string: its UTF-16 code units, each in [0, 65535]. *)
Definition jsstr := list Z.

(** The code units of an ASCII literal of the source. *)
Definition js (s : string) : jsstr :=
  map (fun a => Z.of_N (N_of_ascii a)) (list_ascii_of_string s).

(** The values that cross the API: what a caller can pass and what
    [JSON.parse] can return.  Numbers are the integers; an object keeps
    its members in property order. *)
Inductive value : Type :=
| VUndefined
| VNull
| VBool (b : bool)
| VNum (n : Z)
| VStr (s : jsstr)
| VArr (items : list value)
| VObj (members : list (jsstr * value)).

Inductive jstype := TUndefined | TObject | TBoolean | TNumber | TString.

Global Instance jstype_eq_dec : EqDecision jstype.
Proof. solve_decision. Defined.

(** The [typeof] operator; [null] and arrays are of type "object". *)
Definition typeof (v : value) : jstype :=
  match v with
  | VUndefined => TUndefined
  | VNull => TObject
  | VBool _ => TBoolean
  | VNum _ => TNumber
  | VStr _ => TString
  | VArr _ => TObject
  | VObj _ => TObject
  end.

(** [v == null], the loose comparison: true of [null] and [undefined]. *)
Definition is_nullish (v : value) : bool :=
  match v with
  | VUndefined | VNull => true
  | _ => false
  end.

(** [typeof v !== "string" || v === ""]. *)
Definition not_filled_string (v : value) : bool :=
  match v with
  | VStr (_ :: _) => false
  | _ => true
  end.

(** A default parameter value applies when the argument is [undefined]. *)
Definition default_arg (v d : value) : value :=
  match v with
  | VUndefined => d
  | _ => v
  end.

(** ** Errors, synchronous results and settled promises *)

Record JsError := mkError { err_name : string; err_message : string }.

(** [new Error( msg )]. *)
Definition Error (msg : string) : JsError := mkError "Error" msg.

(** The result of synchronous code, and of one provider promise:
    a value, or the exception thrown (the reason of the rejection). *)
Inductive result (A : Type) : Type :=
| Ok (a : A)
| Throw (e : JsError).
Arguments Ok {A} a.
Arguments Throw {A} e.

Global Instance result_bind : MBind result :=
  fun A B f r => match r with Ok a => f a | Throw e => Throw e end.
Global Instance result_ret : MRet result := fun A a => Ok a.

(** What a call of an API method amounts to: it returns a promise that
    is fulfilled or rejected, or it throws before returning any promise. *)
Inductive outcome (A : Type) : Type :=
| Resolved (a : A)
| Rejected (e : JsError)
| Thrown (e : JsError).
Arguments Resolved {A} a.
Arguments Rejected {A} e.
Arguments Thrown {A} e.

(** The promise a [then]-chain ends in. *)
Definition settle {A} (r : result A) : outcome A :=
  match r with
  | Ok a => Resolved a
  | Throw e => Rejected e
  end.

(** ** Bytes and random values *)

(** A [Uint8Array]. *)
Definition buffer := list byte.

Definition Z_of_byte (b : byte) : Z := Z.of_N (Byte.to_N b).

(** Storing a number into a [Uint8Array] element keeps it modulo 256. *)
Definition byte_of_Z (z : Z) : byte :=
  default x00 (Byte.of_N (Z.to_N (z mod 256))).

Global Instance byte_eq_dec : EqDecision byte.
Proof.
  intros a b.
  destruct (decide (Byte.to_N a = Byte.to_N b)) as [H | H]; [left | right].
  - apply (f_equal Byte.of_N) in H. rewrite !Byte.of_to_N in H. congruence.
  - congruence.
Defined.

(** The values [getRandomValues] is going to deliver, in order. *)
Definition rng := nat -> Z.

Definition skip (n : nat) (r : rng) : rng := fun i => r (n + i)%nat.

(** [getRandomValues( new Uint8Array( n ) )]. *)
Definition getRandomValues (n : nat) (r : rng) : buffer :=
  map (fun i => byte_of_Z (r i)) (seq 0 n).

(** ** Regular expressions of the source, as matchers *)

Fixpoint take_while {A} (p : A -> bool) (s : list A) : list A :=
  match s with
  | c :: s' => if p c then c :: take_while p s' else []
  | [] => []
  end.

Fixpoint drop_while {A} (p : A -> bool) (s : list A) : list A :=
  match s with
  | c :: s' => if p c then drop_while p s' else s
  | [] => []
  end.

Definition span_while {A} (p : A -> bool) (s : list A) : list A * list A :=
  (take_while p s, drop_while p s).

Definition is_digit (c : Z) : bool := (48 <=? c) && (c <=? 57).

(** The characters [.] does not match: LF, CR, U+2028 and U+2029. *)
Definition is_line_terminator (c : Z) : bool :=
  (c =? 10) || (c =? 13) || (c =? 8232) || (c =? 8233).

Definition ch_dollar : Z := 36.
Definition ch_equals : Z := 61.
Definition ch_lbrace : Z := 123.
Definition ch_rbrace : Z := 125.

(** [/^([^=]+)=*$/]: the string without its trailing padding. *)
Definition match_unpadded (s : jsstr) : option jsstr :=
  let '(body, pad) := span_while (fun c => negb (c =? ch_equals)) s in
  match body with
  | [] => None
  | _ => if forallb (fun c => c =? ch_equals) pad then Some body else None
  end.

(** One [([^$]+)] group. *)
Definition dollar_field (s : jsstr) : option (jsstr * jsstr) :=
  let '(f, rest) := span_while (fun c => negb (c =? ch_dollar)) s in
  match f with
  | [] => None
  | _ => Some (f, rest)
  end.

Definition strip_prefix (p s : jsstr) : option jsstr :=
  if bool_decide (take (length p) s = p) then Some (drop (length p) s) else None.

(** [/^\$ceph1\$([^$]+)\$([^$]+)\$([^$]+)$/]: encoding, salt and hash. *)
Definition match_hash (s : jsstr) : option (jsstr * jsstr * jsstr) :=
  match strip_prefix (js "$ceph1$") s with
  | None => None
  | Some s1 =>
    match dollar_field s1 with
    | Some (enc, c1 :: s2) =>
      match dollar_field s2 with
      | Some (salt, c2 :: s3) =>
        match dollar_field s3 with
        | Some (hash, []) => Some (enc, salt, hash)
        | _ => None
        end
      | _ => None
      end
    | _ => None
    end
  end.

(** [parseInt] of a string of decimal digits. *)
Definition parseInt (digits : jsstr) : Z :=
  fold_left (fun acc c => 10 * acc + (c - 48)) digits 0.

(** [/^(\d+)\$(.+)$/]: the version tag and the tagged text. *)
Definition match_version (s : jsstr) : option (jsstr * jsstr) :=
  let '(digits, rest) := span_while is_digit s in
  match digits, rest with
  | _ :: _, c :: ((_ :: _) as body) =>
    if (c =? ch_dollar) && forallb (fun x => negb (is_line_terminator x)) body
    then Some (digits, body) else None
  | _, _ => None
  end.

(** [/^[^{]*({.+})[^}]*$/]: from the first opening brace to the last
    closing brace, with at least one character, and no line terminator,
    in between. *)
Definition match_braces (s : jsstr) : option jsstr :=
  match drop_while (fun c => negb (c =? ch_lbrace)) s with
  | [] => None
  | _ :: after =>
    match drop_while (fun c => negb (c =? ch_rbrace)) (rev after) with
    | [] => None
    | _ :: rinner =>
      let inner := rev rinner in
      match inner with
      | [] => None
      | _ => if forallb (fun x => negb (is_line_terminator x)) inner
             then Some (ch_lbrace :: inner ++ [ch_rbrace]) else None
      end
    end
  end.

(** ** The platform's base64 codec: [window.btoa] and [window.atob] *)

Module Base64.

(** The character of a 6-bit digit. *)
Definition char_of_digit (d : Z) : Z :=
  if d <? 26 then 65 + d
  else if d <? 52 then 97 + (d - 26)
  else if d <? 62 then 48 + (d - 52)
  else if d =? 62 then 43
  else 47.

Definition digit_of_char (c : Z) : option Z :=
  if (65 <=? c) && (c <=? 90) then Some (c - 65)
  else if (97 <=? c) && (c <=? 122) then Some (c - 97 + 26)
  else if (48 <=? c) && (c <=? 57) then Some (c - 48 + 52)
  else if c =? 43 then Some 62
  else if c =? 47 then Some 63
  else None.

(** The digits of the input without the padding characters. *)
Fixpoint digits_of_bytes (b : buffer) : list Z :=
  match b with
  | [] => []
  | [x] =>
    let n := Z_of_byte x * 65536 in
    [n / 262144; (n / 4096) mod 64]
  | [x; y] =>
    let n := Z_of_byte x * 65536 + Z_of_byte y * 256 in
    [n / 262144; (n / 4096) mod 64; (n / 64) mod 64]
  | x :: y :: z :: rest =>
    let n := Z_of_byte x * 65536 + Z_of_byte y * 256 + Z_of_byte z in
    [n / 262144; (n / 4096) mod 64; (n / 64) mod 64; n mod 64]
      ++ digits_of_bytes rest
  end.

Definition padding (len : nat) : jsstr :=
  match (len mod 3)%nat with
  | 1%nat => [ch_equals; ch_equals]
  | 2%nat => [ch_equals]
  | _ => []
  end.

Definition encode (b : buffer) : jsstr :=
  map char_of_digit (digits_of_bytes b) ++ padding (length b).

(** The bytes of a run of 6-bit digits; a final group of two digits
    gives one byte, of three digits two bytes, the spare bits dropped. *)
Fixpoint bytes_of_digits (d : list Z) : buffer :=
  match d with
  | a :: b :: c :: e :: rest =>
    let n := a * 262144 + b * 4096 + c * 64 + e in
    byte_of_Z (n / 65536) :: byte_of_Z (n / 256) :: byte_of_Z n
      :: bytes_of_digits rest
  | [a; b; c] =>
    let n := a * 262144 + b * 4096 + c * 64 in
    [byte_of_Z (n / 65536); byte_of_Z (n / 256)]
  | [a; b] =>
    let n := a * 262144 + b * 4096 in
    [byte_of_Z (n / 65536)]
  | _ => []
  end.

Definition is_ascii_whitespace (c : Z) : bool :=
  (c =? 9) || (c =? 10) || (c =? 12) || (c =? 13) || (c =? 32).

(** Up to two padding characters are removed from the end of a text
    whose length is a multiple of four. *)
Definition strip_padding (s : jsstr) : jsstr :=
  if (length s mod 4 =? 0)%nat then
    match rev s with
    | c1 :: c2 :: r =>
      if c1 =? ch_equals then
        if c2 =? ch_equals then rev r else rev (c2 :: r)
      else s
    | [c1] => if c1 =? ch_equals then [] else s
    | [] => s
    end
  else s.

Fixpoint digits_of_chars (s : jsstr) : option (list Z) :=
  match s with
  | [] => Some []
  | c :: s' =>
    match digit_of_char c, digits_of_chars s' with
    | Some d, Some ds => Some (d :: ds)
    | _, _ => None
    end
  end.

Definition InvalidCharacterError : JsError :=
  mkError "InvalidCharacterError" "The string is not correctly encoded.".

(** [window.atob]: the forgiving base64 decoding of the platform; the
    result is the binary string of the decoded bytes. *)
Definition atob (s : jsstr) : result jsstr :=
  let s1 := List.filter (fun c => negb (is_ascii_whitespace c)) s in
  let s2 := strip_padding s1 in
  if (length s2 mod 4 =? 1)%nat then Throw InvalidCharacterError
  else
    match digits_of_chars s2 with
    | None => Throw InvalidCharacterError
    | Some d => Ok (map Z_of_byte (bytes_of_digits d))
    end.

(** [window.btoa]: defined on binary strings only. *)
Definition btoa (s : jsstr) : result jsstr :=
  if forallb (fun c => (0 <=? c) && (c <=? 255)) s
  then Ok (encode (map byte_of_Z s))
  else Throw InvalidCharacterError.

End Base64.

(** ** The platform's JSON codec: [JSON.stringify] and [JSON.parse] *)

Module JSON.

Definition ch_quote : Z := 34.
Definition ch_backslash : Z := 92.
Definition ch_comma : Z := 44.
Definition ch_colon : Z := 58.
Definition ch_lbracket : Z := 91.
Definition ch_rbracket : Z := 93.
Definition ch_minus : Z := 45.

Definition hex_digit (d : Z) : Z :=
  if d <? 10 then 48 + d else 97 + (d - 10).

(** The escape [\uXXXX] of a code unit: its four digits of base 16. *)
Definition unicode_escape (c : Z) : jsstr :=
  [ch_backslash; 117; hex_digit ((c / 4096) mod 16); hex_digit ((c / 256) mod 16);
   hex_digit ((c / 16) mod 16); hex_digit (c mod 16)].

(** How [QuoteJSONString] writes one code unit that is no surrogate. *)
Definition escape (c : Z) : jsstr :=
  if c =? 8 then [ch_backslash; 98]
  else if c =? 9 then [ch_backslash; 116]
  else if c =? 10 then [ch_backslash; 110]
  else if c =? 12 then [ch_backslash; 102]
  else if c =? 13 then [ch_backslash; 114]
  else if c =? ch_quote then [ch_backslash; ch_quote]
  else if c =? ch_backslash then [ch_backslash; ch_backslash]
  else if c <? 32 then unicode_escape c
  else [c].

Definition is_high_surrogate (c : Z) : bool := (55296 <=? c) && (c <=? 56319).
Definition is_low_surrogate (c : Z) : bool := (56320 <=? c) && (c <=? 57343).

(** A surrogate pair is kept, a lone surrogate is escaped. *)
Fixpoint quote_chars (s : jsstr) : jsstr :=
  match s with
  | [] => []
  | c :: s' =>
    if is_high_surrogate c then
      match s' with
      | d :: s'' =>
        if is_low_surrogate d then c :: d :: quote_chars s''
        else unicode_escape c ++ quote_chars s'
      | [] => unicode_escape c
      end
    else if is_low_surrogate c then unicode_escape c ++ quote_chars s'
    else escape c ++ quote_chars s'
  end.

Definition quote (s : jsstr) : jsstr :=
  ch_quote :: quote_chars s ++ [ch_quote].

Fixpoint chars_of_uint (u : Decimal.uint) : jsstr :=
  match u with
  | Decimal.Nil => []
  | Decimal.D0 r => 48 :: chars_of_uint r
  | Decimal.D1 r => 49 :: chars_of_uint r
  | Decimal.D2 r => 50 :: chars_of_uint r
  | Decimal.D3 r => 51 :: chars_of_uint r
  | Decimal.D4 r => 52 :: chars_of_uint r
  | Decimal.D5 r => 53 :: chars_of_uint r
  | Decimal.D6 r => 54 :: chars_of_uint r
  | Decimal.D7 r => 55 :: chars_of_uint r
  | Decimal.D8 r => 56 :: chars_of_uint r
  | Decimal.D9 r => 57 :: chars_of_uint r
  end.

(** The decimal text of an integer number. *)
Definition number_to_string (n : Z) : jsstr :=
  match Z.to_int n with
  | Decimal.Pos u => chars_of_uint u
  | Decimal.Neg u => ch_minus :: chars_of_uint u
  end.

Fixpoint join_comma (parts : list jsstr) : jsstr :=
  match parts with
  | [] => []
  | [p] => p
  | p :: rest => p ++ ch_comma :: join_comma rest
  end.

(** [JSON.stringify( v )]; [None] is the result [undefined].  A member
    whose value is [undefined] is left out of an object and written as
    [null] in an array. *)
Fixpoint stringify (v : value) : option jsstr :=
  match v with
  | VUndefined => None
  | VNull => Some (js "null")
  | VBool true => Some (js "true")
  | VBool false => Some (js "false")
  | VNum n => Some (number_to_string n)
  | VStr s => Some (quote s)
  | VArr items =>
    let fix elements (l : list value) : list jsstr :=
      match l with
      | [] => []
      | x :: l' => default (js "null") (stringify x) :: elements l'
      end in
    Some (ch_lbracket :: join_comma (elements items) ++ [ch_rbracket])
  | VObj members =>
    let fix properties (l : list (jsstr * value)) : list jsstr :=
      match l with
      | [] => []
      | (k, x) :: l' =>
        match stringify x with
        | Some t => (quote k ++ ch_colon :: t) :: properties l'
        | None => properties l'
        end
      end in
    Some (ch_lbrace :: join_comma (properties members) ++ [ch_rbrace])
  end.

Definition is_ws (c : Z) : bool :=
  (c =? 32) || (c =? 9) || (c =? 10) || (c =? 13).

Definition skip_ws (s : jsstr) : jsstr := drop_while is_ws s.

Definition hex_value (c : Z) : option Z :=
  if (48 <=? c) && (c <=? 57) then Some (c - 48)
  else if (97 <=? c) && (c <=? 102) then Some (c - 97 + 10)
  else if (65 <=? c) && (c <=? 70) then Some (c - 65 + 10)
  else None.

(** The character a two-character escape stands for. *)
Definition unescape (e : Z) : option Z :=
  if e =? ch_quote then Some ch_quote
  else if e =? ch_backslash then Some ch_backslash
  else if e =? 47 then Some 47
  else if e =? 98 then Some 8
  else if e =? 102 then Some 12
  else if e =? 110 then Some 10
  else if e =? 114 then Some 13
  else if e =? 116 then Some 9
  else None.

(** A string literal after its opening quote: the string and the rest
    of the text after the closing quote. *)
Fixpoint parse_string_body (s : jsstr) : option (jsstr * jsstr) :=
  match s with
  | [] => None
  | c :: s' =>
    if c =? ch_quote then Some ([], s')
    else if c <? 32 then None
    else if c =? ch_backslash then
      match s' with
      | [] => None
      | e :: s'' =>
        if e =? 117 then
          match s'' with
          | h1 :: h2 :: h3 :: h4 :: s3 =>
            match hex_value h1, hex_value h2, hex_value h3, hex_value h4 with
            | Some d1, Some d2, Some d3, Some d4 =>
              match parse_string_body s3 with
              | Some (str, rest) =>
                Some (d1 * 4096 + d2 * 256 + d3 * 16 + d4 :: str, rest)
              | None => None
              end
            | _, _, _, _ => None
            end
          | _ => None
          end
        else
          match unescape e with
          | Some x =>
            match parse_string_body s'' with
            | Some (str, rest) => Some (x :: str, rest)
            | None => None
            end
          | None => None
          end
      end
    else
      match parse_string_body s' with
      | Some (str, rest) => Some (c :: str, rest)
      | None => None
      end
  end.

(** An integer literal; a literal with a fraction or an exponent is not
    a value of the model. *)
Definition parse_number (s : jsstr) : option (Z * jsstr) :=
  let '(neg, s1) := match s with
                    | c :: s' => if c =? ch_minus then (true, s') else (false, s)
                    | [] => (false, s)
                    end in
  let '(digits, rest) := span_while is_digit s1 in
  let continues := match rest with
                   | c :: _ => (c =? 46) || (c =? 101) || (c =? 69)
                   | [] => false
                   end in
  match digits with
  | [] => None
  | d :: ds =>
    if continues then None
    else if (d =? 48) && negb (bool_decide (ds = [])) then None
    else Some (if neg then - parseInt digits else parseInt digits, rest)
  end.

(** Defining a property: a repeated key keeps its place and takes the
    later value. *)
Fixpoint set_member (k : jsstr) (v : value) (m : list (jsstr * value))
  : list (jsstr * value) :=
  match m with
  | [] => [(k, v)]
  | (k', v') :: m' =>
    if bool_decide (k' = k) then (k, v) :: m' else (k', v') :: set_member k v m'
  end.

Fixpoint parse_value (fuel : nat) (s : jsstr) {struct fuel}
  : option (value * jsstr) :=
  match fuel with
  | O => None
  | S fuel' =>
    match skip_ws s with
    | [] => None
    | c :: r =>
      if c =? ch_lbrace then
        match skip_ws r with
        | c' :: r' =>
          if c' =? ch_rbrace then Some (VObj [], r')
          else parse_members fuel' (c' :: r') []
        | [] => None
        end
      else if c =? ch_lbracket then
        match skip_ws r with
        | c' :: r' =>
          if c' =? ch_rbracket then Some (VArr [], r')
          else parse_elements fuel' (c' :: r') []
        | [] => None
        end
      else if c =? ch_quote then
        match parse_string_body r with
        | Some (str, rest) => Some (VStr str, rest)
        | None => None
        end
      else if bool_decide (take 4 (c :: r) = js "null") then Some (VNull, drop 4 (c :: r))
      else if bool_decide (take 4 (c :: r) = js "true") then Some (VBool true, drop 4 (c :: r))
      else if bool_decide (take 5 (c :: r) = js "false") then Some (VBool false, drop 5 (c :: r))
      else
        match parse_number (c :: r) with
        | Some (n, rest) => Some (VNum n, rest)
        | None => None
        end
    end
  end
with parse_elements (fuel : nat) (s : jsstr) (acc : list value) {struct fuel}
  : option (value * jsstr) :=
  match fuel with
  | O => None
  | S fuel' =>
    match parse_value fuel' s with
    | Some (v, r) =>
      match skip_ws r with
      | c :: r' =>
        if c =? ch_comma then parse_elements fuel' r' (acc ++ [v])
        else if c =? ch_rbracket then Some (VArr (acc ++ [v]), r')
        else None
      | [] => None
      end
    | None => None
    end
  end
with parse_members (fuel : nat) (s : jsstr) (acc : list (jsstr * value))
  {struct fuel} : option (value * jsstr) :=
  match fuel with
  | O => None
  | S fuel' =>
    match skip_ws s with
    | q :: s1 =>
      if q =? ch_quote then
        match parse_string_body s1 with
        | Some (k, s2) =>
          match skip_ws s2 with
          | c :: s3 =>
            if c =? ch_colon then
              match parse_value fuel' s3 with
              | Some (v, r) =>
                match skip_ws r with
                | c' :: r' =>
                  if c' =? ch_comma then parse_members fuel' r' (set_member k v acc)
                  else if c' =? ch_rbrace then Some (VObj (set_member k v acc), r')
                  else None
                | [] => None
                end
              | None => None
              end
            else None
          | [] => None
          end
        | None => None
        end
      else None
    | [] => None
    end
  end.

(** [JSON.parse( text )]; [None] is a [SyntaxError]. *)
Definition parse (text : jsstr) : option value :=
  match parse_value (2 * length text + 2) text with
  | Some (v, rest) =>
    match skip_ws rest with
    | [] => Some v
    | _ => None
    end
  | None => None
  end.

End JSON.

(** ** BufferTools: byte and string conversions *)

Module BufferTools.

(** [concat( ...dataBuffers )]; no buffer at all is an error. *)
Definition concat (dataBuffers : list buffer) : result buffer :=
  match dataBuffers with
  | [] => Throw (Error "BufferTools.concat(): Invalid arguments")
  | _ => Ok (List.concat dataBuffers)
  end.

(** The relative index of [subarray]: a negative position counts from
    the end, and every position is clamped to the buffer. *)
Definition relative_index (len pos : Z) : nat :=
  Z.to_nat (if pos <? 0 then Z.max (len + pos) 0 else Z.min pos len).

(** [splitInTwo( dataBuffer12, splitPos )] =
    [[ buf12.subarray( 0, splitPos ), buf12.subarray( splitPos ) ]]. *)
Definition splitInTwo (dataBuffer12 : buffer) (splitPos : Z) : buffer * buffer :=
  let k := relative_index (Z.of_nat (length dataBuffer12)) splitPos in
  (take k dataBuffer12, drop k dataBuffer12).

(** [fromAscii( dataString )]: [buf[i] = dataString.charCodeAt( i )]. *)
Definition fromAscii (dataString : jsstr) : buffer :=
  map byte_of_Z dataString.

(** [toAscii( dataBuffer )] = [String.fromCharCode.apply( null, buf )]. *)
Definition toAscii (dataBuffer : buffer) : jsstr :=
  map Z_of_byte dataBuffer.

(** [digits.indexOf( c )] after [toLowerCase]; no character outside
    ASCII is lowered to a hexadecimal digit. *)
Definition hex_value (c : Z) : option Z :=
  if (48 <=? c) && (c <=? 57) then Some (c - 48)
  else if (97 <=? c) && (c <=? 102) then Some (c - 97 + 10)
  else if (65 <=? c) && (c <=? 70) then Some (c - 65 + 10)
  else None.

Definition fromHex_error : JsError :=
  Error "BufferTools.fromHex(): Invalid arguments".

(** [fromHex( dataString )]: fails on an odd length and on any
    character that is no hexadecimal digit. *)
Fixpoint fromHex (dataString : jsstr) : result buffer :=
  match dataString with
  | [] => Ok []
  | [_] => Throw fromHex_error
  | c1 :: c2 :: rest =>
    match hex_value c1, hex_value c2 with
    | Some d1, Some d2 =>
      match fromHex rest with
      | Ok buf => Ok (byte_of_Z (16 * d1 + d2) :: buf)
      | Throw e => Throw e
      end
    | _, _ => Throw fromHex_error
    end
  end.

(** ["0123456789abcdef"[d]]. *)
Definition hex_digit (d : Z) : Z :=
  if d <? 10 then 48 + d else 97 + (d - 10).

(** [toHex( dataBuffer )]: two lowercase digits for every byte. *)
Fixpoint toHex (dataBuffer : buffer) : jsstr :=
  match dataBuffer with
  | [] => []
  | b :: rest =>
    hex_digit (Z_of_byte b / 16) :: hex_digit (Z_of_byte b mod 16) :: toHex rest
  end.

(** [[ "{".charCodeAt( 0 ), "}".charCodeAt( 0 ), 0 ]]. *)
Definition nonNoiseCharacters : list byte := [byte_of_Z ch_lbrace; byte_of_Z ch_rbrace; x00].

(** [( noiseConfig[i] % 50 ) + 15]: the amount of noise on one side. *)
Definition noise_amount (b : byte) : nat :=
  Z.to_nat ((Z_of_byte b mod 50) + 15).

(** [nonNoiseCharacters.indexOf( noiseConfig[2] ) === -1 ? noiseConfig[2] : 32]:
    the replacement for the reserved characters. *)
Definition noise_filler (b : byte) : byte :=
  if bool_decide (b ∈ nonNoiseCharacters) then byte_of_Z 32 else b.

(** One pass of the inner loop: every byte equal to [k] becomes [filler]. *)
Definition replace_byte (filler k : byte) (noiseBuffer : buffer) : buffer :=
  map (fun b => if bool_decide (b = k) then filler else b) noiseBuffer.

(** The two nested loops over [nonNoiseCharacters] and [noiseBuffer]. *)
Definition clean_noise (filler : byte) (noiseBuffer : buffer) : buffer :=
  fold_left (fun buf k => replace_byte filler k buf) nonNoiseCharacters noiseBuffer.

(** The noise of one call: what is put before and after the JSON text. *)
Definition noise (r : rng) : buffer * buffer :=
  let noiseConfig := getRandomValues 3 r in
  let n0 := noise_amount (nth 0 noiseConfig x00) in
  let n1 := noise_amount (nth 1 noiseConfig x00) in
  let filler := noise_filler (nth 2 noiseConfig x00) in
  let noiseBuffer := clean_noise filler (getRandomValues (n0 + n1) (skip 3 r)) in
  splitInTwo noiseBuffer (Z.of_nat n0).

(** [fromObject( dataObject, addNoise = false )]: the JSON text of the
    object as bytes, between two runs of noise if requested. *)
Definition fromObject (dataObject : value) (addNoise : bool) (r : rng)
  : result buffer :=
  if bool_decide (typeof dataObject = TObject) then
    match JSON.stringify dataObject with
    | None => Throw (Error "BufferTools.fromAscii(): Invalid arguments")
    | Some text =>
      let dataBuffer := fromAscii text in
      if addNoise then
        let buf13 := noise r in
        concat [fst buf13; dataBuffer; snd buf13]
      else Ok dataBuffer
    end
  else Throw (Error "BufferTools.fromObject(): Invalid arguments").

(** [toObject( dataBuffer )]: the object whose JSON text lies between
    the first opening and the last closing brace of the buffer. *)
Definition toObject (dataBuffer : buffer) : result value :=
  let dataString := toAscii dataBuffer in
  match match_braces dataString with
  | None => Throw (Error "BufferTools.toObject(): Invalid arguments")
  | Some text =>
    match JSON.parse text with
    | Some dataObject => Ok dataObject
    | None => Throw (Error "BufferTools.toObject(): JSON syntax error")
    end
  end.

End BufferTools.

(** ** Property access and string conversion *)

Definition TypeError (msg : string) : JsError := mkError "TypeError" msg.

Fixpoint lookup_member (k : jsstr) (m : list (jsstr * value)) : option value :=
  match m with
  | [] => None
  | (k', v) :: m' => if bool_decide (k' = k) then Some v else lookup_member k m'
  end.

(** [v.k] for a key that no primitive and no array defines. *)
Definition get_member (k : jsstr) (v : value) : result value :=
  match v with
  | VUndefined | VNull => Throw (TypeError "Cannot read properties of null")
  | VObj m => Ok (default VUndefined (lookup_member k m))
  | _ => Ok VUndefined
  end.

(** The string a value contributes to a concatenation. *)
Fixpoint to_string (v : value) : jsstr :=
  match v with
  | VUndefined => js "undefined"
  | VNull => js "null"
  | VBool true => js "true"
  | VBool false => js "false"
  | VNum n => JSON.number_to_string n
  | VStr s => s
  | VArr items =>
    let fix elements (l : list value) : list jsstr :=
      match l with
      | [] => []
      | x :: l' => (if is_nullish x then [] else to_string x) :: elements l'
      end in
    JSON.join_comma (elements items)
  | VObj _ => js "[object Object]"
  end.

(** ** The Web Crypto API *)

(** [{ name: "AES-CBC", length: 256 }] and [{ name: "AES-GCM", length: 256 }]. *)
Inductive SymAlgo := AES_CBC | AES_GCM.

Inductive KeyUsage := Encrypt | Decrypt.

(** The operations of [CryptoInterface.subtle] the module calls.  A
    promise of the provider is given by its settled result; the
    operations that draw entropy take the source of it. *)
Record WebCrypto := {
  CryptoKey : Type;
  (** [digest( "SHA-256", data )] *)
  digest : buffer -> buffer;
  (** [importKey( "raw", keyData, sAlgo, false, [ "encrypt", "decrypt" ] )] *)
  importKey_raw : buffer -> SymAlgo -> result CryptoKey;
  (** [generateKey( sAlgo, true, [ "encrypt", "decrypt" ] )] *)
  generateKey_aes : SymAlgo -> rng -> result CryptoKey;
  (** [exportKey( "raw", key )] *)
  exportKey_raw : CryptoKey -> result buffer;
  (** [encrypt( { name: sAlgo.name, iv, tagLength: 128 }, key, data )] *)
  encrypt_aes : SymAlgo -> buffer -> CryptoKey -> buffer -> result buffer;
  (** [decrypt( { name: sAlgo.name, iv, tagLength: 128 }, key, data )] *)
  decrypt_aes : SymAlgo -> buffer -> CryptoKey -> buffer -> result buffer;
  (** [generateKey( CryptoAsymmetricAlgorithm, extractable, [ "encrypt", "decrypt" ] )]:
      the public and the private key *)
  generateKey_rsa : bool -> rng -> result (CryptoKey * CryptoKey);
  (** [exportKey( "jwk", key )] *)
  exportKey_jwk : CryptoKey -> result value;
  (** [importKey( "jwk", jwk, CryptoAsymmetricAlgorithm, extractable, [ usage ] )] *)
  importKey_jwk : value -> bool -> KeyUsage -> result CryptoKey;
  (** [encrypt( { name: "RSA-OAEP", hash: { name: "SHA-256" } }, key, data )] *)
  encrypt_rsa : CryptoKey -> buffer -> rng -> result buffer;
  (** [decrypt( { name: "RSA-OAEP", hash: { name: "SHA-256" } }, key, data )] *)
  decrypt_rsa : CryptoKey -> buffer -> result buffer;
  (** the modulus [n] of an RSA key, as its JSON Web Key writes it *)
  modulus : CryptoKey -> jsstr;
  (** a public key and the private key it belongs to *)
  key_pair : CryptoKey -> CryptoKey -> Prop
}.

(** ** The key store: the [Database] singleton over IndexedDB *)

Section Store.
Context (W : WebCrypto).

(** The record [{ public, private, publicExport, privateExport }] kept
    per access path; a member may be missing. *)
Record KeyBundle := {
  public : option (CryptoKey W);
  private : option (CryptoKey W);
  publicExport : option jsstr;
  privateExport : option jsstr
}.

(** The object store is keyed by the name of the database and the key
    of the record. *)
Record Database := {
  databaseName : option jsstr;
  storeName : option jsstr;
  connection : bool;
  items : gmap (jsstr * jsstr) KeyBundle
}.

Definition init (name store : jsstr) (db : Database) : result Database :=
  if connection db && negb (bool_decide (databaseName db = Some name))
  then Throw (Error "Can't reconfigure database connection. It's already established.")
  else Ok {| databaseName := Some name; storeName := Some store;
             connection := connection db; items := items db |}.

Definition isReady (db : Database) : bool :=
  bool_decide (databaseName db <> None) && bool_decide (storeName db <> None).

Definition open (db : Database) : Database :=
  {| databaseName := databaseName db; storeName := storeName db;
     connection := true; items := items db |}.

Definition record_key (db : Database) (key : jsstr) : jsstr * jsstr :=
  (default [] (databaseName db), key).

Definition writeItem (key : jsstr) (v : KeyBundle) (db : Database) : Database :=
  let db := open db in
  {| databaseName := databaseName db; storeName := storeName db;
     connection := connection db;
     items := <[record_key db key := v]> (items db) |}.

Definition readItem (key : jsstr) (db : Database) : option KeyBundle * Database :=
  let db := open db in
  (items db !! record_key db key, db).

Definition removeItem (key : jsstr) (db : Database) : Database :=
  let db := open db in
  {| databaseName := databaseName db; storeName := storeName db;
     connection := connection db;
     items := delete (record_key db key) (items db) |}.

End Store.

Arguments public {W} _.
Arguments private {W} _.
Arguments publicExport {W} _.
Arguments privateExport {W} _.
Arguments databaseName {W} _.
Arguments storeName {W} _.
Arguments connection {W} _.
Arguments items {W} _.
Arguments init {W} _ _ _.
Arguments isReady {W} _.
Arguments writeItem {W} _ _ _.
Arguments readItem {W} _ _.
Arguments removeItem {W} _ _.

(** ** The [Crypto] class *)

Module Crypto.
Section Methods.
Context (W : WebCrypto).

(** The fields of a session object. *)
Record t := {
  publicKey : option (CryptoKey W);
  privateKey : option (CryptoKey W);
  publicKeyExport : option jsstr;
  privateKeyExport : option jsstr;
  dbName : option jsstr;
  accessPath : jsstr
}.

Definition InvalidArguments : JsError := Error "Crypto: Invalid arguments".
Definition NotAvailable : JsError := Error "Crypto: Service is not available".

(** [new Crypto( databaseName = null )]. *)
Definition constructor (databaseName : value) (db : Database W)
  : result (t * Database W) :=
  let fresh name := {| publicKey := None; privateKey := None;
                       publicKeyExport := None; privateKeyExport := None;
                       dbName := name; accessPath := js "default" |} in
  match default_arg databaseName VNull with
  | VNull => Ok (fresh None, db)
  | VStr ((_ :: _) as name) =>
    db' ← init name (js "crypto") db; Ok (fresh (Some name), db')
  | _ => Throw InvalidArguments
  end.

Definition setAccessPath (path : value) (this : t) : result t :=
  match path with
  | VStr ((_ :: _) as p) =>
    Ok {| publicKey := publicKey this; privateKey := privateKey this;
          publicKeyExport := publicKeyExport this;
          privateKeyExport := privateKeyExport this;
          dbName := dbName this; accessPath := p |}
  | _ => Throw InvalidArguments
  end.

(** [hasKeyPair()]. *)
Definition hasKeyPair (this : t) : bool :=
  bool_decide (is_Some (publicKeyExport this)) &&
  bool_decide (is_Some (publicKey this)) &&
  bool_decide (is_Some (privateKey this)).

(** [hasPublicKey()]. *)
Definition hasPublicKey (this : t) : bool :=
  bool_decide (is_Some (publicKeyExport this)) &&
  bool_decide (is_Some (publicKey this)).

Definition getPublicKeyString (this : t) : option jsstr := publicKeyExport this.

(** [this.privateKeyExport || null]. *)
Definition getPrivateKeyString (this : t) : option jsstr :=
  match privateKeyExport this with
  | Some ((_ :: _) as s) => Some s
  | _ => None
  end.

(** The four assignments of [null] that open several methods. *)
Definition clear_keys (this : t) : t :=
  {| publicKey := None; privateKey := None;
     publicKeyExport := None; privateKeyExport := None;
     dbName := dbName this; accessPath := accessPath this |}.

(** The four assignments from a record [keys]. *)
Definition set_keys (pub priv : option (CryptoKey W)) (pubE privE : option jsstr)
  (this : t) : t :=
  {| publicKey := pub; privateKey := priv;
     publicKeyExport := pubE; privateKeyExport := privE;
     dbName := dbName this; accessPath := accessPath this |}.

(** [s || null] for a string member that may be missing. *)
Definition or_null (s : option jsstr) : option jsstr :=
  match s with
  | Some ((_ :: _) as x) => Some x
  | _ => None
  end.

(** The [switch ( version )] of the four envelope methods: the cipher
    and the number of bytes of its initialisation vector. *)
Definition cipher_of_version (version : value) : option (SymAlgo * nat) :=
  match version with
  | VNum 1 => Some (AES_CBC, 16%nat)
  | VNum 2 => Some (AES_GCM, 12%nat)
  | _ => None
  end.

(** [sKeyBuffer[i] = password.charCodeAt( i % password.length )] for the
    32 bytes of the key. *)
Definition password_key (password : jsstr) : buffer :=
  map (fun i => byte_of_Z (nth (i mod length password)%nat password 0))
      (seq 0 32).

(** The number of random values [fromObject( _, true )] takes. *)
Definition noise_length (r : rng) : nat :=
  let noiseConfig := getRandomValues 3 r in
  (3 + BufferTools.noise_amount (nth 0 noiseConfig x00)
     + BufferTools.noise_amount (nth 1 noiseConfig x00))%nat.

(** [encryptData( dataString, password, version = 2 )]. *)
Definition encryptData (dataString password version : value) (r : rng)
  : outcome jsstr :=
  let version := default_arg version (VNum 2) in
  match dataString, password with
  | VStr dataString, VStr ((_ :: _) as password) =>
    match cipher_of_version version with
    | None => Rejected InvalidArguments
    | Some (sAlgo, ivBytes) =>
      let iVector := getRandomValues ivBytes r in
      let iVectorString := BufferTools.toHex iVector in
      let sKeyBuffer := password_key password in
      match BufferTools.fromObject (VObj [(js "data", VStr dataString)]) true
                                   (skip ivBytes r) with
      | Throw e => Thrown e
      | Ok dataBuffer =>
        settle (
          sKey ← importKey_raw W sKeyBuffer sAlgo;
          encryptedBuffer ← encrypt_aes W sAlgo iVector sKey dataBuffer;
          Ok (to_string version ++ js "$" ++ iVectorString
                ++ BufferTools.toHex encryptedBuffer))
      end
    end
  | _, _ => Rejected InvalidArguments
  end.

(** The test on the unwrapped object in [decryptData]:
    [typeof obj !== "object" || !obj.hasOwnProperty( "data" ) ||
     typeof obj.data !== "string"]; an own member [hasOwnProperty] of a
    parsed object is no function, so that calling it throws. *)
Definition data_member (obj : value) : result (option jsstr) :=
  match obj with
  | VObj m =>
    match lookup_member (js "hasOwnProperty") m with
    | Some _ => Throw (TypeError "obj.hasOwnProperty is not a function")
    | None =>
      match lookup_member (js "data") m with
      | Some (VStr d) => Ok (Some d)
      | _ => Ok None
      end
    end
  | _ => Ok None
  end.

(** The version and the text of a tagged string: no tag is version 1. *)
Definition split_version (s : jsstr) : jsstr * value :=
  match match_version s with
  | None => (s, VNum 1)
  | Some (digits, body) => (body, VNum (parseInt digits))
  end.

(** [decryptData( encryptedData, password )]; [None] is [null]. *)
Definition decryptData (encryptedData password : value) : outcome (option jsstr) :=
  match encryptedData, password with
  | VStr ((_ :: _) as encryptedData), VStr ((_ :: _) as password) =>
    let '(data, version) := split_version encryptedData in
    match cipher_of_version version with
    | None => Rejected InvalidArguments
    | Some (sAlgo, ivBytes) =>
      let iVectorString := take (ivBytes * 2) data in
      match BufferTools.fromHex iVectorString with
      | Throw e => Thrown e
      | Ok iVector =>
        let sKeyBuffer := password_key password in
        match BufferTools.fromHex (drop (ivBytes * 2) data) with
        | Throw e => Thrown e
        | Ok encryptedBuffer =>
          let chain :=
            sKey ← importKey_raw W sKeyBuffer sAlgo;
            dataBuffer ← decrypt_aes W sAlgo iVector sKey encryptedBuffer;
            obj ← BufferTools.toObject dataBuffer;
            data_member obj in
          match chain with
          | Ok res => Resolved res
          | Throw _ => Resolved None
          end
        end
      end
    end
  | _, _ => Rejected InvalidArguments
  end.

(** The result [{ message, key }] of [encryptObject]. *)
Record Envelope := { message : jsstr; key : jsstr }.

Definition with_key {A} (k : option (CryptoKey W)) (f : CryptoKey W -> result A)
  : result A :=
  match k with
  | Some k => f k
  | None => Throw (TypeError "parameter 2 is not of type 'CryptoKey'")
  end.

(** [encryptObject( dataObject, version = 2 )]. *)
Definition encryptObject (this : t) (dataObject version : value) (r : rng)
  : outcome Envelope :=
  let version := default_arg version (VNum 2) in
  if negb (bool_decide (typeof dataObject = TObject)) then Rejected InvalidArguments
  else
    match cipher_of_version version with
    | None => Rejected InvalidArguments
    | Some (sAlgo, ivBytes) =>
      match BufferTools.fromObject dataObject true r with
      | Throw e => Thrown e
      | Ok plainBuffer =>
        let r1 := skip (noise_length r) r in
        let iVectorBuffer := getRandomValues ivBytes r1 in
        let r2 := skip ivBytes r1 in
        settle (
          sKey ← generateKey_aes W sAlgo r2;
          cipherBuffer ← encrypt_aes W sAlgo iVectorBuffer sKey plainBuffer;
          sKeyBuffer ← exportKey_raw W sKey;
          plainKey ← BufferTools.concat [iVectorBuffer; sKeyBuffer];
          keyBuffer ← with_key (publicKey this)
                        (fun k => encrypt_rsa W k plainKey (skip 1 r2));
          m ← Base64.btoa (BufferTools.toAscii cipherBuffer);
          k ← Base64.btoa (BufferTools.toAscii keyBuffer);
          Ok {| message := to_string version ++ js "$" ++ m; key := k |})
      end
    end.

(** The handler of the final [catch] of [decryptObject]. *)
Definition catch_operation_error (r : result value) : outcome value :=
  match r with
  | Ok v => Resolved v
  | Throw e =>
    if bool_decide (err_name e = "OperationError"%string)
    then Resolved (VBool false) else Rejected e
  end.

(** [decryptObject( keyString, messageString )]. *)
Definition decryptObject (this : t) (keyString messageString : value)
  : outcome value :=
  match keyString, messageString with
  | VStr keyString, VStr messageString =>
    if negb (hasKeyPair this)
    then Rejected (Error "Crypto: The private key is missing, decryption is not available.")
    else
      match Base64.atob keyString with
      | Throw e => Thrown e
      | Ok keyText =>
        let keyBuffer := BufferTools.fromAscii keyText in
        let '(body, version) := split_version messageString in
        match Base64.atob body with
        | Throw e => Thrown e
        | Ok cipherText =>
          let cipherBuffer := BufferTools.fromAscii cipherText in
          match cipher_of_version version with
          | None => Rejected InvalidArguments
          | Some (sAlgo, ivBytes) =>
            catch_operation_error (
              plainKey ← with_key (privateKey this)
                         (fun k => decrypt_rsa W k keyBuffer);
              let bufArray := BufferTools.splitInTwo plainKey (Z.of_nat ivBytes) in
              sKey ← importKey_raw W (snd bufArray) sAlgo;
              plainBuffer ← decrypt_aes W sAlgo (fst bufArray) sKey cipherBuffer;
              BufferTools.toObject plainBuffer)
          end
        end
      end
  | _, _ => Rejected InvalidArguments
  end.

(** What a promise returned inside a [then] callback passes on. *)
Definition as_result {A} (o : outcome A) : result A :=
  match o with
  | Resolved a => Ok a
  | Rejected e => Throw e
  | Thrown e => Throw e
  end.

Definition public_prefix : jsstr := js "$ceph1-publ$jwk$".
Definition private_prefix : jsstr := js "$ceph1-priv$hex$".

(** The JSON Web Key of the public key with modulus [n]. *)
Definition publicJWK (n : jsstr) : value :=
  VObj [(js "alg", VStr (js "RSA-OAEP-256"));
        (js "e", VStr (js "AQAB"));
        (js "ext", VBool true);
        (js "key_ops", VArr [VStr (js "encrypt")]);
        (js "kty", VStr (js "RSA"));
        (js "n", VStr n)].

(** The argument [JSON.stringify( v )] of a call. *)
Definition stringify_arg (v : value) : value :=
  match JSON.stringify v with
  | Some text => VStr text
  | None => VUndefined
  end.

Definition unavailable (this : t) (db : Database W) : bool :=
  bool_decide (dbName this = None) || negb (isReady db).

(** [generateKeyPair( exportPassword = null )]: the outcome, the session
    and the store afterwards. *)
Definition generateKeyPair (exportPassword : value) (r : rng)
  (this : t) (db : Database W) : outcome unit * t * Database W :=
  let exportPassword := default_arg exportPassword VNull in
  if negb (is_nullish exportPassword) && not_filled_string exportPassword
  then (Rejected InvalidArguments, this, db)
  else if unavailable this db then (Rejected NotAvailable, this, db)
  else
    let this := clear_keys this in
    let exportable := negb (is_nullish exportPassword) in
    let chain : result (KeyBundle W) :=
      '(pub, generated) ← generateKey_rsa W exportable r;
      privateKeyJWK ← (if exportable then exportKey_jwk W generated
                       else Ok (VBool true));
      jwk ← exportKey_jwk W pub;
      n ← get_member (js "n") jwk;
      priv ← (if exportable then importKey_jwk W privateKeyJWK false Decrypt
              else Ok generated);
      privE ← (if exportable then
                 enc ← as_result (encryptData (stringify_arg privateKeyJWK)
                                              exportPassword VUndefined (skip 1 r));
                 Ok (Some (private_prefix ++ enc))
               else Ok None);
      Ok {| public := Some pub; private := Some priv;
            publicExport := Some (public_prefix ++ to_string n);
            privateExport := privE |} in
    match chain with
    | Throw e => (Rejected e, this, db)
    | Ok keys =>
      (Resolved tt,
       set_keys (public keys) (private keys) (publicExport keys)
                (privateExport keys) this,
       writeItem (accessPath this) keys db)
    end.

(** [loadKeyPair()]. *)
Definition loadKeyPair (this : t) (db : Database W)
  : outcome unit * t * Database W :=
  if unavailable this db then (Rejected NotAvailable, this, db)
  else
    let this := clear_keys this in
    let '(found, db) := readItem (accessPath this) db in
    match found with
    | Some keys =>
      (Resolved tt,
       set_keys (public keys) (private keys) (or_null (publicExport keys))
                (or_null (privateExport keys)) this,
       db)
    | None => (Resolved tt, this, db)
    end.

(** [importPublicKey( keyString )]. *)
Definition importPublicKey (keyString : value) (this : t) : outcome unit * t :=
  match keyString with
  | VStr ((_ :: _) as keyString) =>
    if negb (bool_decide (take 16 keyString = public_prefix))
    then (Rejected InvalidArguments, this)
    else
      let this := clear_keys this in
      match importKey_jwk W (publicJWK (drop 16 keyString)) true Encrypt with
      | Ok k => (Resolved tt, set_keys (Some k) None (Some keyString) None this)
      | Throw e => (Rejected e, this)
      end
  | _ => (Rejected InvalidArguments, this)
  end.

Definition parse_or_throw (text : jsstr) : result value :=
  match JSON.parse text with
  | Some v => Ok v
  | None => Throw (mkError "SyntaxError" "Unexpected token in JSON")
  end.

(** [importPrivateKey( pKeyString, exportPassword )]. *)
Definition importPrivateKey (pKeyString exportPassword : value)
  (this : t) (db : Database W) : outcome bool * t * Database W :=
  match pKeyString, exportPassword with
  | VStr pKeyString, VStr ((_ :: _) as password) =>
    if negb (bool_decide (take 16 pKeyString = private_prefix))
    then (Thrown (Error "Invalid arguments"), this, db)
    else if unavailable this db then (Rejected NotAvailable, this, db)
    else
      match decryptData (VStr (drop 16 pKeyString)) (VStr password) with
      | Thrown e => (Thrown e, this, db)
      | Rejected e => (Rejected e, this, db)
      | Resolved None => (Resolved false, this, db)
      | Resolved (Some text) =>
        let chain : result (KeyBundle W) :=
          privateKeyJWK ← parse_or_throw text;
          n ← get_member (js "n") privateKeyJWK;
          let publicE := public_prefix ++ to_string n in
          priv ← importKey_jwk W privateKeyJWK false Decrypt;
          pub ← importKey_jwk W (publicJWK (drop 16 publicE)) true Encrypt;
          Ok {| public := Some pub; private := Some priv;
                publicExport := Some publicE;
                privateExport := Some pKeyString |} in
        match chain with
        | Throw e => (Rejected e, this, db)
        | Ok keys =>
          (Resolved true,
           set_keys (public keys) (private keys) (publicExport keys)
                    (privateExport keys) this,
           writeItem (accessPath this) keys db)
        end
      end
  | _, _ => (Thrown (Error "Invalid arguments"), this, db)
  end.

(** [removeKeyPair()]. *)
Definition removeKeyPair (this : t) (db : Database W)
  : outcome unit * t * Database W :=
  if unavailable this db then (Rejected NotAvailable, this, db)
  else (Resolved tt, clear_keys this, removeItem (accessPath this) db).

(** [checkExportPassword( exportPassword )]. *)
Definition checkExportPassword (exportPassword : value) (this : t) : outcome bool :=
  match exportPassword with
  | VStr ((_ :: _) as password) =>
    match privateKeyExport this with
    | Some export =>
      if negb (bool_decide (take 16 export = private_prefix))
      then Thrown (Error "Crypto: Export data missing")
      else
        match decryptData (VStr (drop 16 export)) (VStr password) with
        | Thrown e => Thrown e
        | Rejected e => Rejected e
        | Resolved None => Resolved false
        | Resolved (Some text) =>
          settle (
            privateKeyJWK ← parse_or_throw text;
            n ← get_member (js "n") privateKeyJWK;
            Ok (bool_decide (publicKeyExport this
                             = Some (public_prefix ++ to_string n))))
        end
    | None => Thrown (Error "Crypto: Export data missing")
    end
  | _ => Thrown (Error "Invalid arguments")
  end.

End Methods.
End Crypto.

(** ** The envelope strings of [src/crypto.js]

    The class of [src/crypto.js] is an earlier state of the bundled one:
    its [encryptData] puts no version in front of the string, and its
    [decryptData] takes the version as a third argument. *)

Module Legacy.
Section Methods.
Context (W : WebCrypto).

(** [encryptData( dataString, password, version = 2 )]. *)
Definition encryptData (dataString password version : value) (r : rng)
  : outcome jsstr :=
  let version := default_arg version (VNum 2) in
  match dataString, password with
  | VStr dataString, VStr ((_ :: _) as password) =>
    match Crypto.cipher_of_version version with
    | None => Rejected Crypto.InvalidArguments
    | Some (sAlgo, ivBytes) =>
      let iVector := getRandomValues ivBytes r in
      let iVectorString := BufferTools.toHex iVector in
      let sKeyBuffer := Crypto.password_key password in
      match BufferTools.fromObject (VObj [(js "data", VStr dataString)]) true
                                   (skip ivBytes r) with
      | Throw e => Thrown e
      | Ok dataBuffer =>
        settle (
          sKey ← importKey_raw W sKeyBuffer sAlgo;
          encryptedBuffer ← encrypt_aes W sAlgo iVector sKey dataBuffer;
          Ok (iVectorString ++ BufferTools.toHex encryptedBuffer))
      end
    end
  | _, _ => Rejected Crypto.InvalidArguments
  end.

(** [decryptData( encryptedData, password, version = 2 )]. *)
Definition decryptData (encryptedData password version : value)
  : outcome (option jsstr) :=
  let version := default_arg version (VNum 2) in
  match encryptedData, password with
  | VStr data, VStr ((_ :: _) as password) =>
    if (length data <? 32)%nat then Rejected Crypto.InvalidArguments
    else
      match Crypto.cipher_of_version version with
      | None => Rejected Crypto.InvalidArguments
      | Some (sAlgo, ivBytes) =>
        let iVectorString := take (ivBytes * 2) data in
        match BufferTools.fromHex iVectorString with
        | Throw e => Thrown e
        | Ok iVector =>
          let sKeyBuffer := Crypto.password_key password in
          match BufferTools.fromHex (drop (ivBytes * 2) data) with
          | Throw e => Thrown e
          | Ok encryptedBuffer =>
            let chain :=
              sKey ← importKey_raw W sKeyBuffer sAlgo;
              dataBuffer ← decrypt_aes W sAlgo iVector sKey encryptedBuffer;
              obj ← BufferTools.toObject dataBuffer;
              Crypto.data_member obj in
            match chain with
            | Ok res => Resolved res
            | Throw _ => Resolved None
            end
          end
        end
      end
  | _, _ => Rejected Crypto.InvalidArguments
  end.

End Methods.
End Legacy.

(** ** Password hashing: the exported helpers *)

Module Passwords.
Section Helpers.
Context (W : WebCrypto).

Definition InvalidArguments : JsError := Error "Crypto: Invalid arguments".
Definition EncodingFailed : JsError := Error "Crypto: Encoding failed".

Inductive Encoding := base64 | hex.

(** [encoding !== "base64" && encoding !== "hex"] fails on [None]. *)
Definition encoding_of (encoding : value) : option Encoding :=
  match encoding with
  | VStr e =>
    if bool_decide (e = js "base64") then Some base64
    else if bool_decide (e = js "hex") then Some hex
    else None
  | _ => None
  end.

Definition encoding_name (e : Encoding) : jsstr :=
  match e with
  | base64 => js "base64"
  | hex => js "hex"
  end.

Definition unpadded (s : jsstr) : result jsstr :=
  match match_unpadded s with
  | Some body => Ok body
  | None => Throw EncodingFailed
  end.

(** The [try] block of [hashPassword]: the salt as a binary string and
    its encoded form. *)
Definition salt_of (salt : value) (encoding : Encoding) (r : rng)
  : result (jsstr * jsstr) :=
  match salt with
  | VStr salt =>
    match encoding with
    | base64 =>
      saltString ← Base64.atob salt;
      saltEncoded ← unpadded salt;
      Ok (saltString, saltEncoded)
    | hex =>
      saltBuffer ← BufferTools.fromHex salt;
      Ok (BufferTools.toAscii saltBuffer, salt)
    end
  | _ =>
    let saltBuffer := getRandomValues 16 r in
    let saltString := BufferTools.toAscii saltBuffer in
    match encoding with
    | base64 => saltEncoded ← Base64.btoa saltString; Ok (saltString, saltEncoded)
    | hex => Ok (saltString, BufferTools.toHex saltBuffer)
    end
  end.

(** [hashPassword( password, salt = null, encoding = "base64" )]. *)
Definition hashPassword (password salt encoding : value) (r : rng)
  : outcome jsstr :=
  let salt := default_arg salt VNull in
  let encoding := default_arg encoding (VStr (js "base64")) in
  match password, encoding_of encoding with
  | VStr ((_ :: _) as password), Some enc =>
    if negb (is_nullish salt) && not_filled_string salt
    then Rejected InvalidArguments
    else
      match salt_of salt enc r with
      | Throw e => Rejected e
      | Ok (saltString, saltEncoded) =>
        let hashBuffer := digest W (BufferTools.fromAscii (password ++ saltString)) in
        settle (
          hashEncoded ← match enc with
                        | base64 =>
                          b ← Base64.btoa (BufferTools.toAscii hashBuffer);
                          unpadded b
                        | hex => Ok (BufferTools.toHex hashBuffer)
                        end;
          Ok (js "$ceph1$" ++ encoding_name enc ++ js "$" ++ saltEncoded
                ++ js "$" ++ hashEncoded))
      end
  | _, _ => Rejected InvalidArguments
  end.

(** The decoding of a component of a hash string in [checkPassword]. *)
Definition decode (enc : Encoding) (s : jsstr) : result jsstr :=
  match enc with
  | base64 => Base64.atob s
  | hex => b ← BufferTools.fromHex s; Ok (BufferTools.toAscii b)
  end.

(** [checkPassword( password, hash )]. *)
Definition checkPassword (password hash : value) : outcome bool :=
  match password, hash with
  | VStr ((_ :: _) as password), VStr ((_ :: _) as hash) =>
    match match_hash hash with
    | None => Rejected InvalidArguments
    | Some (encoding, salt, hashed) =>
      match encoding_of (VStr encoding) with
      | None => Rejected InvalidArguments
      | Some enc =>
        match decode enc salt with
        | Throw e => Thrown e
        | Ok saltString =>
          match decode enc hashed with
          | Throw e => Thrown e
          | Ok hashString =>
            let result := digest W (BufferTools.fromAscii (password ++ saltString)) in
            Resolved (bool_decide (hashString = BufferTools.toAscii result))
          end
        end
      end
    end
  | _, _ => Rejected InvalidArguments
  end.

(** [queryPasswordSalt( hash )]; [None] is [null]. *)
Definition queryPasswordSalt (hash : value) : result (option jsstr) :=
  match hash with
  | VStr ((_ :: _) as hash) =>
    match match_hash hash with
    | None => Ok None
    | Some (encoding, salt, _) =>
      if bool_decide (encoding = js "base64") then Ok (Some salt)
      else if bool_decide (encoding = js "hex") then
        text ← Base64.atob salt;
        Ok (Some (BufferTools.toHex (BufferTools.fromAscii text)))
      else Ok None
    end
  | _ => Throw InvalidArguments
  end.

End Helpers.
End Passwords.

(** ** The helpers of the server side, over the buffers of Node.js *)

Module Node.

(** [Buffer.from( s, "hex" )]: the bytes of the leading pairs of
    hexadecimal digits. *)
Fixpoint buffer_from_hex (s : jsstr) : buffer :=
  match s with
  | c1 :: c2 :: rest =>
    match BufferTools.hex_value c1, BufferTools.hex_value c2 with
    | Some d1, Some d2 => byte_of_Z (16 * d1 + d2) :: buffer_from_hex rest
    | _, _ => []
    end
  | _ => []
  end.

(** [queryPasswordSalt( hash )] of the server side:
    [Buffer.from( hashMatch[2], "hex" ).toString( "base64" )] for a salt
    in hexadecimal. *)
Definition queryPasswordSalt (hash : value) : result (option jsstr) :=
  match hash with
  | VStr ((_ :: _) as hash) =>
    match match_hash hash with
    | None => Ok None
    | Some (encoding, salt, _) =>
      if bool_decide (encoding = js "base64") then Ok (Some salt)
      else if bool_decide (encoding = js "hex") then
        Ok (Some (Base64.encode (buffer_from_hex salt)))
      else Ok None
    end
  | _ => Throw (Error "Crypto: Invalid arguments")
  end.

Section Server.
Context (W : WebCrypto).

(** [Buffer.from( s, "base64" )], the decoder of Node.js. *)
Context (from_base64 : jsstr -> buffer).

(** [Buffer.from( s )]: the bytes of the string in UTF-8; a surrogate
    without its partner is written as U+FFFD. *)
Fixpoint utf8 (s : jsstr) : buffer :=
  match s with
  | [] => []
  | c :: s' =>
    if c <? 128 then byte_of_Z c :: utf8 s'
    else if c <? 2048 then
      byte_of_Z (192 + c / 64) :: byte_of_Z (128 + c mod 64) :: utf8 s'
    else if JSON.is_high_surrogate c then
      match s' with
      | d :: s'' =>
        if JSON.is_low_surrogate d then
          let u := 65536 + (c - 55296) * 1024 + (d - 56320) in
          byte_of_Z (240 + u / 262144) :: byte_of_Z (128 + (u / 4096) mod 64)
            :: byte_of_Z (128 + (u / 64) mod 64) :: byte_of_Z (128 + u mod 64)
            :: utf8 s''
        else byte_of_Z 239 :: byte_of_Z 191 :: byte_of_Z 189 :: utf8 s'
      | [] => [byte_of_Z 239; byte_of_Z 191; byte_of_Z 189]
      end
    else if JSON.is_low_surrogate c then
      byte_of_Z 239 :: byte_of_Z 191 :: byte_of_Z 189 :: utf8 s'
    else
      byte_of_Z (224 + c / 4096) :: byte_of_Z (128 + (c / 64) mod 64)
        :: byte_of_Z (128 + c mod 64) :: utf8 s'
  end.

(** What [hashService.update( hexMessage, "hex" )] is given: the bytes
    of the password and of the salt. *)
Definition message_bytes (password : jsstr) (enc : Passwords.Encoding)
  (saltEncoded : jsstr) : buffer :=
  let hexMessage :=
    BufferTools.toHex (utf8 password)
      ++ match enc with
         | Passwords.base64 => BufferTools.toHex (from_base64 saltEncoded)
         | Passwords.hex => saltEncoded
         end in
  buffer_from_hex hexMessage.

(** [buffer.toString( encoding )] and [hashService.digest( encoding )]. *)
Definition buffer_text (enc : Passwords.Encoding) (b : buffer) : jsstr :=
  match enc with
  | Passwords.base64 => Base64.encode b
  | Passwords.hex => BufferTools.toHex b
  end.

(** The digest of password and salt, as the hash string holds it. *)
Definition digest_text (password : jsstr) (enc : Passwords.Encoding)
  (saltEncoded : jsstr) : result jsstr :=
  let hash := buffer_text enc (digest W (message_bytes password enc saltEncoded)) in
  match enc with
  | Passwords.base64 => Passwords.unpadded hash
  | Passwords.hex => Ok hash
  end.

(** [hashPassword( password, salt = null, encoding = "base64" )] of
    the server side; it returns the string or throws. *)
Definition hashPassword (password salt encoding : value) (r : rng) : result jsstr :=
  let salt := default_arg salt VNull in
  let encoding := default_arg encoding (VStr (js "base64")) in
  match password, Passwords.encoding_of encoding with
  | VStr ((_ :: _) as password), Some enc =>
    if negb (is_nullish salt) && not_filled_string salt
    then Throw (Error "Crypto: Invalid arguments")
    else
      saltEncoded ← match salt with
                    | VStr salt =>
                      match enc with
                      | Passwords.base64 => Passwords.unpadded salt
                      | Passwords.hex => Ok salt
                      end
                    | _ => Ok (buffer_text enc (getRandomValues 16 r))
                    end;
      hashEncoded ← digest_text password enc saltEncoded;
      Ok (js "$ceph1$" ++ Passwords.encoding_name enc ++ js "$" ++ saltEncoded
            ++ js "$" ++ hashEncoded)
  | _, _ => Throw (Error "Crypto: Invalid arguments")
  end.

(** [checkPassword( password, hash )] of the server side; [None] is
    [null]. *)
Definition checkPassword (password hash : value) : result (option bool) :=
  match password, hash with
  | VStr ((_ :: _) as password), VStr ((_ :: _) as hash) =>
    match match_hash hash with
    | None => Ok None
    | Some (encoding, salt, hashed) =>
      match Passwords.encoding_of (VStr encoding) with
      | None => Ok None
      | Some enc =>
        newHash ← digest_text password enc salt;
        Ok (Some (bool_decide (hashed = newHash)))
      end
    end
  | _, _ => Throw (Error "Crypto: Invalid arguments")
  end.

End Server.

End Node.

(** ** The contract of the provider *)

(** What the module relies on: SHA-256 digests have 32 bytes; a cipher
    text decrypts under the key that made it, also after the key went
    through its raw export, and is longer than the plain text (by the
    padding of AES-CBC, by the tag of AES-GCM); RSA-OAEP decrypts under
    the private key of the pair; the two keys of a generated pair have
    one modulus; an exported key has it as the string member [n] of its
    JSON Web Key, and an imported key takes it from the member [n], read
    as a string. *)
Record Lawful (W : WebCrypto) : Prop := {
  digest_length : forall m, length (digest W m) = 32%nat;
  aes_roundtrip : forall a raw k iv m c,
    importKey_raw W raw a = Ok k ->
    encrypt_aes W a iv k m = Ok c ->
    decrypt_aes W a iv k c = Ok m;
  aes_export_roundtrip : forall a r k raw iv m c,
    generateKey_aes W a r = Ok k ->
    exportKey_raw W k = Ok raw ->
    encrypt_aes W a iv k m = Ok c ->
    exists k', importKey_raw W raw a = Ok k' /\ decrypt_aes W a iv k' c = Ok m;
  aes_grows : forall a iv k m c,
    encrypt_aes W a iv k m = Ok c -> (length m < length c)%nat;
  rsa_roundtrip : forall pub priv m r c,
    key_pair W pub priv ->
    encrypt_rsa W pub m r = Ok c ->
    decrypt_rsa W priv c = Ok m;
  generated_pair : forall e r pub priv,
    generateKey_rsa W e r = Ok (pub, priv) ->
    key_pair W pub priv /\ modulus W pub = modulus W priv;
  exported_modulus : forall k jwk,
    exportKey_jwk W k = Ok jwk ->
    get_member (js "n") jwk = Ok (VStr (modulus W k));
  imported_modulus : forall jwk e u k,
    importKey_jwk W jwk e u = Ok k ->
    exists n, get_member (js "n") jwk = Ok n /\ to_string n = modulus W k
}.

(** ** The sessions the methods lead to *)

Section Sessions.
Context (W : WebCrypto).

(** The store of a page that was never used. *)
Definition blank_database : Database W :=
  {| databaseName := None; storeName := None; connection := false; items := empty |}.

(** One call on a session object and the store behind it, from the
    call to the moment its promise is settled; a call of the constructor
    puts another session object in front of the same store. *)
Inductive step : Crypto.t W * Database W -> Crypto.t W * Database W -> Prop :=
| step_generateKeyPair (exportPassword : value) (r : rng) this db :
    step (this, db)
         (snd (fst (Crypto.generateKeyPair W exportPassword r this db)),
          snd (Crypto.generateKeyPair W exportPassword r this db))
| step_loadKeyPair this db :
    step (this, db)
         (snd (fst (Crypto.loadKeyPair W this db)), snd (Crypto.loadKeyPair W this db))
| step_importPublicKey (keyString : value) this db :
    step (this, db) (snd (Crypto.importPublicKey W keyString this), db)
| step_importPrivateKey (pKeyString exportPassword : value) this db :
    step (this, db)
         (snd (fst (Crypto.importPrivateKey W pKeyString exportPassword this db)),
          snd (Crypto.importPrivateKey W pKeyString exportPassword this db))
| step_removeKeyPair this db :
    step (this, db)
         (snd (fst (Crypto.removeKeyPair W this db)), snd (Crypto.removeKeyPair W this db))
| step_setAccessPath (path : value) this this' db :
    Crypto.setAccessPath W path this = Ok this' ->
    step (this, db) (this', db)
| step_constructor (name : value) this db this' db' :
    Crypto.constructor W name db = Ok (this', db') ->
    step (this, db) (this', db').

(** The states of a session: a new session over the blank store, and
    what the calls make of it, one after the other. *)
Inductive reachable : Crypto.t W * Database W -> Prop :=
| reachable_new (name : value) this db :
    Crypto.constructor W name blank_database = Ok (this, db) ->
    reachable (this, db)
| reachable_step s s' :
    reachable s -> step s s' -> reachable s'.

(** A private key comes with the public key of the same modulus and
    with the string of that public key. *)
Definition paired (pub priv : option (CryptoKey W)) (pubE : option jsstr) : Prop :=
  forall k, priv = Some k ->
    exists p, pub = Some p /\ modulus W p = modulus W k
              /\ pubE = Some (Crypto.public_prefix ++ modulus W p).

Definition session_paired (this : Crypto.t W) : Prop :=
  paired (Crypto.publicKey W this) (Crypto.privateKey W this)
         (Crypto.publicKeyExport W this).

Definition store_paired (db : Database W) : Prop :=
  forall key keys, items db !! key = Some keys ->
    paired (public keys) (private keys) (publicExport keys).

(** All four fields of the session are [null]. *)
Definition keys_null (this : Crypto.t W) : Prop :=
  Crypto.publicKey W this = None /\ Crypto.privateKey W this = None
  /\ Crypto.publicKeyExport W this = None /\ Crypto.privateKeyExport W this = None.

End Sessions.

Arguments step {W} _ _.
Arguments reachable {W} _.
Arguments session_paired {W} _.
Arguments store_paired {W} _.
Arguments keys_null {W} _.

(** ** A small provider to run the module on *)

Module Sample.

Inductive Key :=
| SecretKey (a : SymAlgo) (raw : buffer)
| PublicKey (n : jsstr)
| PrivateKey (n : jsstr).

Global Instance SymAlgo_eq_dec : EqDecision SymAlgo.
Proof. solve_decision. Defined.

Definition OperationError : JsError :=
  mkError "OperationError" "The operation failed for an operation-specific reason".
Definition DataError : JsError := mkError "DataError" "Invalid key data".
Definition InvalidAccessError : JsError :=
  mkError "InvalidAccessError" "The key does not support the operation".

(** A checksum of 32 bytes. *)
Definition sample_digest (m : buffer) : buffer :=
  let total := fold_left (fun acc b => acc * 31 + Z_of_byte b + 7) m 1 in
  map (fun i => byte_of_Z (total / (Z.of_nat i + 1) + Z.of_nat i)) (seq 0 32).

Definition sample_importKey_raw (raw : buffer) (a : SymAlgo) : result Key :=
  if bool_decide (length raw = 16%nat) || bool_decide (length raw = 24%nat)
     || bool_decide (length raw = 32%nat)
  then Ok (SecretKey a raw) else Throw DataError.

Definition sample_generateKey_aes (a : SymAlgo) (r : rng) : result Key :=
  Ok (SecretKey a (getRandomValues 32 r)).

Definition sample_exportKey_raw (k : Key) : result buffer :=
  match k with
  | SecretKey _ raw => Ok raw
  | _ => Throw InvalidAccessError
  end.

(** The text is sealed by the key and the vector in front of it. *)
Definition sample_encrypt_aes (a : SymAlgo) (iv : buffer) (k : Key) (m : buffer)
  : result buffer :=
  match k with
  | SecretKey a' raw =>
    if bool_decide (a' = a) && negb (bool_decide (raw = []))
    then Ok (raw ++ iv ++ m) else Throw InvalidAccessError
  | _ => Throw InvalidAccessError
  end.

Definition sample_decrypt_aes (a : SymAlgo) (iv : buffer) (k : Key) (c : buffer)
  : result buffer :=
  match k with
  | SecretKey a' raw =>
    if bool_decide (a' = a) then
      if bool_decide (take (length (raw ++ iv)) c = raw ++ iv)
      then Ok (drop (length (raw ++ iv)) c) else Throw OperationError
    else Throw InvalidAccessError
  | _ => Throw InvalidAccessError
  end.

Definition sample_jwk (kty : string) (n : jsstr) : value :=
  VObj [(js "kty", VStr (js kty)); (js "n", VStr n); (js "e", VStr (js "AQAB"))].

Definition sample_generateKey_rsa (extractable : bool) (r : rng) : result (Key * Key) :=
  let n := [65 + r 0%nat mod 26; 97 + r 1%nat mod 26] in
  Ok (PublicKey n, PrivateKey n).

Definition sample_exportKey_jwk (k : Key) : result value :=
  match k with
  | PublicKey n => Ok (sample_jwk "RSA" n)
  | PrivateKey n => Ok (sample_jwk "RSA" n)
  | SecretKey _ _ => Throw InvalidAccessError
  end.

(** A key without a modulus is refused. *)
Definition sample_importKey_jwk (jwk : value) (extractable : bool) (u : KeyUsage)
  : result Key :=
  match get_member (js "n") jwk with
  | Ok (VStr ((_ :: _) as n)) =>
    match u with
    | Encrypt => Ok (PublicKey n)
    | Decrypt => Ok (PrivateKey n)
    end
  | _ => Throw DataError
  end.

Definition sample_encrypt_rsa (k : Key) (m : buffer) (r : rng) : result buffer :=
  match k with
  | PublicKey n => Ok (BufferTools.fromAscii n ++ m)
  | _ => Throw InvalidAccessError
  end.

Definition sample_decrypt_rsa (k : Key) (c : buffer) : result buffer :=
  match k with
  | PrivateKey n =>
    if bool_decide (take (length n) c = BufferTools.fromAscii n)
    then Ok (drop (length n) c) else Throw OperationError
  | _ => Throw InvalidAccessError
  end.

Definition sample_modulus (k : Key) : jsstr :=
  match k with
  | PublicKey n => n
  | PrivateKey n => n
  | SecretKey _ _ => []
  end.

Definition sample_key_pair (pub priv : Key) : Prop :=
  exists n, pub = PublicKey n /\ priv = PrivateKey n.

Definition provider : WebCrypto := {|
  CryptoKey := Key;
  digest := sample_digest;
  importKey_raw := sample_importKey_raw;
  generateKey_aes := sample_generateKey_aes;
  exportKey_raw := sample_exportKey_raw;
  encrypt_aes := sample_encrypt_aes;
  decrypt_aes := sample_decrypt_aes;
  generateKey_rsa := sample_generateKey_rsa;
  exportKey_jwk := sample_exportKey_jwk;
  importKey_jwk := sample_importKey_jwk;
  encrypt_rsa := sample_encrypt_rsa;
  decrypt_rsa := sample_decrypt_rsa;
  modulus := sample_modulus;
  key_pair := sample_key_pair
|}.

(** Three sources of random values; the last one delivers the letter A
    as its third value and opening braces otherwise. *)
Definition dice : rng := fun i => (Z.of_nat i * 41 + 7) mod 256.
Definition zeros : rng := fun _ => 0.
Definition braces : rng := fun i => if (i =? 2)%nat then 65 else ch_lbrace.

(** The session after [generateKeyPair( "s3cr3t" )] on a fresh session,
    and the store after it. *)
Definition fresh : Crypto.t provider :=
  {| Crypto.publicKey := None; Crypto.privateKey := None;
     Crypto.publicKeyExport := None; Crypto.privateKeyExport := None;
     Crypto.dbName := Some (js "db"); Crypto.accessPath := js "default" |}.

Definition empty_store : Database provider :=
  {| databaseName := Some (js "db"); storeName := Some (js "crypto");
     connection := false; items := empty |}.

Definition session : Crypto.t provider :=
  snd (fst (Crypto.generateKeyPair provider (VStr (js "s3cr3t")) dice fresh empty_store)).

Definition store : Database provider :=
  snd (Crypto.generateKeyPair provider (VStr (js "s3cr3t")) dice fresh empty_store).

(** The export string of the private key of [session]. *)
Definition export : jsstr := default [] (Crypto.privateKeyExport provider session).

(** A session with the key-pair of somebody else. *)
Definition stranger : Crypto.t provider :=
  snd (fst (Crypto.generateKeyPair provider VNull zeros fresh empty_store)).

(** The object of the tests, and what [encryptObject] makes of it with
    version 1 and with version 2. *)
Definition greeting : list (jsstr * value) :=
  [(js "message", VStr (js "Hello world!"))].

Definition no_envelope : Crypto.Envelope := {| Crypto.message := []; Crypto.key := [] |}.

Definition letter1 : Crypto.Envelope :=
  Eval vm_compute in
    match Crypto.encryptObject provider session (VObj greeting) (VNum 1) dice with
    | Resolved env => env
    | _ => no_envelope
    end.

Definition letter2 : Crypto.Envelope :=
  Eval vm_compute in
    match Crypto.encryptObject provider session (VObj greeting) VUndefined zeros with
    | Resolved env => env
    | _ => no_envelope
    end.

(** The envelope of the empty object. *)
Definition empty_letter : Crypto.Envelope :=
  Eval vm_compute in
    match Crypto.encryptObject provider session (VObj []) (VNum 2) dice with
    | Resolved env => env
    | _ => no_envelope
    end.

(** An object with a character above 255, and its envelope. *)
Definition wide : list (jsstr * value) := [(js "name", VStr [353])].

Definition wide_letter : Crypto.Envelope :=
  Eval vm_compute in
    match Crypto.encryptObject provider session (VObj wide) (VNum 2) dice with
    | Resolved env => env
    | _ => no_envelope
    end.

(** What [encryptData] makes of the string [secret] under the password
    [ab], with version 1 and with version 2. *)
Definition envelope1 : jsstr :=
  Eval vm_compute in
    match Crypto.encryptData provider (VStr (js "secret")) (VStr (js "ab"))
                             (VNum 1) dice with
    | Resolved s => s
    | _ => []
    end.

Definition envelope2 : jsstr :=
  Eval vm_compute in
    match Crypto.encryptData provider (VStr (js "secret")) (VStr (js "ab"))
                             (VNum 2) dice with
    | Resolved s => s
    | _ => []
    end.

End Sample.

(** ** Data of the tests of [BufferTools] *)

Module Tests.

(** The bytes of ["message":"Hello world!"], and the buffer of the
    object [{ message: "Hello world!" }]. *)
Definition inner : buffer :=
  map byte_of_Z [34; 109; 101; 115; 115; 97; 103; 101; 34; 58; 34; 72; 101; 108;
                 108; 111; 32; 119; 111; 114; 108; 100; 33; 34].

Definition message : buffer := byte_of_Z ch_lbrace :: inner ++ [byte_of_Z ch_rbrace].

(** The noise of the test that extracts an object from a noisy buffer. *)
Definition noise_before : buffer :=
  map byte_of_Z [242; 36; 13; 147; 115; 34; 32; 108; 101; 120; 65; 55; 57; 45; 82;
                 130; 212; 177].

Definition noise_after : buffer :=
  map byte_of_Z [154; 16; 2; 82; 72; 35; 50; 153; 208; 74; 121; 100; 85; 10; 79;
                 190; 198; 136].

End Tests.

(** ** Data of the runs *)

Module Runs.

(** The session of a visitor, made without the name of a database, and
    a session over the database of [Sample.fresh] with an access path of
    its own. *)
Definition visitor : Crypto.t Sample.provider :=
  {| Crypto.publicKey := None; Crypto.privateKey := None;
     Crypto.publicKeyExport := None; Crypto.privateKeyExport := None;
     Crypto.dbName := None; Crypto.accessPath := js "default" |}.

Definition lodger : Crypto.t Sample.provider :=
  {| Crypto.publicKey := None; Crypto.privateKey := None;
     Crypto.publicKeyExport := None; Crypto.privateKeyExport := None;
     Crypto.dbName := Some (js "db"); Crypto.accessPath := js "lodger" |}.

(** A second session of the page, made with another database name. *)
Definition second : Crypto.t Sample.provider * Database Sample.provider :=
  match Crypto.constructor Sample.provider (VStr (js "other")) Sample.empty_store with
  | Ok made => made
  | Throw _ => (Sample.fresh, Sample.empty_store)
  end.

(** The public key string of [Sample.session], the private key of its
    pair as a JSON Web Key, and the text of that. *)
Definition public_string : jsstr := js "$ceph1-publ$jwk$Hw".

Definition private_jwk : value := Sample.sample_jwk "RSA" (js "Hw").

Definition private_text : jsstr :=
  Eval vm_compute in default [] (JSON.stringify private_jwk).

(** The text of the object of the tests. *)
Definition greeting_text : jsstr :=
  Eval vm_compute in default [] (JSON.stringify (VObj Sample.greeting)).

(** The hash strings of the password [pw]: with the salt [c2FsdA==]
    and with a generated one, in the browser and on the server. *)
Definition salted_hash : jsstr :=
  Eval vm_compute in
    match Passwords.hashPassword Sample.provider (VStr (js "pw")) (VStr (js "c2FsdA=="))
                                 (VStr (js "base64")) Sample.dice with
    | Resolved h => h
    | _ => []
    end.

Definition fresh_hash (enc : Passwords.Encoding) : jsstr :=
  match Passwords.hashPassword Sample.provider (VStr (js "pw")) VNull
                               (VStr (Passwords.encoding_name enc)) Sample.dice with
  | Resolved h => h
  | _ => []
  end.

(** A decoder of base64 for the server: that of the browser. *)
Definition decoder (s : jsstr) : buffer :=
  match Base64.atob s with
  | Ok text => BufferTools.fromAscii text
  | Throw _ => []
  end.

Definition server_hash (salt : value) (enc : Passwords.Encoding) : jsstr :=
  match Node.hashPassword Sample.provider decoder (VStr (js "pw")) salt
                          (VStr (Passwords.encoding_name enc)) Sample.dice with
  | Ok h => h
  | Throw _ => []
  end.

(** What the earlier [encryptData] makes of the string [secret] under
    the password [ab]. *)
Definition bare (version : Z) : jsstr :=
  match Legacy.encryptData Sample.provider (VStr (js "secret")) (VStr (js "ab"))
                           (VNum version) Sample.dice with
  | Resolved s => s
  | _ => []
  end.

End Runs.

(** ** Vocabulary of the statements *)

(** A binary string: every code unit is the code of one byte. *)
Definition binary (s : jsstr) : Prop := Forall (fun c => 0 <= c < 256) s.

(** The texts of the elements of an array and of the members of an
    object, as [JSON.stringify] writes them. *)
Definition elements_text (items : list value) : list jsstr :=
  map (fun x => default (js "null") (JSON.stringify x)) items.

Definition properties_text (members : list (jsstr * value)) : list jsstr :=
  flat_map (fun kv => match JSON.stringify (snd kv) with
                      | Some t => [JSON.quote (fst kv) ++ JSON.ch_colon :: t]
                      | None => []
                      end) members.

(** Neither a line feed nor a carriage return. *)
Definition no_newline (c : Z) : bool := negb (c =? 10) && negb (c =? 13).

(** The object [{ data: d }] that wraps a string, and its JSON text. *)
Definition data_object (d : jsstr) : value := VObj [(js "data", VStr d)].

Definition data_text (d : jsstr) : jsstr :=
  ch_lbrace :: JSON.quote (js "data") ++ JSON.ch_colon :: JSON.quote d ++ [ch_rbrace].

(** The bytes that must not occur in the noise. *)
Definition reserved (b : byte) : bool :=
  bool_decide (b ∈ BufferTools.nonNoiseCharacters).

(** What the cleaning of the noise does to one byte. *)
Definition cleaned (filler b : byte) : byte :=
  if reserved b then filler else b.

(** Every byte there is. *)
Definition all_bytes : list byte :=
  map (fun i => byte_of_Z (Z.of_nat i)) (seq 0 256).


(** The string [encryptData] returns for a version, a vector and a
    cipher text. *)
Definition tagged_envelope (version : Z) (iVector payload : buffer) : jsstr :=
  JSON.number_to_string version ++ js "$"
    ++ BufferTools.toHex iVector ++ BufferTools.toHex payload.

(** The legacy form: no version in front. *)
Definition bare_envelope (iVector payload : buffer) : jsstr :=
  BufferTools.toHex iVector ++ BufferTools.toHex payload.

(** A digit of base 16, in either case. *)
Definition is_hex (c : Z) : bool :=
  match BufferTools.hex_value c with
  | Some _ => true
  | None => false
  end.


(** A digit of base 64. *)
Definition digit (d : Z) : Prop := 0 <= d < 64.

(** The base64 text of a buffer without its padding. *)
Definition base64_unpadded (b : buffer) : jsstr :=
  map Base64.char_of_digit (Base64.digits_of_bytes b).

(** The text of a digest in a hash string. *)
Definition hash_text (enc : Passwords.Encoding) (hashBuffer : buffer) : jsstr :=
  match enc with
  | Passwords.base64 => base64_unpadded hashBuffer
  | Passwords.hex => BufferTools.toHex hashBuffer
  end.

(** The hash string of the four components. *)
Definition hash_string (enc : Passwords.Encoding) (salt hash : jsstr) : jsstr :=
  js "$ceph1$" ++ Passwords.encoding_name enc ++ js "$" ++ salt ++ js "$" ++ hash.

(** No padding, no white space and no dollar sign. *)
Definition plain_char (c : Z) : bool :=
  negb (c =? ch_equals) && negb (Base64.is_ascii_whitespace c)
  && negb (c =? ch_dollar).

(** A string of ASCII: every code unit is below 128. *)
Definition ascii_string (s : jsstr) : Prop := Forall (fun c => 0 <= c < 128) s.

(** A digit of base 16 as [toHex] writes it. *)
Definition is_lower_hex (c : Z) : bool :=
  ((48 <=? c) && (c <=? 57)) || ((97 <=? c) && (c <=? 102)).

(** What [toLowerCase] makes of a code unit of ASCII. *)
Definition ascii_lower (c : Z) : Z :=
  if (65 <=? c) && (c <=? 90) then c + 32 else c.

(** Neither brace is the byte. *)
Definition not_lbrace (b : byte) : bool := negb (bool_decide (b = byte_of_Z ch_lbrace)).
Definition not_rbrace (b : byte) : bool := negb (bool_decide (b = byte_of_Z ch_rbrace)).

(* ================================================================== *)
(** * Part II: theorems                                                *)
(* ================================================================== *)

(** ** Bytes *)

Lemma Z_of_byte_range (b : byte) : 0 <= Z_of_byte b < 256.
Proof.
  unfold Z_of_byte. pose proof (Byte.to_N_bounded b). lia.
Qed.

Lemma byte_of_Z_of_byte (b : byte) : byte_of_Z (Z_of_byte b) = b.
Proof.
  unfold byte_of_Z. pose proof (Z_of_byte_range b) as Hb.
  rewrite Z.mod_small by lia. unfold Z_of_byte.
  rewrite N2Z.id, Byte.of_to_N. reflexivity.
Qed.

Lemma Z_of_byte_of_Z (z : Z) : Z_of_byte (byte_of_Z z) = z mod 256.
Proof.
  unfold byte_of_Z, Z_of_byte.
  pose proof (Z.mod_pos_bound z 256 ltac:(lia)) as Hz.
  destruct (Byte.of_N (Z.to_N (z mod 256))) as [b|] eqn:E.
  - apply Byte.to_of_N in E. simpl. rewrite E. lia.
  - apply Byte.of_N_None_iff in E. lia.
Qed.

Lemma Z_of_byte_of_Z_small (z : Z) : 0 <= z < 256 -> Z_of_byte (byte_of_Z z) = z.
Proof. intros H. rewrite Z_of_byte_of_Z. apply Z.mod_small. lia. Qed.

Lemma Z_of_byte_inj (a b : byte) : Z_of_byte a = Z_of_byte b -> a = b.
Proof.
  intros H. rewrite <- (byte_of_Z_of_byte a), <- (byte_of_Z_of_byte b). congruence.
Qed.

Lemma toAscii_binary (b : buffer) : binary (BufferTools.toAscii b).
Proof.
  unfold binary, BufferTools.toAscii. apply Forall_forall. intros c Hc.
  apply list_elem_of_fmap in Hc as [x [-> _]]. apply Z_of_byte_range.
Qed.

Lemma fromAscii_toAscii (b : buffer) :
  BufferTools.fromAscii (BufferTools.toAscii b) = b.
Proof.
  unfold BufferTools.fromAscii, BufferTools.toAscii.
  induction b as [|x b IH]; simpl; [reflexivity|].
  rewrite byte_of_Z_of_byte. f_equal. exact IH.
Qed.

Lemma toAscii_fromAscii (s : jsstr) :
  binary s -> BufferTools.toAscii (BufferTools.fromAscii s) = s.
Proof.
  unfold BufferTools.fromAscii, BufferTools.toAscii.
  induction 1 as [|c s Hc _ IH]; simpl; [reflexivity|].
  rewrite Z_of_byte_of_Z_small by exact Hc. f_equal. exact IH.
Qed.

(** ** Hexadecimal strings *)

Lemma hex_value_digit (d : Z) :
  0 <= d < 16 -> BufferTools.hex_value (BufferTools.hex_digit d) = Some d.
Proof.
  intros H. unfold BufferTools.hex_digit, BufferTools.hex_value.
  destruct (Z.ltb_spec d 10).
  - replace ((48 <=? 48 + d) && (48 + d <=? 57)) with true by (symmetry; apply andb_true_iff; lia).
    f_equal. lia.
  - replace ((48 <=? 97 + (d - 10)) && (97 + (d - 10) <=? 57)) with false by (symmetry; apply andb_false_iff; lia).
    replace ((97 <=? 97 + (d - 10)) && (97 + (d - 10) <=? 102)) with true by (symmetry; apply andb_true_iff; lia).
    f_equal. lia.
Qed.

Lemma fromHex_toHex (b : buffer) :
  BufferTools.fromHex (BufferTools.toHex b) = Ok b.
Proof.
  induction b as [|x b IH]; [reflexivity|].
  pose proof (Z_of_byte_range x) as Hx.
  cbn [BufferTools.toHex BufferTools.fromHex].
  rewrite !hex_value_digit, IH.
  - do 2 f_equal. rewrite <- (byte_of_Z_of_byte x) at 3. f_equal.
    pose proof (Z.div_mod (Z_of_byte x) 16 ltac:(lia)). lia.
  - apply Z.mod_pos_bound. lia.
  - split; [apply Z.div_pos; lia | apply Z.div_lt_upper_bound; lia].
Qed.
(** ** Base64 *)

Lemma list_ind3 {A} (P : list A -> Prop) :
  P [] -> (forall x, P [x]) -> (forall x y, P [x; y]) ->
  (forall x y z l, P l -> P (x :: y :: z :: l)) ->
  forall l, P l.
Proof.
  intros H0 H1 H2 H3.
  fix IH 1. intros [|x [|y [|z l]]].
  - exact H0.
  - apply H1.
  - apply H2.
  - apply H3. apply IH.
Qed.

Lemma byte_of_Z_eq (z : Z) (b : byte) : z mod 256 = Z_of_byte b -> byte_of_Z z = b.
Proof.
  intros H. apply Z_of_byte_inj. rewrite Z_of_byte_of_Z. exact H.
Qed.

Lemma digits_of_bytes_digit (b : buffer) : Forall digit (Base64.digits_of_bytes b).
Proof.
  induction b as [|x|x y|x y z l IH] using list_ind3; cbn [Base64.digits_of_bytes].
  - constructor.
  - pose proof (Z_of_byte_range x).
    repeat constructor; unfold digit; Z.div_mod_to_equations; lia.
  - pose proof (Z_of_byte_range x). pose proof (Z_of_byte_range y).
    repeat constructor; unfold digit; Z.div_mod_to_equations; lia.
  - pose proof (Z_of_byte_range x). pose proof (Z_of_byte_range y).
    pose proof (Z_of_byte_range z).
    apply Forall_app. split; [|exact IH].
    repeat constructor; unfold digit; Z.div_mod_to_equations; lia.
Qed.

Lemma bytes_of_digits_of_bytes (b : buffer) :
  Base64.bytes_of_digits (Base64.digits_of_bytes b) = b.
Proof.
  induction b as [|x|x y|x y z l IH] using list_ind3;
    cbn [Base64.digits_of_bytes Base64.bytes_of_digits app].
  - reflexivity.
  - pose proof (Z_of_byte_range x).
    f_equal. apply byte_of_Z_eq. Z.div_mod_to_equations. lia.
  - pose proof (Z_of_byte_range x). pose proof (Z_of_byte_range y).
    f_equal; [|f_equal]; apply byte_of_Z_eq; Z.div_mod_to_equations; lia.
  - pose proof (Z_of_byte_range x). pose proof (Z_of_byte_range y).
    pose proof (Z_of_byte_range z).
    rewrite IH.
    f_equal; [|f_equal; [|f_equal]]; apply byte_of_Z_eq; Z.div_mod_to_equations; lia.
Qed.

(** A property of every number below a bound, by running through them. *)
Lemma range_check (P : Z -> bool) (n : nat) :
  forallb P (map Z.of_nat (seq 0 n)) = true ->
  forall d, 0 <= d < Z.of_nat n -> P d = true.
Proof.
  intros H d Hd. rewrite forallb_forall in H. apply H.
  apply in_map_iff. exists (Z.to_nat d). split; [lia|].
  apply in_seq. lia.
Qed.

Lemma digit_of_char_of_digit (d : Z) :
  digit d -> Base64.digit_of_char (Base64.char_of_digit d) = Some d.
Proof.
  intros Hd.
  assert (H : forallb (fun d => match Base64.digit_of_char (Base64.char_of_digit d) with
                                | Some d' => d' =? d
                                | None => false
                                end) (map Z.of_nat (seq 0 64)) = true)
    by (vm_compute; reflexivity).
  apply (range_check _ 64 H d) in Hd.
  destruct (Base64.digit_of_char (Base64.char_of_digit d)); [|discriminate].
  f_equal. lia.
Qed.

Lemma char_of_digit_plain (d : Z) :
  digit d -> plain_char (Base64.char_of_digit d) = true.
Proof.
  intros Hd.
  assert (H : forallb (fun d => plain_char (Base64.char_of_digit d))
                      (map Z.of_nat (seq 0 64)) = true)
    by (vm_compute; reflexivity).
  exact (range_check _ 64 H d Hd).
Qed.

Lemma chars_plain (ds : list Z) :
  Forall digit ds -> forallb plain_char (map Base64.char_of_digit ds) = true.
Proof.
  induction 1 as [|d ds Hd _ IH]; [reflexivity|].
  simpl. rewrite char_of_digit_plain by exact Hd. exact IH.
Qed.

Lemma digits_of_chars_of_digits (ds : list Z) :
  Forall digit ds ->
  Base64.digits_of_chars (map Base64.char_of_digit ds) = Some ds.
Proof.
  induction 1 as [|d ds Hd _ IH]; [reflexivity|].
  cbn [map Base64.digits_of_chars].
  rewrite digit_of_char_of_digit by exact Hd. rewrite IH. reflexivity.
Qed.

Lemma forallb_impl {A} (p q : A -> bool) (l : list A) :
  (forall x, p x = true -> q x = true) ->
  forallb p l = true -> forallb q l = true.
Proof.
  intros Hpq. rewrite !forallb_forall. auto.
Qed.

Lemma filter_all {A} (p : A -> bool) (l : list A) :
  forallb p l = true -> List.filter p l = l.
Proof.
  induction l as [|x l IH]; [reflexivity|].
  simpl. intros [Hx Hl]%andb_true_iff. rewrite Hx, IH by exact Hl. reflexivity.
Qed.

Lemma take_while_app {A} (p : A -> bool) (l1 l2 : list A) :
  forallb p l1 = true -> forallb (fun x => negb (p x)) l2 = true ->
  take_while p (l1 ++ l2) = l1.
Proof.
  intros H1 H2. induction l1 as [|x l1 IH]; simpl in *.
  - destruct l2 as [|y l2]; [reflexivity|]. simpl in H2.
    apply andb_true_iff in H2 as [Hy _]. apply negb_true_iff in Hy.
    simpl. rewrite Hy. reflexivity.
  - apply andb_true_iff in H1 as [Hx H1]. rewrite Hx, IH by exact H1. reflexivity.
Qed.

Lemma drop_while_app {A} (p : A -> bool) (l1 l2 : list A) :
  forallb p l1 = true -> forallb (fun x => negb (p x)) l2 = true ->
  drop_while p (l1 ++ l2) = l2.
Proof.
  intros H1 H2. induction l1 as [|x l1 IH]; simpl in *.
  - destruct l2 as [|y l2]; [reflexivity|]. simpl in H2.
    apply andb_true_iff in H2 as [Hy _]. apply negb_true_iff in Hy.
    simpl. rewrite Hy. reflexivity.
  - apply andb_true_iff in H1 as [Hx H1]. rewrite Hx. apply IH. exact H1.
Qed.

(** The number of digits of a buffer. *)
Lemma length_digits_of_bytes (b : buffer) :
  length (Base64.digits_of_bytes b)
  = (4 * (length b / 3) + match length b mod 3 with 0 => 0 | m => m + 1 end)%nat.
Proof.
  induction b as [|x|x y|x y z l IH] using list_ind3; try reflexivity.
  cbn [Base64.digits_of_bytes]. rewrite length_app, IH. cbn [length].
  replace (S (S (S (length l)))) with (length l + 1 * 3)%nat by lia.
  rewrite Nat.div_add, Nat.Div0.mod_add by lia. lia.
Qed.

Lemma plain_not_equals (c : Z) : plain_char c = true -> (c =? ch_equals) = false.
Proof.
  unfold plain_char. intros H.
  apply andb_true_iff in H as [H _]. apply andb_true_iff in H as [H _].
  apply negb_true_iff in H. exact H.
Qed.

Lemma rev_head_plain (body : jsstr) (c : Z) (r : jsstr) :
  forallb plain_char body = true -> rev body = c :: r -> (c =? ch_equals) = false.
Proof.
  intros Hb E. apply plain_not_equals.
  rewrite forallb_forall in Hb. apply Hb.
  apply in_rev. fold (rev body). rewrite E. left. reflexivity.
Qed.

Lemma strip_padding_plain (body : jsstr) :
  forallb plain_char body = true -> Base64.strip_padding body = body.
Proof.
  intros Hb. unfold Base64.strip_padding.
  destruct (length body mod 4 =? 0)%nat; [|reflexivity].
  destruct (rev body) as [|c1 [|c2 r]] eqn:E; [reflexivity| |];
    rewrite (rev_head_plain body c1 _ Hb E); reflexivity.
Qed.

Lemma strip_padding_one (body : jsstr) :
  forallb plain_char body = true -> body <> [] ->
  (length (body ++ [ch_equals]) mod 4 = 0)%nat ->
  Base64.strip_padding (body ++ [ch_equals]) = body.
Proof.
  intros Hb Hne Hlen. unfold Base64.strip_padding.
  rewrite Hlen. cbn [Nat.eqb]. rewrite rev_app_distr. cbn [rev app].
  destruct (rev body) as [|c2 r] eqn:E.
  - apply (f_equal (@rev Z)) in E. rewrite rev_involutive in E. contradiction.
  - rewrite Z.eqb_refl. rewrite (rev_head_plain body c2 r Hb E).
    apply (f_equal (@rev Z)) in E. rewrite rev_involutive in E.
    rewrite E. reflexivity.
Qed.

Lemma strip_padding_two (body : jsstr) :
  (length (body ++ [ch_equals; ch_equals]) mod 4 = 0)%nat ->
  Base64.strip_padding (body ++ [ch_equals; ch_equals]) = body.
Proof.
  intros Hlen. unfold Base64.strip_padding.
  rewrite Hlen. cbn [Nat.eqb]. rewrite rev_app_distr. cbn [rev app].
  rewrite Z.eqb_refl. apply rev_involutive.
Qed.

(** The text [btoa] writes: the characters of the digits, padded to a
    multiple of four. *)
Lemma encode_cases (b : buffer) :
  let body := map Base64.char_of_digit (Base64.digits_of_bytes b) in
  (Base64.encode b = body /\ (length body mod 4 = 0)%nat) \/
  (Base64.encode b = body ++ [ch_equals; ch_equals] /\ (length body mod 4 = 2)%nat) \/
  (Base64.encode b = body ++ [ch_equals] /\ (length body mod 4 = 3)%nat).
Proof.
  intros body. unfold Base64.encode, Base64.padding. fold body.
  assert (Hlen : length body
           = (4 * (length b / 3)
              + match length b mod 3 with 0 => 0 | m => m + 1 end)%nat).
  { unfold body. rewrite length_map. apply length_digits_of_bytes. }
  pose proof (Nat.mod_upper_bound (length b) 3 ltac:(lia)) as Hm.
  rewrite Hlen.
  destruct (length b mod 3)%nat as [|[|[|m]]] eqn:E; [| | |lia].
  - left. rewrite app_nil_r. split; [reflexivity|].
    rewrite Nat.add_0_r, Nat.mul_comm. apply Nat.Div0.mod_mul.
  - right. left. split; [reflexivity|].
    rewrite Nat.add_comm, Nat.mul_comm, Nat.Div0.mod_add. reflexivity.
  - right. right. split; [reflexivity|].
    rewrite Nat.add_comm, Nat.mul_comm, Nat.Div0.mod_add. reflexivity.
Qed.

Lemma body_plain (b : buffer) :
  forallb plain_char (map Base64.char_of_digit (Base64.digits_of_bytes b)) = true.
Proof. apply chars_plain, digits_of_bytes_digit. Qed.

Lemma strip_padding_encode (b : buffer) :
  Base64.strip_padding (Base64.encode b)
  = map Base64.char_of_digit (Base64.digits_of_bytes b).
Proof.
  pose proof (body_plain b) as Hp.
  destruct (encode_cases b) as [[-> Hl] | [[-> Hl] | [-> Hl]]].
  - apply strip_padding_plain, Hp.
  - apply strip_padding_two. rewrite length_app. cbn [length].
    rewrite Nat.Div0.add_mod, Hl. reflexivity.
  - apply strip_padding_one; [exact Hp | | ].
    + intros E. rewrite E in Hl. discriminate.
    + rewrite length_app. cbn [length]. rewrite Nat.Div0.add_mod, Hl. reflexivity.
Qed.

Lemma plain_not_whitespace (s : jsstr) :
  forallb plain_char s = true ->
  forallb (fun c => negb (Base64.is_ascii_whitespace c)) s = true.
Proof.
  apply forallb_impl. intros c H. unfold plain_char in H.
  apply andb_true_iff in H as [H _]. apply andb_true_iff in H as [_ H]. exact H.
Qed.

(** Decoding the digits of a buffer, padded or not. *)
Lemma atob_body (b : buffer) (s : jsstr) :
  forallb (fun c => negb (Base64.is_ascii_whitespace c)) s = true ->
  Base64.strip_padding s = map Base64.char_of_digit (Base64.digits_of_bytes b) ->
  Base64.atob s = Ok (BufferTools.toAscii b).
Proof.
  intros Hws Hs. unfold Base64.atob.
  rewrite filter_all by exact Hws. rewrite Hs.
  rewrite length_map, length_digits_of_bytes.
  assert (((4 * (length b / 3)
            + match length b mod 3 with 0 => 0 | m => m + 1 end) mod 4 =? 1)
          = false)%nat as ->.
  { apply Nat.eqb_neq.
    pose proof (Nat.mod_upper_bound (length b) 3 ltac:(lia)) as Hm.
    rewrite Nat.add_comm, Nat.mul_comm, Nat.Div0.mod_add.
    destruct (length b mod 3)%nat as [|[|[|m]]]; cbn; lia. }
  rewrite digits_of_chars_of_digits by apply digits_of_bytes_digit.
  rewrite bytes_of_digits_of_bytes. reflexivity.
Qed.

Lemma encode_not_whitespace (b : buffer) :
  forallb (fun c => negb (Base64.is_ascii_whitespace c)) (Base64.encode b) = true.
Proof.
  pose proof (plain_not_whitespace _ (body_plain b)) as Hp.
  destruct (encode_cases b) as [[-> _] | [[-> _] | [-> _]]];
    rewrite ?forallb_app, ?Hp; reflexivity.
Qed.

(** [atob( btoa( s ) )] is [s] again. *)
Lemma atob_encode (b : buffer) :
  Base64.atob (Base64.encode b) = Ok (BufferTools.toAscii b).
Proof.
  apply atob_body; [apply encode_not_whitespace | apply strip_padding_encode].
Qed.

(** The padding may be left out. *)
Lemma atob_unpadded (b : buffer) :
  Base64.atob (map Base64.char_of_digit (Base64.digits_of_bytes b))
  = Ok (BufferTools.toAscii b).
Proof.
  apply atob_body.
  - apply plain_not_whitespace, body_plain.
  - apply strip_padding_plain, body_plain.
Qed.

Lemma btoa_toAscii (b : buffer) :
  Base64.btoa (BufferTools.toAscii b) = Ok (Base64.encode b).
Proof.
  unfold Base64.btoa.
  assert (forallb (fun c => (0 <=? c) && (c <=? 255)) (BufferTools.toAscii b) = true) as ->.
  { apply forallb_forall. intros c Hc.
    pose proof (toAscii_binary b) as Hb. unfold binary in Hb.
    rewrite Forall_forall in Hb. apply list_elem_of_In, Hb in Hc.
    apply andb_true_iff. split; [apply Z.leb_le | apply Z.leb_le]; lia. }
  fold (BufferTools.fromAscii (BufferTools.toAscii b)).
  rewrite fromAscii_toAscii. reflexivity.
Qed.

Lemma digits_nonempty (b : buffer) : b <> [] -> Base64.digits_of_bytes b <> [].
Proof.
  destruct b as [|x [|y [|z l]]]; [congruence | | |]; intros _;
    cbn [Base64.digits_of_bytes app]; discriminate.
Qed.

(** [/^([^=]+)=*$/] takes the padding off a base64 text. *)
Lemma match_unpadded_encode (b : buffer) :
  b <> [] ->
  match_unpadded (Base64.encode b)
  = Some (map Base64.char_of_digit (Base64.digits_of_bytes b)).
Proof.
  intros Hne. unfold match_unpadded, span_while.
  set (body := map Base64.char_of_digit (Base64.digits_of_bytes b)).
  assert (Hb : forallb (fun c => negb (c =? ch_equals)) body = true).
  { eapply forallb_impl; [|apply (body_plain b)].
    intros c H. rewrite (plain_not_equals c H). reflexivity. }
  assert (Hnil : body <> []).
  { unfold body. intros E. apply map_eq_nil in E. revert E. apply digits_nonempty, Hne. }
  assert (Hcase : exists pad, Base64.encode b = body ++ pad /\
                    forallb (fun c => c =? ch_equals) pad = true).
  { destruct (encode_cases b) as [[E _] | [[E _] | [E _]]]; fold body in E; rewrite E.
    - exists []. rewrite app_nil_r. split; reflexivity.
    - eexists. split; reflexivity.
    - eexists. split; reflexivity. }
  destruct Hcase as [pad [-> Hpad]].
  rewrite take_while_app, drop_while_app; try exact Hb.
  - destruct body; [congruence|]. rewrite Hpad. reflexivity.
  - eapply forallb_impl; [|exact Hpad]. intros c ->. reflexivity.
  - eapply forallb_impl; [|exact Hpad]. intros c ->. reflexivity.
Qed.

(** ** The matchers on composed strings *)

Lemma take_while_stop {A} (p : A -> bool) (l1 : list A) (x : A) (l2 : list A) :
  forallb p l1 = true -> p x = false -> take_while p (l1 ++ x :: l2) = l1.
Proof.
  intros H1 Hx. induction l1 as [|y l1 IH]; simpl in *.
  - rewrite Hx. reflexivity.
  - apply andb_true_iff in H1 as [Hy H1]. rewrite Hy, IH by exact H1. reflexivity.
Qed.

Lemma drop_while_stop {A} (p : A -> bool) (l1 : list A) (x : A) (l2 : list A) :
  forallb p l1 = true -> p x = false -> drop_while p (l1 ++ x :: l2) = x :: l2.
Proof.
  intros H1 Hx. induction l1 as [|y l1 IH]; simpl in *.
  - rewrite Hx. reflexivity.
  - apply andb_true_iff in H1 as [Hy H1]. rewrite Hy. apply IH. exact H1.
Qed.

Lemma take_while_all {A} (p : A -> bool) (l : list A) :
  forallb p l = true -> take_while p l = l.
Proof.
  intros H. rewrite <- (app_nil_r l) at 1. apply take_while_app; [exact H | reflexivity].
Qed.

Lemma drop_while_all {A} (p : A -> bool) (l : list A) :
  forallb p l = true -> drop_while p l = [].
Proof.
  intros H. rewrite <- (app_nil_r l) at 1. apply drop_while_app; [exact H | reflexivity].
Qed.

Lemma strip_prefix_app (p s : jsstr) : strip_prefix p (p ++ s) = Some s.
Proof.
  unfold strip_prefix. rewrite take_app_length, drop_app_length.
  rewrite bool_decide_eq_true_2 by reflexivity. reflexivity.
Qed.

Lemma dollar_field_stop (f rest : jsstr) :
  f <> [] -> forallb (fun c => negb (c =? ch_dollar)) f = true ->
  dollar_field (f ++ ch_dollar :: rest) = Some (f, ch_dollar :: rest).
Proof.
  intros Hne Hf. unfold dollar_field, span_while.
  rewrite take_while_stop, drop_while_stop by (exact Hf || reflexivity).
  destruct f; [congruence | reflexivity].
Qed.

Lemma dollar_field_end (f : jsstr) :
  f <> [] -> forallb (fun c => negb (c =? ch_dollar)) f = true ->
  dollar_field f = Some (f, []).
Proof.
  intros Hne Hf. unfold dollar_field, span_while.
  rewrite take_while_all, drop_while_all by exact Hf.
  destruct f; [congruence | reflexivity].
Qed.

(** A hash string of three well-formed components is taken apart into them. *)
Lemma match_hash_build (enc salt hash : jsstr) :
  enc <> [] -> salt <> [] -> hash <> [] ->
  forallb (fun c => negb (c =? ch_dollar)) enc = true ->
  forallb (fun c => negb (c =? ch_dollar)) salt = true ->
  forallb (fun c => negb (c =? ch_dollar)) hash = true ->
  match_hash (js "$ceph1$" ++ enc ++ js "$" ++ salt ++ js "$" ++ hash)
  = Some (enc, salt, hash).
Proof.
  intros He Hs Hh Fe Fs Fh. unfold match_hash.
  rewrite strip_prefix_app.
  change (js "$") with [ch_dollar]. cbn [app].
  rewrite dollar_field_stop by assumption.
  rewrite dollar_field_stop by assumption.
  rewrite dollar_field_end by assumption.
  reflexivity.
Qed.

Lemma hex_digit_no_dollar (d : Z) :
  0 <= d < 16 -> negb (BufferTools.hex_digit d =? ch_dollar) = true.
Proof.
  intros Hd. unfold BufferTools.hex_digit, ch_dollar.
  apply negb_true_iff, Z.eqb_neq. destruct (d <? 10) eqn:E; lia.
Qed.

Lemma toHex_no_dollar (b : buffer) :
  forallb (fun c => negb (c =? ch_dollar)) (BufferTools.toHex b) = true.
Proof.
  induction b as [|x b IH]; [reflexivity|].
  pose proof (Z_of_byte_range x) as Hx.
  cbn [BufferTools.toHex forallb]. rewrite IH, !hex_digit_no_dollar; [reflexivity| |].
  - apply Z.mod_pos_bound. lia.
  - split; [apply Z.div_pos; lia | apply Z.div_lt_upper_bound; lia].
Qed.

Lemma toHex_nonempty (b : buffer) : b <> [] -> BufferTools.toHex b <> [].
Proof. destruct b; [congruence | discriminate]. Qed.

Lemma plain_no_dollar (s : jsstr) :
  forallb plain_char s = true ->
  forallb (fun c => negb (c =? ch_dollar)) s = true.
Proof.
  apply forallb_impl. intros c H. unfold plain_char in H.
  apply andb_true_iff in H as [_ H]. exact H.
Qed.

Lemma encode_no_dollar (b : buffer) :
  forallb (fun c => negb (c =? ch_dollar)) (Base64.encode b) = true.
Proof.
  pose proof (plain_no_dollar _ (body_plain b)) as Hp.
  destruct (encode_cases b) as [[-> _] | [[-> _] | [-> _]]];
    rewrite ?forallb_app, ?Hp; reflexivity.
Qed.

Lemma length_getRandomValues (n : nat) (r : rng) : length (getRandomValues n r) = n.
Proof. unfold getRandomValues. rewrite length_map, length_seq. reflexivity. Qed.

Lemma nonempty_length {A} (l : list A) (n : nat) : length l = S n -> l <> [].
Proof. destruct l; [discriminate | congruence]. Qed.

(** ** The small provider keeps the contract *)

Lemma sample_importKey_raw_inv (raw : buffer) (a : SymAlgo) (k : Sample.Key) :
  Sample.sample_importKey_raw raw a = Ok k -> k = Sample.SecretKey a raw.
Proof.
  unfold Sample.sample_importKey_raw.
  destruct (_ || _); [|discriminate]. congruence.
Qed.

Lemma sample_aes_opens (a : SymAlgo) (raw iv m : buffer) :
  Sample.sample_decrypt_aes a iv (Sample.SecretKey a raw) (raw ++ iv ++ m) = Ok m.
Proof.
  unfold Sample.sample_decrypt_aes.
  rewrite bool_decide_eq_true_2 by reflexivity.
  rewrite (app_assoc raw iv m), take_app_length, drop_app_length.
  rewrite bool_decide_eq_true_2 by reflexivity. reflexivity.
Qed.

Lemma sample_encrypt_aes_inv (a a' : SymAlgo) (raw iv m c : buffer) :
  Sample.sample_encrypt_aes a iv (Sample.SecretKey a' raw) m = Ok c ->
  a' = a /\ c = raw ++ iv ++ m.
Proof.
  unfold Sample.sample_encrypt_aes.
  destruct (bool_decide_reflect (a' = a)); [|discriminate].
  destruct (negb _); [|discriminate]. intros [= <-]. auto.
Qed.

Ltac sample_fields :=
  cbn [CryptoKey digest importKey_raw generateKey_aes exportKey_raw encrypt_aes
       decrypt_aes generateKey_rsa exportKey_jwk importKey_jwk encrypt_rsa
       decrypt_rsa modulus key_pair Sample.provider] in *.

Lemma sample_lawful : Lawful Sample.provider.
Proof.
  constructor; sample_fields.
  - intros m. unfold Sample.sample_digest. rewrite length_map, length_seq. reflexivity.
  - intros a raw k iv m c Hk. apply sample_importKey_raw_inv in Hk as ->.
    intros Hc. apply sample_encrypt_aes_inv in Hc as [_ ->]. apply sample_aes_opens.
  - intros a r k raw iv m c. unfold Sample.sample_generateKey_aes.
    generalize (length_getRandomValues 32 r).
    generalize (getRandomValues 32 r). intros rk Hlen [= <-] [= <-].
    intros Hc. apply sample_encrypt_aes_inv in Hc as [_ ->]. eexists. split.
    + unfold Sample.sample_importKey_raw. rewrite Hlen. reflexivity.
    + apply sample_aes_opens.
  - intros a iv k m c. destruct k as [a' raw| |]; try discriminate.
    unfold Sample.sample_encrypt_aes.
    destruct (bool_decide (a' = a)); [|discriminate].
    destruct raw as [|x raw]; [discriminate|]. cbn [andb negb bool_decide].
    rewrite bool_decide_eq_false_2 by discriminate. intros [= <-].
    cbn [app length]. rewrite !length_app. lia.
  - intros pub priv m r c [n [-> ->]]. cbn [Sample.sample_encrypt_rsa]. intros [= <-].
    unfold Sample.sample_decrypt_rsa.
    replace (length n) with (length (BufferTools.fromAscii n))
      by (unfold BufferTools.fromAscii; apply length_map).
    rewrite take_app_length, drop_app_length.
    rewrite bool_decide_eq_true_2 by reflexivity. reflexivity.
  - intros e r pub priv [= <- <-]. split; [|reflexivity]. eexists. split; reflexivity.
  - intros [a raw | n | n] jwk; cbn [Sample.sample_exportKey_jwk];
      [discriminate | |]; intros [= <-]; reflexivity.
  - intros jwk e u k. unfold Sample.sample_importKey_jwk.
    destruct (get_member (js "n") jwk) as [[| | | | [|c n] | |]|]; try discriminate.
    destruct u; intros [= <-]; eexists; split; reflexivity.
Qed.

(** ** Password hashing *)

Section Hashing.
Context (W : WebCrypto) (HW : Lawful W).

Lemma digest_nonempty (m : buffer) : digest W m <> [].
Proof. apply (nonempty_length _ 31). apply (digest_length W HW). Qed.

Lemma encoding_of_name (enc : Passwords.Encoding) :
  Passwords.encoding_of (VStr (Passwords.encoding_name enc)) = Some enc.
Proof. destruct enc; reflexivity. Qed.

(** The last step of [hashPassword]: the text of the digest. *)
Lemma hash_text_computed (enc : Passwords.Encoding) (hashBuffer : buffer) :
  hashBuffer <> [] ->
  match enc with
  | Passwords.base64 =>
    b ← Base64.btoa (BufferTools.toAscii hashBuffer); Passwords.unpadded b
  | Passwords.hex => Ok (BufferTools.toHex hashBuffer)
  end = Ok (hash_text enc hashBuffer).
Proof.
  intros Hne. destruct enc; [|reflexivity].
  rewrite btoa_toAscii. cbn [mbind result_bind]. unfold Passwords.unpadded.
  rewrite match_unpadded_encode by exact Hne. reflexivity.
Qed.

(** [hashPassword] once the salt is known. *)
Lemma hashPassword_with_salt (c : Z) (p : jsstr) (salt : value)
  (enc : Passwords.Encoding) (r : rng) (saltString saltEncoded : jsstr) :
  salt = VNull \/ (exists d s, salt = VStr (d :: s)) ->
  Passwords.salt_of salt enc r = Ok (saltString, saltEncoded) ->
  Passwords.hashPassword W (VStr (c :: p)) salt (VStr (Passwords.encoding_name enc)) r
  = Resolved (hash_string enc saltEncoded
                (hash_text enc (digest W (BufferTools.fromAscii ((c :: p) ++ saltString))))).
Proof.
  intros Hsalt Hs. unfold Passwords.hashPassword.
  assert (default_arg salt VNull = salt) as ->
    by (destruct Hsalt as [-> | [d [s ->]]]; reflexivity).
  assert (default_arg (VStr (Passwords.encoding_name enc)) (VStr (js "base64"))
          = VStr (Passwords.encoding_name enc)) as -> by reflexivity.
  rewrite encoding_of_name.
  assert (negb (is_nullish salt) && not_filled_string salt = false) as ->
    by (destruct Hsalt as [-> | [d [s ->]]]; reflexivity).
  rewrite Hs.
  rewrite hash_text_computed by apply digest_nonempty.
  reflexivity.
Qed.

(** The salt of a call without salt: 16 random bytes, their base64 text
    with its padding or their hexadecimal text. *)
Lemma salt_of_fresh (enc : Passwords.Encoding) (r : rng) :
  Passwords.salt_of VNull enc r
  = Ok (BufferTools.toAscii (getRandomValues 16 r),
        match enc with
        | Passwords.base64 => Base64.encode (getRandomValues 16 r)
        | Passwords.hex => BufferTools.toHex (getRandomValues 16 r)
        end).
Proof.
  unfold Passwords.salt_of. destruct enc; [|reflexivity].
  rewrite btoa_toAscii. reflexivity.
Qed.

(** The salt of a call with a base64 salt: the padding is taken off. *)
Lemma salt_of_base64 (b : buffer) (r : rng) :
  b <> [] ->
  Passwords.salt_of (VStr (Base64.encode b)) Passwords.base64 r
  = Ok (BufferTools.toAscii b, base64_unpadded b).
Proof.
  intros Hne. unfold Passwords.salt_of, Passwords.unpadded.
  rewrite atob_encode. cbn [mbind result_bind].
  rewrite match_unpadded_encode by exact Hne. reflexivity.
Qed.

Lemma match_unpadded_plain (s : jsstr) :
  s <> [] -> forallb plain_char s = true -> match_unpadded s = Some s.
Proof.
  intros Hne Hp. unfold match_unpadded, span_while.
  assert (H : forallb (fun c => negb (c =? ch_equals)) s = true).
  { eapply forallb_impl; [|exact Hp]. intros c Hc.
    rewrite (plain_not_equals c Hc). reflexivity. }
  rewrite take_while_all, drop_while_all by exact H.
  destruct s; [congruence | reflexivity].
Qed.

Lemma base64_unpadded_nonempty (b : buffer) : b <> [] -> base64_unpadded b <> [].
Proof.
  intros Hne E. apply map_eq_nil in E. revert E. apply digits_nonempty, Hne.
Qed.

Lemma atob_base64_unpadded (b : buffer) :
  Base64.atob (base64_unpadded b) = Ok (BufferTools.toAscii b).
Proof. apply atob_unpadded. Qed.

Lemma salt_of_base64_unpadded (b : buffer) (r : rng) :
  b <> [] ->
  Passwords.salt_of (VStr (base64_unpadded b)) Passwords.base64 r
  = Ok (BufferTools.toAscii b, base64_unpadded b).
Proof.
  intros Hne. unfold Passwords.salt_of, Passwords.unpadded.
  rewrite atob_base64_unpadded. cbn [mbind result_bind].
  rewrite match_unpadded_plain; [reflexivity | | apply body_plain].
  apply base64_unpadded_nonempty, Hne.
Qed.

Lemma salt_of_hex (b : buffer) (r : rng) :
  Passwords.salt_of (VStr (BufferTools.toHex b)) Passwords.hex r
  = Ok (BufferTools.toAscii b, BufferTools.toHex b).
Proof.
  unfold Passwords.salt_of. rewrite fromHex_toHex. reflexivity.
Qed.

(** [checkPassword] on a hash string whose components decode. *)
Lemma checkPassword_components (c : Z) (p : jsstr) (enc : Passwords.Encoding)
  (salt hash saltString hashString : jsstr) :
  salt <> [] -> hash <> [] ->
  forallb (fun c => negb (c =? ch_dollar)) salt = true ->
  forallb (fun c => negb (c =? ch_dollar)) hash = true ->
  Passwords.decode enc salt = Ok saltString ->
  Passwords.decode enc hash = Ok hashString ->
  Passwords.checkPassword W (VStr (c :: p)) (VStr (hash_string enc salt hash))
  = Resolved (bool_decide
                (hashString
                 = BufferTools.toAscii
                     (digest W (BufferTools.fromAscii ((c :: p) ++ saltString))))).
Proof.
  intros Hs Hh Fs Fh Ds Dh. unfold Passwords.checkPassword.
  assert (Hm : match_hash (hash_string enc salt hash)
               = Some (Passwords.encoding_name enc, salt, hash)).
  { apply match_hash_build; try assumption; destruct enc; (discriminate || reflexivity). }
  destruct (hash_string enc salt hash) as [|h0 hs] eqn:E; [discriminate|].
  rewrite Hm, encoding_of_name, Ds, Dh. reflexivity.
Qed.

Lemma decode_hash_text (enc : Passwords.Encoding) (b : buffer) :
  Passwords.decode enc (hash_text enc b) = Ok (BufferTools.toAscii b).
Proof.
  destruct enc; cbn [Passwords.decode hash_text].
  - apply atob_base64_unpadded.
  - rewrite fromHex_toHex. reflexivity.
Qed.

Lemma hash_text_wellformed (enc : Passwords.Encoding) (b : buffer) :
  b <> [] ->
  hash_text enc b <> [] /\
  forallb (fun c => negb (c =? ch_dollar)) (hash_text enc b) = true.
Proof.
  intros Hne. destruct enc; cbn [hash_text]; split.
  - apply base64_unpadded_nonempty, Hne.
  - apply plain_no_dollar, body_plain.
  - apply toHex_nonempty, Hne.
  - apply toHex_no_dollar.
Qed.

End Hashing.

Lemma encode_16 (b : buffer) :
  length b = 16%nat -> Base64.encode b = base64_unpadded b ++ js "==".
Proof.
  intros H. unfold Base64.encode. rewrite H. reflexivity.
Qed.

Lemma salt_nonempty (r : rng) : getRandomValues 16 r <> [].
Proof. apply (nonempty_length _ 15), length_getRandomValues. Qed.

(** The first half of C6: a hash string made without a salt is accepted
    by [checkPassword] for the same password, in both encodings. *)
Lemma checkPassword_hashPassword (W : WebCrypto) (HW : Lawful W)
  (c : Z) (p : jsstr) (enc : Passwords.Encoding) (r : rng) :
  exists h,
    Passwords.hashPassword W (VStr (c :: p)) VNull
                           (VStr (Passwords.encoding_name enc)) r = Resolved h
    /\ Passwords.checkPassword W (VStr (c :: p)) (VStr h) = Resolved true.
Proof.
  eexists. split.
  - apply (hashPassword_with_salt W HW); [left; reflexivity | apply salt_of_fresh].
  - pose proof (salt_nonempty r) as Hs.
    pose proof (hash_text_wellformed enc _ (digest_nonempty W HW
                  (BufferTools.fromAscii
                     ((c :: p) ++ BufferTools.toAscii (getRandomValues 16 r)))))
      as [Hh Fh].
    erewrite (checkPassword_components W); try eassumption.
    + rewrite bool_decide_eq_true_2 by reflexivity. reflexivity.
    + destruct enc; [|apply toHex_nonempty, Hs].
      rewrite encode_16 by apply length_getRandomValues.
      intros E. apply app_eq_nil in E as [_ E]. discriminate.
    + destruct enc; [apply encode_no_dollar | apply toHex_no_dollar].
    + destruct enc; cbn [Passwords.decode].
      * apply atob_encode.
      * rewrite fromHex_toHex. reflexivity.
    + apply decode_hash_text.
Qed.

(** With a salt in hexadecimal, hashing again with the salt of the hash
    string gives the hash string again. *)
Lemma hashPassword_again_hex (W : WebCrypto) (HW : Lawful W)
  (c : Z) (p : jsstr) (r r' : rng) :
  exists salt hash,
    Passwords.hashPassword W (VStr (c :: p)) VNull (VStr (js "hex")) r
    = Resolved (hash_string Passwords.hex salt hash)
    /\ match_hash (hash_string Passwords.hex salt hash) = Some (js "hex", salt, hash)
    /\ Passwords.hashPassword W (VStr (c :: p)) (VStr salt) (VStr (js "hex")) r'
       = Resolved (hash_string Passwords.hex salt hash).
Proof.
  pose proof (salt_nonempty r) as Hs.
  exists (BufferTools.toHex (getRandomValues 16 r)). eexists. split; [|split].
  - apply (hashPassword_with_salt W HW _ _ _ Passwords.hex);
      [left; reflexivity | apply salt_of_fresh].
  - pose proof (hash_text_wellformed Passwords.hex _ (digest_nonempty W HW
                  (BufferTools.fromAscii
                     ((c :: p) ++ BufferTools.toAscii (getRandomValues 16 r)))))
      as [Hh Fh].
    apply (match_hash_build (js "hex")); try assumption;
      try (discriminate || reflexivity).
    apply toHex_no_dollar.
  - destruct (BufferTools.toHex (getRandomValues 16 r)) as [|d s] eqn:E;
      [apply toHex_nonempty in E; [contradiction | exact Hs]|].
    rewrite <- E.
    apply (hashPassword_with_salt W HW _ _ _ Passwords.hex).
    + right. rewrite E. eauto.
    + apply salt_of_hex.
Qed.

(** C6: for every password, a hash string made in base64 without a salt
    carries the salt with its padding, and hashing the password again
    with that salt gives the same digest but the salt without padding;
    the second hash string is not the first one.  (The code, at the
    input of the divergence.) *)
Theorem hashPassword_again_drops_padding (W : WebCrypto) (HW : Lawful W)
  (c : Z) (p : jsstr) (r r' : rng) :
  exists salt hash,
    Passwords.hashPassword W (VStr (c :: p)) VNull (VStr (js "base64")) r
    = Resolved (hash_string Passwords.base64 (salt ++ js "==") hash)
    /\ Passwords.queryPasswordSalt
         (VStr (hash_string Passwords.base64 (salt ++ js "==") hash))
       = Ok (Some (salt ++ js "=="))
    /\ Passwords.hashPassword W (VStr (c :: p)) (VStr (salt ++ js "=="))
                              (VStr (js "base64")) r'
       = Resolved (hash_string Passwords.base64 salt hash)
    /\ hash_string Passwords.base64 salt hash
       <> hash_string Passwords.base64 (salt ++ js "==") hash.
Proof.
  pose proof (salt_nonempty r) as Hs.
  pose proof (length_getRandomValues 16 r) as Hl.
  set (sb := getRandomValues 16 r) in *.
  set (hb := digest W (BufferTools.fromAscii ((c :: p) ++ BufferTools.toAscii sb))).
  pose proof (hash_text_wellformed Passwords.base64 hb (digest_nonempty W HW _))
    as [Hh Fh].
  exists (base64_unpadded sb), (hash_text Passwords.base64 hb).
  split; [|split; [|split]].
  - rewrite <- encode_16 by exact Hl.
    apply (hashPassword_with_salt W HW _ _ _ Passwords.base64);
      [left; reflexivity | apply salt_of_fresh].
  - unfold Passwords.queryPasswordSalt.
    assert (Hm : match_hash (hash_string Passwords.base64
                               (base64_unpadded sb ++ js "==")
                               (hash_text Passwords.base64 hb))
                 = Some (js "base64", base64_unpadded sb ++ js "==",
                         hash_text Passwords.base64 hb)).
    { apply (match_hash_build (js "base64")); try assumption;
        try (discriminate || reflexivity).
      rewrite <- encode_16 by exact Hl. apply encode_no_dollar. }
    destruct (hash_string _ _ _) as [|h0 hs] eqn:E; [discriminate|].
    rewrite Hm. reflexivity.
  - assert (E : base64_unpadded sb ++ js "==" = Base64.encode sb)
      by (symmetry; apply encode_16, Hl).
    destruct (base64_unpadded sb ++ js "==") as [|d s] eqn:E';
      [apply app_eq_nil in E' as [_ E']; discriminate|].
    apply (hashPassword_with_salt W HW _ _ _ Passwords.base64).
    + right. eauto.
    + rewrite E. apply salt_of_base64. exact Hs.
  - unfold hash_string. intros E.
    repeat apply app_inv_head in E.
    rewrite <- app_assoc in E. apply app_inv_head in E. discriminate.
Qed.

(** A run of the development: the password [pw] and the provider above. *)
Lemma hashPassword_again_drops_padding_witness :
  exists salt hash,
    Passwords.hashPassword Sample.provider (VStr (js "pw")) VNull
                           (VStr (js "base64")) Sample.zeros
    = Resolved (hash_string Passwords.base64 (salt ++ js "==") hash)
    /\ Passwords.queryPasswordSalt
         (VStr (hash_string Passwords.base64 (salt ++ js "==") hash))
       = Ok (Some (salt ++ js "=="))
    /\ Passwords.hashPassword Sample.provider (VStr (js "pw"))
                              (VStr (salt ++ js "==")) (VStr (js "base64"))
                              Sample.dice
       = Resolved (hash_string Passwords.base64 salt hash)
    /\ hash_string Passwords.base64 salt hash
       <> hash_string Passwords.base64 (salt ++ js "==") hash.
Proof.
  exact (hashPassword_again_drops_padding Sample.provider sample_lawful
           112 (js "w") Sample.zeros Sample.dice).
Defined.

(** ** The salt of a hash string *)

Lemma buffer_from_hex_toHex (b : buffer) :
  Node.buffer_from_hex (BufferTools.toHex b) = b.
Proof.
  induction b as [|x b IH]; [reflexivity|].
  pose proof (Z_of_byte_range x) as Hx.
  cbn [BufferTools.toHex Node.buffer_from_hex].
  rewrite !hex_value_digit, IH.
  - f_equal. rewrite <- (byte_of_Z_of_byte x) at 3. f_equal.
    pose proof (Z.div_mod (Z_of_byte x) 16 ltac:(lia)). lia.
  - apply Z.mod_pos_bound. lia.
  - split; [apply Z.div_pos; lia | apply Z.div_lt_upper_bound; lia].
Qed.

Lemma match_hash_string (enc : Passwords.Encoding) (salt hash : jsstr) :
  salt <> [] -> hash <> [] ->
  forallb (fun c => negb (c =? ch_dollar)) salt = true ->
  forallb (fun c => negb (c =? ch_dollar)) hash = true ->
  match_hash (hash_string enc salt hash)
  = Some (Passwords.encoding_name enc, salt, hash).
Proof.
  intros. apply match_hash_build; try assumption;
    destruct enc; (discriminate || reflexivity).
Qed.

(** What the server side answers for a salt in hexadecimal: the base64
    text of the salt. *)
Lemma node_queryPasswordSalt_hex (salt : buffer) (hash : jsstr) :
  salt <> [] -> hash <> [] ->
  forallb (fun c => negb (c =? ch_dollar)) hash = true ->
  Node.queryPasswordSalt
    (VStr (hash_string Passwords.hex (BufferTools.toHex salt) hash))
  = Ok (Some (Base64.encode salt)).
Proof.
  intros Hs Hh Fh. unfold Node.queryPasswordSalt.
  pose proof (match_hash_string Passwords.hex (BufferTools.toHex salt) hash
                (toHex_nonempty salt Hs) Hh (toHex_no_dollar salt) Fh) as Hm.
  destruct (hash_string _ _ _) as [|h0 hs] eqn:E; [discriminate|].
  rewrite Hm. cbn [Passwords.encoding_name].
  rewrite bool_decide_eq_false_2 by discriminate.
  rewrite bool_decide_eq_true_2 by reflexivity.
  rewrite buffer_from_hex_toHex. reflexivity.
Qed.

(** What the client answers: the hexadecimal text of what the salt
    decodes to when it is read as base64; never a text with padding. *)
Lemma queryPasswordSalt_hex (salt hash : jsstr) :
  salt <> [] -> hash <> [] ->
  forallb (fun c => negb (c =? ch_dollar)) salt = true ->
  forallb (fun c => negb (c =? ch_dollar)) hash = true ->
  Passwords.queryPasswordSalt (VStr (hash_string Passwords.hex salt hash))
  = (text ← Base64.atob salt;
     Ok (Some (BufferTools.toHex (BufferTools.fromAscii text)))).
Proof.
  intros Hs Hh Fs Fh. unfold Passwords.queryPasswordSalt.
  pose proof (match_hash_string Passwords.hex salt hash Hs Hh Fs Fh) as Hm.
  destruct (hash_string _ _ _) as [|h0 hs] eqn:E; [discriminate|].
  rewrite Hm. cbn [Passwords.encoding_name].
  rewrite bool_decide_eq_false_2 by discriminate.
  rewrite bool_decide_eq_true_2 by reflexivity. reflexivity.
Qed.

Lemma queryPasswordSalt_base64 (salt hash : jsstr) :
  salt <> [] -> hash <> [] ->
  forallb (fun c => negb (c =? ch_dollar)) salt = true ->
  forallb (fun c => negb (c =? ch_dollar)) hash = true ->
  Passwords.queryPasswordSalt (VStr (hash_string Passwords.base64 salt hash))
  = Ok (Some salt).
Proof.
  intros Hs Hh Fs Fh. unfold Passwords.queryPasswordSalt.
  pose proof (match_hash_string Passwords.base64 salt hash Hs Hh Fs Fh) as Hm.
  destruct (hash_string _ _ _) as [|h0 hs] eqn:E; [discriminate|].
  rewrite Hm. cbn [Passwords.encoding_name].
  rewrite bool_decide_eq_true_2 by reflexivity. reflexivity.
Qed.

(** A string that is no hash string has no salt; the empty string is an
    invalid argument. *)
Lemma queryPasswordSalt_malformed (c : Z) (s : jsstr) :
  match_hash (c :: s) = None ->
  Passwords.queryPasswordSalt (VStr (c :: s)) = Ok None.
Proof. intros H. unfold Passwords.queryPasswordSalt. rewrite H. reflexivity. Qed.

Lemma queryPasswordSalt_empty :
  Passwords.queryPasswordSalt (VStr []) = Throw Passwords.InvalidArguments.
Proof. reflexivity. Qed.

(** C7: the hash string with the salt [00112233445566778899aabbccddeeff]
    in hexadecimal.  The salt re-encoded as base64 is
    [ABEiM0RVZneImaq7zN3u/w==], and this is what the helper of the server
    side returns; the helper of the client decodes the hexadecimal text
    as if it were base64 and returns the hexadecimal text of the 24 bytes
    it gets.  (The code, at the input of the divergence.) *)
Theorem queryPasswordSalt_hex_salt_not_base64 :
  let salt := js "00112233445566778899aabbccddeeff" in
  let h := VStr (hash_string Passwords.hex salt (js "ab")) in
  (b ← BufferTools.fromHex salt; Ok (Some (Base64.encode b)))
  = Ok (Some (js "ABEiM0RVZneImaq7zN3u/w=="))
  /\ Node.queryPasswordSalt h = Ok (Some (js "ABEiM0RVZneImaq7zN3u/w=="))
  /\ Passwords.queryPasswordSalt h
     = Ok (Some (js "d34d75db6df7e38e79ebaefbf3cf7d69a6db71c75d79e7df")).
Proof. vm_compute. repeat split. Qed.

(** ** JSON texts *)

Lemma value_ind' (P : value -> Prop) :
  P VUndefined -> P VNull -> (forall b, P (VBool b)) -> (forall n, P (VNum n)) ->
  (forall s, P (VStr s)) ->
  (forall items, Forall P items -> P (VArr items)) ->
  (forall members, Forall (fun kv => P (snd kv)) members -> P (VObj members)) ->
  forall v, P v.
Proof.
  intros Hu Hn Hb Hz Hs Ha Ho.
  fix IH 1. intros [ | | b | n | s | items | members].
  - exact Hu.
  - exact Hn.
  - apply Hb.
  - apply Hz.
  - apply Hs.
  - apply Ha. induction items as [|x items IHl]; constructor; [apply IH | exact IHl].
  - apply Ho. induction members as [|[k x] members IHl]; constructor;
      [apply IH | exact IHl].
Qed.

Lemma stringify_arr (items : list value) :
  JSON.stringify (VArr items)
  = Some (JSON.ch_lbracket :: JSON.join_comma (elements_text items) ++ [JSON.ch_rbracket]).
Proof.
  reflexivity.
Qed.

Lemma stringify_obj (members : list (jsstr * value)) :
  JSON.stringify (VObj members)
  = Some (ch_lbrace :: JSON.join_comma (properties_text members) ++ [ch_rbrace]).
Proof.
  cbn [JSON.stringify]. f_equal. f_equal. f_equal. f_equal.
  induction members as [|[k x] members IH]; [reflexivity|].
  cbn [properties_text flat_map fst snd].
  destruct (JSON.stringify x); cbn [app]; [f_equal|]; exact IH.
Qed.

Lemma json_hex_digit_range (d : Z) :
  0 <= d < 16 -> 48 <= JSON.hex_digit d <= 102.
Proof. intros H. unfold JSON.hex_digit. destruct (d <? 10) eqn:E; lia. Qed.

Lemma hex_digit_no_newline (x : Z) : no_newline (JSON.hex_digit (x mod 16)) = true.
Proof.
  pose proof (json_hex_digit_range (x mod 16) (Z.mod_pos_bound x 16 ltac:(lia))).
  unfold no_newline. apply andb_true_iff; split; apply negb_true_iff, Z.eqb_neq; lia.
Qed.

Lemma unicode_escape_no_newline (c : Z) :
  forallb no_newline (JSON.unicode_escape c) = true.
Proof.
  unfold JSON.unicode_escape. cbn [forallb].
  rewrite !hex_digit_no_newline. reflexivity.
Qed.

Lemma escape_no_newline (c : Z) : forallb no_newline (JSON.escape c) = true.
Proof.
  unfold JSON.escape.
  repeat match goal with
         | |- context [if ?c =? ?k then _ else _] =>
           destruct (Z.eqb_spec c k); [reflexivity|]
         end.
  destruct (c <? 32); [apply unicode_escape_no_newline|].
  cbn [forallb]. unfold no_newline.
  rewrite andb_true_r. apply andb_true_iff; split; apply negb_true_iff, Z.eqb_neq; lia.
Qed.

Lemma quote_chars_no_newline (s : jsstr) :
  forallb no_newline (JSON.quote_chars s) = true.
Proof.
  assert (H : forall n s, (length s <= n)%nat ->
                          forallb no_newline (JSON.quote_chars s) = true).
  { clear s. induction n as [|n IH]; intros [|c s] Hlen; try reflexivity;
      cbn [length] in Hlen; [lia|].
    cbn [JSON.quote_chars].
    destruct (JSON.is_high_surrogate c) eqn:Eh.
    - destruct s as [|d s]; [apply unicode_escape_no_newline|].
      destruct (JSON.is_low_surrogate d) eqn:El.
      + unfold JSON.is_high_surrogate in Eh. unfold JSON.is_low_surrogate in El.
        cbn [forallb]. rewrite IH by (cbn [length] in Hlen; lia).
        unfold no_newline.
        repeat (apply andb_true_iff; split); try reflexivity;
          apply negb_true_iff, Z.eqb_neq; lia.
      + rewrite forallb_app, unicode_escape_no_newline, IH by lia. reflexivity.
    - destruct (JSON.is_low_surrogate c).
      + rewrite forallb_app, unicode_escape_no_newline, IH by lia. reflexivity.
      + rewrite forallb_app, escape_no_newline, IH by lia. reflexivity. }
  apply (H (length s)). lia.
Qed.

Lemma quote_no_newline (s : jsstr) : forallb no_newline (JSON.quote s) = true.
Proof.
  unfold JSON.quote. cbn [forallb].
  rewrite forallb_app, quote_chars_no_newline. reflexivity.
Qed.

Lemma chars_of_uint_no_newline (u : Decimal.uint) :
  forallb no_newline (JSON.chars_of_uint u) = true.
Proof. induction u; cbn [JSON.chars_of_uint forallb]; rewrite ?IHu; reflexivity. Qed.

Lemma number_no_newline (n : Z) :
  forallb no_newline (JSON.number_to_string n) = true.
Proof.
  unfold JSON.number_to_string. destruct (Z.to_int n); cbn [forallb];
    rewrite chars_of_uint_no_newline; reflexivity.
Qed.

Lemma join_comma_no_newline (parts : list jsstr) :
  Forall (fun p => forallb no_newline p = true) parts ->
  forallb no_newline (JSON.join_comma parts) = true.
Proof.
  induction 1 as [|p parts Hp Hparts IH]; [reflexivity|].
  cbn [JSON.join_comma]. destruct parts as [|q parts]; [exact Hp|].
  rewrite forallb_app, Hp. cbn [forallb andb]. rewrite IH. reflexivity.
Qed.

(** A JSON text written by [JSON.stringify] has no line break. *)
Lemma stringify_no_newline (v : value) (t : jsstr) :
  JSON.stringify v = Some t -> forallb no_newline t = true.
Proof.
  revert t. induction v as [ | | b | n | s | items IH | members IH] using value_ind';
    intros t Ht.
  - discriminate.
  - injection Ht as <-. reflexivity.
  - destruct b; injection Ht as <-; reflexivity.
  - injection Ht as <-. apply number_no_newline.
  - injection Ht as <-. apply quote_no_newline.
  - rewrite stringify_arr in Ht. injection Ht as <-.
    cbn [forallb]. rewrite forallb_app, join_comma_no_newline; [reflexivity|].
    unfold elements_text. apply Forall_forall. intros p Hp.
    apply list_elem_of_fmap in Hp as [x [-> Hx]].
    rewrite Forall_forall in IH. specialize (IH x Hx).
    destruct (JSON.stringify x) as [tx|]; [apply IH; reflexivity | reflexivity].
  - rewrite stringify_obj in Ht. injection Ht as <-.
    cbn [forallb]. rewrite forallb_app, join_comma_no_newline; [reflexivity|].
    unfold properties_text. apply Forall_forall. intros p Hp.
    apply list_elem_of_In, in_flat_map in Hp as [[k x] [Hx Hp]].
    rewrite Forall_forall in IH. apply list_elem_of_In in Hx.
    specialize (IH _ Hx). cbn [fst snd] in *.
    destruct (JSON.stringify x) as [tx|]; [|destruct Hp].
    destruct Hp as [<- | []].
    rewrite forallb_app, quote_no_newline. cbn [forallb].
    rewrite (IH tx eq_refl). reflexivity.
Qed.

Lemma json_hex_value_digit (d : Z) :
  0 <= d < 16 -> JSON.hex_value (JSON.hex_digit d) = Some d.
Proof. exact (hex_value_digit d). Qed.

(** A control character below 32 that has no short escape is read back
    from its escape [\u00XX]. *)
Lemma parse_unicode_escape (c : Z) (rest : jsstr) (s k : jsstr) :
  0 <= c < 256 ->
  JSON.parse_string_body rest = Some (s, k) ->
  JSON.parse_string_body (JSON.unicode_escape c ++ rest) = Some (c :: s, k).
Proof.
  intros Hc Hrest. unfold JSON.unicode_escape.
  cbn [app JSON.parse_string_body].
  change (JSON.ch_backslash =? JSON.ch_quote) with false.
  change (JSON.ch_backslash <? 32) with false.
  change (JSON.ch_backslash =? JSON.ch_backslash) with true.
  change (117 =? 117) with true. cbv iota.
  rewrite !json_hex_value_digit by (apply Z.mod_pos_bound; lia).
  rewrite Hrest. do 2 f_equal. f_equal.
  Z.div_mod_to_equations. lia.
Qed.

(** A string literal is read back: the text of a binary string, then the
    closing quote. *)
Lemma parse_string_body_quote (s rest : jsstr) :
  binary s ->
  JSON.parse_string_body (JSON.quote_chars s ++ JSON.ch_quote :: rest)
  = Some (s, rest).
Proof.
  induction 1 as [|c s Hc Hs IH].
  - cbn [JSON.quote_chars app JSON.parse_string_body].
    rewrite Z.eqb_refl. reflexivity.
  - cbn [JSON.quote_chars].
    assert (JSON.is_high_surrogate c = false) as ->
      by (unfold JSON.is_high_surrogate; apply andb_false_iff; left; apply Z.leb_gt; lia).
    assert (JSON.is_low_surrogate c = false) as ->
      by (unfold JSON.is_low_surrogate; apply andb_false_iff; left; apply Z.leb_gt; lia).
    rewrite <- app_assoc. unfold JSON.escape.
    repeat match goal with
           | |- context [if c =? ?k then _ else _] =>
             destruct (Z.eqb_spec c k);
               [subst c; cbn [app JSON.parse_string_body]; cbn; rewrite IH; reflexivity|]
           end.
    destruct (Z.ltb_spec c 32).
    + apply parse_unicode_escape; [lia | exact IH].
    + cbn [app JSON.parse_string_body].
      rewrite (proj2 (Z.eqb_neq c JSON.ch_quote)) by assumption.
      rewrite (proj2 (Z.ltb_ge c 32)) by assumption.
      rewrite (proj2 (Z.eqb_neq c JSON.ch_backslash)) by assumption.
      rewrite IH. reflexivity.
Qed.

Lemma stringify_data_object (d : jsstr) :
  JSON.stringify (data_object d) = Some (data_text d).
Proof.
  unfold data_object, data_text. rewrite stringify_obj.
  cbn [properties_text flat_map fst snd JSON.stringify app JSON.join_comma].
  rewrite <- app_assoc. reflexivity.
Qed.

Lemma parse_value_data_text (fuel : nat) (d rest : jsstr) :
  binary d ->
  JSON.parse_value (S (S (S fuel))) (data_text d ++ rest)
  = Some (data_object d, rest).
Proof.
  intros Hd. unfold data_text, data_object.
  assert (Hq : JSON.quote (js "data") = [34; 100; 97; 116; 97; 34]) by reflexivity.
  assert (Hk : js "data" = [100; 97; 116; 97]) by reflexivity.
  rewrite Hq, Hk. unfold JSON.quote.
  cbn. rewrite <- !app_assoc. cbn [app].
  rewrite parse_string_body_quote by exact Hd.
  reflexivity.
Qed.

(** The JSON text of [{ data: d }] is read back as [{ data: d }]. *)
Lemma parse_data_text (d : jsstr) :
  binary d -> JSON.parse (data_text d) = Some (data_object d).
Proof.
  intros Hd. unfold JSON.parse.
  assert (exists fuel, (2 * length (data_text d) + 2 = S (S (S fuel)))%nat) as [fuel ->].
  { unfold data_text.
    set (l := JSON.quote (js "data") ++ JSON.ch_colon :: JSON.quote d ++ [ch_rbrace]).
    exists (2 * length l + 1)%nat. cbn [length]. lia. }
  rewrite <- (app_nil_r (data_text d)).
  rewrite parse_value_data_text by exact Hd. reflexivity.
Qed.

Lemma data_text_binary (d : jsstr) : binary d -> binary (data_text d).
Proof.
  intros Hd. unfold data_text, JSON.quote.
  assert (He : forall c, 0 <= c < 256 -> binary (JSON.escape c)).
  { intros c Hc. unfold JSON.escape, JSON.unicode_escape.
    repeat match goal with
           | |- context [if ?b then _ else _] => destruct b
           end;
      repeat constructor; try (unfold JSON.ch_backslash, JSON.ch_quote; lia);
      try (pose proof (json_hex_digit_range ((c / 4096) mod 16)
                         (Z.mod_pos_bound _ 16 ltac:(lia))); lia);
      try (pose proof (json_hex_digit_range ((c / 256) mod 16)
                         (Z.mod_pos_bound _ 16 ltac:(lia))); lia);
      try (pose proof (json_hex_digit_range ((c / 16) mod 16)
                         (Z.mod_pos_bound _ 16 ltac:(lia))); lia);
      try (pose proof (json_hex_digit_range (c mod 16)
                         (Z.mod_pos_bound _ 16 ltac:(lia))); lia). }
  assert (Hq : forall s, binary s -> binary (JSON.quote_chars s)).
  { induction 1 as [|c s Hc Hs IH]; [constructor|].
    cbn [JSON.quote_chars].
    assert (JSON.is_high_surrogate c = false) as ->
      by (unfold JSON.is_high_surrogate; apply andb_false_iff; left; apply Z.leb_gt; lia).
    assert (JSON.is_low_surrogate c = false) as ->
      by (unfold JSON.is_low_surrogate; apply andb_false_iff; left; apply Z.leb_gt; lia).
    apply Forall_app. split; [apply He, Hc | exact IH]. }
  assert (Hk : binary (JSON.quote_chars (js "data")))
    by (cbn; repeat constructor; lia).
  specialize (Hq d Hd). unfold binary in *.
  cbn [app]. rewrite ?Forall_cons, ?Forall_app, ?Forall_cons.
  unfold ch_lbrace, ch_rbrace, JSON.ch_quote, JSON.ch_colon.
  repeat split; try lia; try assumption; [constructor|].
  rewrite !Forall_app, !Forall_cons. repeat split; try lia; try assumption; constructor.
Qed.

(** ** The noise around a JSON text *)

Lemma byte_check (P : byte -> bool) :
  forallb P all_bytes = true -> forall b, P b = true.
Proof.
  intros H b. rewrite forallb_forall in H. apply H.
  unfold all_bytes. apply in_map_iff. exists (Z.to_nat (Z_of_byte b)).
  pose proof (Z_of_byte_range b). split.
  - rewrite Z2Nat.id by lia. apply byte_of_Z_of_byte.
  - apply in_seq. lia.
Qed.

Lemma noise_amount_range (b : byte) :
  (15 <= BufferTools.noise_amount b <= 64)%nat.
Proof.
  unfold BufferTools.noise_amount.
  pose proof (Z.mod_pos_bound (Z_of_byte b) 50 ltac:(lia)). lia.
Qed.

Lemma noise_filler_free (b : byte) : reserved (BufferTools.noise_filler b) = false.
Proof.
  apply negb_true_iff.
  apply (byte_check (fun b => negb (reserved (BufferTools.noise_filler b)))).
  vm_compute. reflexivity.
Qed.

(** The three passes over the noise replace exactly the reserved bytes. *)
Lemma clean_noise_cleaned (filler : byte) (noiseBuffer : buffer) :
  BufferTools.clean_noise filler noiseBuffer = map (cleaned filler) noiseBuffer.
Proof.
  unfold BufferTools.clean_noise, BufferTools.nonNoiseCharacters.
  cbn [fold_left]. unfold BufferTools.replace_byte. rewrite !map_map.
  apply map_ext. intros x.
  assert (H : forallb (fun x => forallb (fun f =>
              bool_decide
                ((if bool_decide
                       ((if bool_decide
                             ((if bool_decide (x = byte_of_Z ch_lbrace) then f else x)
                              = byte_of_Z ch_rbrace)
                         then f
                         else if bool_decide (x = byte_of_Z ch_lbrace) then f else x)
                        = x00)
                  then f
                  else if bool_decide
                            ((if bool_decide (x = byte_of_Z ch_lbrace) then f else x)
                             = byte_of_Z ch_rbrace)
                       then f
                       else if bool_decide (x = byte_of_Z ch_lbrace) then f else x)
                 = cleaned f x)) all_bytes) all_bytes = true)
    by (vm_compute; reflexivity).
  pose proof (byte_check _ H x) as Hx. cbv beta in Hx.
  pose proof (byte_check _ Hx filler) as Hf. cbv beta in Hf.
  apply bool_decide_eq_true in Hf. exact Hf.
Qed.

Lemma cleaned_free (filler b : byte) :
  reserved filler = false -> reserved (cleaned filler b) = false.
Proof.
  intros Hf. unfold cleaned. destruct (reserved b) eqn:E; assumption.
Qed.

Lemma relative_index_inside (n m : nat) :
  BufferTools.relative_index (Z.of_nat (n + m)) (Z.of_nat n) = n.
Proof.
  unfold BufferTools.relative_index.
  destruct (Z.ltb_spec (Z.of_nat n) 0); lia.
Qed.

(** The noise of a call: what precedes and what follows the JSON text. *)
Lemma noise_spec (r : rng) :
  let cfg := getRandomValues 3 r in
  let n0 := BufferTools.noise_amount (nth 0 cfg x00) in
  let n1 := BufferTools.noise_amount (nth 1 cfg x00) in
  let filler := BufferTools.noise_filler (nth 2 cfg x00) in
  let raw := getRandomValues (n0 + n1) (skip 3 r) in
  BufferTools.noise r = (map (cleaned filler) (take n0 raw),
                         map (cleaned filler) (drop n0 raw))
  /\ length (fst (BufferTools.noise r)) = n0
  /\ length (snd (BufferTools.noise r)) = n1.
Proof.
  intros cfg n0 n1 filler raw.
  assert (E : BufferTools.noise r = (map (cleaned filler) (take n0 raw),
                                     map (cleaned filler) (drop n0 raw))).
  { unfold BufferTools.noise. fold cfg. fold n0. fold n1. fold filler. fold raw.
    assert (Hlen : length raw = (n0 + n1)%nat) by apply length_getRandomValues.
    rewrite clean_noise_cleaned. unfold BufferTools.splitInTwo.
    rewrite length_map, Hlen, relative_index_inside.
    rewrite List.firstn_map, List.skipn_map. reflexivity. }
  rewrite E. cbn [fst snd]. rewrite !length_map, length_take, length_drop.
  unfold raw. rewrite length_getRandomValues.
  split; [reflexivity | lia].
Qed.

Lemma noise_free (r : rng) :
  forallb (fun b => negb (reserved b)) (fst (BufferTools.noise r)) = true
  /\ forallb (fun b => negb (reserved b)) (snd (BufferTools.noise r)) = true.
Proof.
  destruct (noise_spec r) as [E _]. rewrite E. cbn [fst snd].
  split; apply forallb_forall; intros b Hb;
    apply in_map_iff in Hb as [x [<- _]];
    rewrite cleaned_free; [reflexivity | apply noise_filler_free
                          | reflexivity | apply noise_filler_free].
Qed.

(** ** Isolating the JSON text *)

Lemma forallb_rev {A} (p : A -> bool) (l : list A) :
  forallb p l = true -> forallb p (rev l) = true.
Proof.
  rewrite !forallb_forall. intros H x Hx. apply H, in_rev. exact Hx.
Qed.

(** [/^[^{]*({.+})[^}]*$/] finds a text in braces between two runs of
    characters that are no braces. *)
Lemma match_braces_framed (before inner after : jsstr) :
  forallb (fun c => negb (c =? ch_lbrace)) before = true ->
  forallb (fun c => negb (c =? ch_rbrace)) after = true ->
  inner <> [] ->
  forallb (fun x => negb (is_line_terminator x)) inner = true ->
  match_braces (before ++ (ch_lbrace :: inner ++ [ch_rbrace]) ++ after)
  = Some (ch_lbrace :: inner ++ [ch_rbrace]).
Proof.
  intros Hb Ha Hne Hi. unfold match_braces.
  cbn [app]. rewrite drop_while_stop by (exact Hb || reflexivity).
  rewrite <- app_assoc. cbn [app].
  rewrite rev_app_distr. cbn [rev]. rewrite <- app_assoc. cbn [app].
  rewrite drop_while_stop by (apply forallb_rev, Ha || reflexivity).
  rewrite rev_involutive.
  destruct inner as [|c inner]; [congruence|].
  rewrite Hi. reflexivity.
Qed.

Lemma free_not_brace (b : byte) :
  negb (reserved b) = true ->
  negb (Z_of_byte b =? ch_lbrace) = true /\ negb (Z_of_byte b =? ch_rbrace) = true.
Proof.
  assert (H : forallb (fun b => implb (negb (reserved b))
                                      (negb (Z_of_byte b =? ch_lbrace)
                                       && negb (Z_of_byte b =? ch_rbrace)))
                      all_bytes = true) by (vm_compute; reflexivity).
  pose proof (byte_check _ H b) as Hb. cbv beta in Hb.
  intros Hr. rewrite Hr in Hb. apply andb_true_iff in Hb. exact Hb.
Qed.

Lemma toAscii_free (l : buffer) :
  forallb (fun b => negb (reserved b)) l = true ->
  forallb (fun c => negb (c =? ch_lbrace)) (BufferTools.toAscii l) = true
  /\ forallb (fun c => negb (c =? ch_rbrace)) (BufferTools.toAscii l) = true.
Proof.
  intros H. unfold BufferTools.toAscii.
  split; apply forallb_forall; intros c Hc;
    apply in_map_iff in Hc as [b [<- Hb]];
    rewrite forallb_forall in H; apply H, free_not_brace in Hb; tauto.
Qed.

Lemma toAscii_app (a b : buffer) :
  BufferTools.toAscii (a ++ b) = BufferTools.toAscii a ++ BufferTools.toAscii b.
Proof. unfold BufferTools.toAscii. apply map_app. Qed.

(** The text of an object that [JSON.parse] reads back as an object with
    a member is not empty between its braces, and has no line break if
    it is a binary string. *)
Lemma object_text_inner (members : list (jsstr * value)) (text : jsstr) :
  JSON.stringify (VObj members) = Some text ->
  JSON.parse text = Some (VObj members) ->
  members <> [] ->
  binary text ->
  exists inner,
    text = ch_lbrace :: inner ++ [ch_rbrace] /\ inner <> []
    /\ forallb (fun x => negb (is_line_terminator x)) inner = true.
Proof.
  intros Hs Hp Hne Hb.
  pose proof (stringify_no_newline _ _ Hs) as Hn.
  rewrite stringify_obj in Hs. injection Hs as <-.
  exists (JSON.join_comma (properties_text members)). split; [reflexivity|]. split.
  - intros E. rewrite E in Hp. vm_compute in Hp. injection Hp as <-. congruence.
  - cbn [forallb] in Hn. apply andb_true_iff in Hn as [_ Hn].
    rewrite forallb_app in Hn. apply andb_true_iff in Hn as [Hn _].
    unfold binary in Hb. apply Forall_cons in Hb as [_ Hb].
    apply Forall_app in Hb as [Hb _].
    apply forallb_forall. intros c Hc.
    rewrite forallb_forall in Hn. specialize (Hn c Hc).
    rewrite Forall_forall in Hb. apply list_elem_of_In in Hc. specialize (Hb c Hc).
    unfold no_newline in Hn. apply andb_true_iff in Hn as [H10 H13].
    unfold is_line_terminator.
    apply negb_true_iff in H10, H13. rewrite H10, H13. cbn [orb].
    apply negb_true_iff, orb_false_iff; split; apply Z.eqb_neq; lia.
Qed.

(** The object comes back from the buffer, whatever the noise. *)
Lemma toObject_framed (o : value) (text : jsstr) (before after : buffer) :
  (exists inner,
      text = ch_lbrace :: inner ++ [ch_rbrace] /\ inner <> []
      /\ forallb (fun x => negb (is_line_terminator x)) inner = true) ->
  binary text ->
  JSON.parse text = Some o ->
  forallb (fun b => negb (reserved b)) before = true ->
  forallb (fun b => negb (reserved b)) after = true ->
  BufferTools.toObject (before ++ BufferTools.fromAscii text ++ after) = Ok o.
Proof.
  intros [inner [E [Hne Hi]]] Hb Hp Hbefore Hafter.
  unfold BufferTools.toObject.
  rewrite !toAscii_app, toAscii_fromAscii by exact Hb.
  destruct (toAscii_free before Hbefore) as [Hl _].
  destruct (toAscii_free after Hafter) as [_ Hr].
  rewrite E at 1. rewrite match_braces_framed by assumption.
  rewrite <- E, Hp. reflexivity.
Qed.

(** ** C8: the framing of an object *)

Lemma fromObject_object (members : list (jsstr * value)) (text : jsstr) (r : rng) :
  JSON.stringify (VObj members) = Some text ->
  BufferTools.fromObject (VObj members) true r
  = Ok (fst (BufferTools.noise r) ++ BufferTools.fromAscii text
          ++ snd (BufferTools.noise r))
  /\ BufferTools.fromObject (VObj members) false r = Ok (BufferTools.fromAscii text).
Proof.
  intros Hs. unfold BufferTools.fromObject.
  cbn [typeof]. rewrite bool_decide_eq_true_2 by reflexivity. rewrite Hs.
  split; [|reflexivity].
  unfold BufferTools.concat. cbn [List.concat]. rewrite app_nil_r. reflexivity.
Qed.

(** C8, as the code has it: the noise before and after the JSON text has
    between 15 and 64 bytes on each side; it is the random bytes with '{',
    '}' and 0 replaced by the filler, which is the third random byte of the
    call, or the space character if that byte is itself one of the three;
    and an object with a member whose JSON text is a binary string that
    [JSON.parse] reads back comes back from the buffer, with and without
    noise. *)
Theorem fromObject_noise_toObject
  (members : list (jsstr * value)) (text : jsstr) (r : rng) :
  members <> [] ->
  JSON.stringify (VObj members) = Some text ->
  JSON.parse text = Some (VObj members) ->
  binary text ->
  let cfg := getRandomValues 3 r in
  let n0 := BufferTools.noise_amount (nth 0 cfg x00) in
  let n1 := BufferTools.noise_amount (nth 1 cfg x00) in
  let filler := if reserved (nth 2 cfg x00) then byte_of_Z 32 else nth 2 cfg x00 in
  let raw := getRandomValues (n0 + n1) (skip 3 r) in
  exists before after,
    BufferTools.fromObject (VObj members) true r
    = Ok (before ++ BufferTools.fromAscii text ++ after)
    /\ (15 <= length before <= 64)%nat
    /\ (15 <= length after <= 64)%nat
    /\ before ++ after = map (cleaned filler) raw
    /\ BufferTools.toObject (before ++ BufferTools.fromAscii text ++ after)
       = Ok (VObj members)
    /\ BufferTools.fromObject (VObj members) false r
       = Ok (BufferTools.fromAscii text)
    /\ BufferTools.toObject (BufferTools.fromAscii text) = Ok (VObj members).
Proof.
  intros Hne Hs Hp Hb cfg n0 n1 filler raw.
  destruct (fromObject_object members text r Hs) as [Hnoisy Hplain].
  destruct (noise_spec r) as [E [L0 L1]].
  destruct (noise_free r) as [F0 F1].
  pose proof (object_text_inner members text Hs Hp Hne Hb) as Hinner.
  exists (fst (BufferTools.noise r)), (snd (BufferTools.noise r)).
  split; [exact Hnoisy|].
  split; [rewrite L0; apply noise_amount_range|].
  split; [rewrite L1; apply noise_amount_range|].
  split; [|split; [|split]].
  - rewrite E. cbn [fst snd]. rewrite <- map_app, take_drop. reflexivity.
  - apply toObject_framed; assumption.
  - exact Hplain.
  - rewrite <- (app_nil_r (BufferTools.fromAscii text)).
    apply (toObject_framed (VObj members) text [] []); try assumption; reflexivity.
Qed.

(** A run: the object [{ message: "Hello world!" }] of the tests. *)
Lemma fromObject_noise_toObject_witness :
  let members := [(js "message", VStr (js "Hello world!"))] in
  let text := [123; 34; 109; 101; 115; 115; 97; 103; 101; 34; 58; 34; 72; 101;
               108; 108; 111; 32; 119; 111; 114; 108; 100; 33; 34; 125] in
  let cfg := getRandomValues 3 Sample.dice in
  let n0 := BufferTools.noise_amount (nth 0 cfg x00) in
  let n1 := BufferTools.noise_amount (nth 1 cfg x00) in
  let filler := if reserved (nth 2 cfg x00) then byte_of_Z 32 else nth 2 cfg x00 in
  let raw := getRandomValues (n0 + n1) (skip 3 Sample.dice) in
  exists before after,
    BufferTools.fromObject (VObj members) true Sample.dice
    = Ok (before ++ BufferTools.fromAscii text ++ after)
    /\ (15 <= length before <= 64)%nat
    /\ (15 <= length after <= 64)%nat
    /\ before ++ after = map (cleaned filler) raw
    /\ BufferTools.toObject (before ++ BufferTools.fromAscii text ++ after)
       = Ok (VObj members)
    /\ BufferTools.fromObject (VObj members) false Sample.dice
       = Ok (BufferTools.fromAscii text)
    /\ BufferTools.toObject (BufferTools.fromAscii text) = Ok (VObj members).
Proof.
  apply (fromObject_noise_toObject
           [(js "message", VStr (js "Hello world!"))]
           [123; 34; 109; 101; 115; 115; 97; 103; 101; 34; 58; 34; 72; 101;
            108; 108; 111; 32; 119; 111; 114; 108; 100; 33; 34; 125]
           Sample.dice).
  - discriminate.
  - reflexivity.
  - vm_compute. reflexivity.
  - unfold binary. repeat constructor; lia.
Defined.

(** C8 as stated fails: the filler is not always the space character.
    With the third random byte 'A' and opening braces as noise, the 76
    bytes of noise are all 'A'. *)
Lemma fromObject_filler_not_space :
  let raw := getRandomValues 76 (skip 3 Sample.braces) in
  forallb reserved raw = true
  /\ fst (BufferTools.noise Sample.braces) ++ snd (BufferTools.noise Sample.braces)
     = repeat (byte_of_Z 65) 76
  /\ fst (BufferTools.noise Sample.braces) ++ snd (BufferTools.noise Sample.braces)
     <> map (cleaned (byte_of_Z 32)) raw.
Proof.
  vm_compute. repeat split. discriminate.
Qed.

(** The empty object does not come back: the expression of [toObject]
    asks for a character between the braces. *)
Lemma toObject_fromObject_empty (addNoise : bool) (r : rng) :
  exists buf,
    BufferTools.fromObject (VObj []) addNoise r = Ok buf
    /\ BufferTools.toObject buf
       = Throw (Error "BufferTools.toObject(): Invalid arguments").
Proof.
  assert (Hs : JSON.stringify (VObj []) = Some [ch_lbrace; ch_rbrace]) by reflexivity.
  destruct (fromObject_object [] _ r Hs) as [Hnoisy Hplain].
  assert (H : forall before after,
             forallb (fun b => negb (reserved b)) before = true ->
             forallb (fun b => negb (reserved b)) after = true ->
             BufferTools.toObject
               (before ++ BufferTools.fromAscii [ch_lbrace; ch_rbrace] ++ after)
             = Throw (Error "BufferTools.toObject(): Invalid arguments")).
  { intros before after Hbefore Hafter. unfold BufferTools.toObject.
    rewrite !toAscii_app.
    destruct (toAscii_free before Hbefore) as [Hl _].
    destruct (toAscii_free after Hafter) as [_ Hr].
    change (BufferTools.toAscii (BufferTools.fromAscii [ch_lbrace; ch_rbrace]))
      with [ch_lbrace; ch_rbrace].
    unfold match_braces. cbn [app].
    rewrite drop_while_stop by (exact Hl || reflexivity).
    cbn [rev]. rewrite drop_while_stop by (apply forallb_rev, Hr || reflexivity).
    reflexivity. }
  destruct addNoise; eexists; (split; [eassumption|]).
  - destruct (noise_free r). apply H; assumption.
  - rewrite <- (app_nil_r (BufferTools.fromAscii _)). apply (H [] []); reflexivity.
Qed.

(** A string with a character above 255 does not come back either:
    [fromAscii] keeps the low byte of every character. *)
Lemma toObject_fromObject_wide :
  exists buf,
    BufferTools.fromObject (VObj [(js "a", VStr [353])]) false Sample.zeros = Ok buf
    /\ BufferTools.toObject buf = Ok (VObj [(js "a", VStr [97])]).
Proof. eexists. split; vm_compute; reflexivity. Qed.

Lemma list_ind3_pairs {A} (P : list A -> Prop) :
  P [] -> (forall x, P [x]) ->
  (forall x y l, P l -> P (x :: y :: l)) ->
  forall l, P l.
Proof.
  intros H0 H1 H2.
  fix IH 1. intros [|x [|y l]].
  - exact H0.
  - apply H1.
  - apply H2. apply IH.
Qed.

(** ** The symmetric envelope *)

Lemma length_toHex (b : buffer) : length (BufferTools.toHex b) = (2 * length b)%nat.
Proof.
  induction b as [|x b IH]; [reflexivity|].
  cbn [BufferTools.toHex length]. rewrite IH. lia.
Qed.

Lemma hex_digit_is_hex (d : Z) : 0 <= d < 16 -> is_hex (BufferTools.hex_digit d) = true.
Proof. intros H. unfold is_hex. rewrite hex_value_digit by exact H. reflexivity. Qed.

Lemma toHex_is_hex (b : buffer) : forallb is_hex (BufferTools.toHex b) = true.
Proof.
  induction b as [|x b IH]; [reflexivity|].
  pose proof (Z_of_byte_range x) as Hx.
  cbn [BufferTools.toHex forallb]. rewrite IH, !hex_digit_is_hex; [reflexivity| |].
  - apply Z.mod_pos_bound. lia.
  - split; [apply Z.div_pos; lia | apply Z.div_lt_upper_bound; lia].
Qed.

Lemma is_hex_range (c : Z) : is_hex c = true -> 48 <= c <= 102.
Proof.
  unfold is_hex, BufferTools.hex_value.
  destruct ((48 <=? c) && (c <=? 57)) eqn:E1; [apply andb_true_iff in E1; lia|].
  destruct ((97 <=? c) && (c <=? 102)) eqn:E2; [apply andb_true_iff in E2; lia|].
  destruct ((65 <=? c) && (c <=? 70)) eqn:E3; [apply andb_true_iff in E3; lia|].
  intros H. discriminate H.
Qed.

Lemma hex_no_line_terminator (s : jsstr) :
  forallb is_hex s = true ->
  forallb (fun x => negb (is_line_terminator x)) s = true.
Proof.
  apply forallb_impl. intros c Hc. apply is_hex_range in Hc.
  unfold is_line_terminator. apply negb_true_iff.
  repeat (apply orb_false_iff; split); apply Z.eqb_neq; lia.
Qed.

(** What [fromHex] accepts is made of hexadecimal digits, and it fails
    with one error only. *)
Lemma fromHex_is_hex (s : jsstr) (b : buffer) :
  BufferTools.fromHex s = Ok b -> forallb is_hex s = true.
Proof.
  revert b. induction s as [|c1|c1 c2 s IH] using list_ind3_pairs.
  - reflexivity.
  - discriminate.
  - intros b. cbn [BufferTools.fromHex forallb]. unfold is_hex at 1 2.
    destruct (BufferTools.hex_value c1); [|discriminate].
    destruct (BufferTools.hex_value c2); [|discriminate].
    destruct (BufferTools.fromHex s) as [b'|]; [|discriminate].
    intros _. rewrite (IH b' eq_refl). reflexivity.
Qed.

Lemma fromHex_error_unique (s : jsstr) (e : JsError) :
  BufferTools.fromHex s = Throw e -> e = BufferTools.fromHex_error.
Proof.
  induction s as [|c1|c1 c2 s IH] using list_ind3_pairs.
  - discriminate.
  - intros [= <-]. reflexivity.
  - cbn [BufferTools.fromHex].
    destruct (BufferTools.hex_value c1); [|intros [= <-]; reflexivity].
    destruct (BufferTools.hex_value c2); [|intros [= <-]; reflexivity].
    destruct (BufferTools.fromHex s) as [b'|e']; [discriminate|].
    intros [= <-]. apply IH. reflexivity.
Qed.

Section Envelope.
Context (W : WebCrypto).

(** The plain text [encryptData] encrypts: the JSON text of
    [{ data: dataString }] in its noise. *)
Lemma encryptData_plain (d : jsstr) (r : rng) :
  BufferTools.fromObject (data_object d) true r
  = Ok (fst (BufferTools.noise r) ++ BufferTools.fromAscii (data_text d)
          ++ snd (BufferTools.noise r)).
Proof.
  apply (fromObject_object [(js "data", VStr d)] (data_text d) r).
  apply stringify_data_object.
Qed.

(** [encryptData] for a version of the [switch]. *)
Lemma encryptData_steps (d : jsstr) (c : Z) (p : jsstr) (version : Z)
  (sAlgo : SymAlgo) (ivBytes : nat) (r : rng) :
  Crypto.cipher_of_version (VNum version) = Some (sAlgo, ivBytes) ->
  Crypto.encryptData W (VStr d) (VStr (c :: p)) (VNum version) r
  = settle (sKey ← importKey_raw W (Crypto.password_key (c :: p)) sAlgo;
            encryptedBuffer ←
              encrypt_aes W sAlgo (getRandomValues ivBytes r) sKey
                (fst (BufferTools.noise (skip ivBytes r))
                   ++ BufferTools.fromAscii (data_text d)
                   ++ snd (BufferTools.noise (skip ivBytes r)));
            Ok (tagged_envelope version (getRandomValues ivBytes r) encryptedBuffer)).
Proof.
  intros Hv. unfold Crypto.encryptData. cbn [default_arg]. rewrite Hv.
  fold (data_object d). rewrite encryptData_plain. reflexivity.
Qed.

Lemma cipher_of_version_inv (version : value) (sAlgo : SymAlgo) (ivBytes : nat) :
  Crypto.cipher_of_version version = Some (sAlgo, ivBytes) ->
  (version = VNum 1 /\ sAlgo = AES_CBC /\ ivBytes = 16%nat)
  \/ (version = VNum 2 /\ sAlgo = AES_GCM /\ ivBytes = 12%nat).
Proof.
  destruct version as [ | | | n | | | ]; try discriminate.
  destruct n as [|[q|q|]|]; try discriminate;
    try (destruct q; discriminate).
  - destruct q; try discriminate. cbn. intros [= <- <-]. right. auto.
  - cbn. intros [= <- <-]. left. auto.
Qed.

(** C4, as the code has it: the string of [encryptData] carries its
    version in front for version 1 as well as for version 2, followed by
    the vector and the cipher text in hexadecimal; no other version is
    accepted; and [decryptData] takes a string without a version for what
    the same string with the version 1 in front is. *)
Theorem encryptData_format (d : jsstr) (c : Z) (p : jsstr) (version : value)
  (r : rng) (s : jsstr) :
  Crypto.encryptData W (VStr d) (VStr (c :: p)) version r = Resolved s ->
  (exists (v : Z) (ivBytes : nat) (payload : buffer),
      ((default_arg version (VNum 2) = VNum 1 /\ v = 1 /\ ivBytes = 16%nat)
       \/ (default_arg version (VNum 2) = VNum 2 /\ v = 2 /\ ivBytes = 12%nat))
      /\ s = tagged_envelope v (getRandomValues ivBytes r) payload
      /\ take 2 s = JSON.number_to_string v ++ js "$")
  /\ (forall (e : jsstr) (password : value),
        e <> [] -> match_version e = None ->
        Crypto.decryptData W (VStr e) password
        = Crypto.decryptData W (VStr (js "1$" ++ e)) password).
Proof.
  intros Hs. split.
  - unfold Crypto.encryptData in Hs.
    destruct (Crypto.cipher_of_version (default_arg version (VNum 2)))
      as [[sAlgo ivBytes]|] eqn:Hv; [|discriminate].
    fold (data_object d) in Hs. rewrite encryptData_plain in Hs.
    destruct (importKey_raw W _ sAlgo) as [sKey|]; [|discriminate].
    cbn [mbind result_bind] in Hs.
    destruct (encrypt_aes W sAlgo _ sKey _) as [payload|]; [|discriminate].
    cbn [mbind result_bind settle] in Hs. injection Hs as <-.
    apply cipher_of_version_inv in Hv as [[E [-> ->]] | [E [-> ->]]]; rewrite E.
    + exists 1, 16%nat, payload. split; [left; auto|]. split; reflexivity.
    + exists 2, 12%nat, payload. split; [right; auto|]. split; reflexivity.
  - clear. intros e password Hne Hm.
    destruct password as [ | | | | [|c p] | | ];
      try (destruct e; [congruence | reflexivity]).
    destruct (forallb (fun x => negb (is_line_terminator x)) e) eqn:Ht.
    + assert (Hm1 : match_version (js "1$" ++ e) = Some (js "1", e)).
      { unfold match_version, span_while. destruct e as [|x e]; [congruence|].
        change (js "1$" ++ x :: e) with (49 :: 36 :: x :: e).
        cbn [take_while drop_while is_digit Z.leb Z.compare Pos.compare
             Pos.compare_cont andb].
        cbn -[forallb]. rewrite Ht. reflexivity. }
      destruct e as [|x e]; [congruence|].
      unfold Crypto.decryptData, Crypto.split_version.
      change (js "1$" ++ x :: e) with (49 :: 36 :: x :: e) in *.
      rewrite Hm, Hm1. reflexivity.
    + assert (Hm1 : match_version (js "1$" ++ e) = None).
      { unfold match_version, span_while. destruct e as [|x e]; [congruence|].
        change (js "1$" ++ x :: e) with (49 :: 36 :: x :: e).
        cbn -[forallb]. rewrite Ht. reflexivity. }
      destruct e as [|x e]; [congruence|].
      unfold Crypto.decryptData, Crypto.split_version.
      change (js "1$" ++ x :: e) with (49 :: 36 :: x :: e) in *.
      rewrite Hm, Hm1. cbn [Crypto.cipher_of_version].
      change (take (16 * 2) (49 :: 36 :: x :: e)) with (49 :: 36 :: take 30 (x :: e)).
      cbn [BufferTools.fromHex BufferTools.hex_value].
      change (BufferTools.hex_value 36) with (@None Z).
      change (BufferTools.hex_value 49) with (Some 1). cbv iota.
      destruct (BufferTools.fromHex (take (16 * 2) (x :: e))) as [iv|err] eqn:E1.
      * destruct (BufferTools.fromHex (drop (16 * 2) (x :: e))) as [ct|err] eqn:E2.
        -- exfalso. apply fromHex_is_hex, hex_no_line_terminator in E1, E2.
           rewrite <- (take_drop (16 * 2) (x :: e)), forallb_app, E1, E2 in Ht.
           discriminate.
        -- apply fromHex_error_unique in E2 as ->. reflexivity.
      * apply fromHex_error_unique in E1 as ->. reflexivity.
Qed.

End Envelope.

(** A run: the string [secret] under the password [ab], version 1. *)
Lemma encryptData_format_witness :
  Crypto.encryptData Sample.provider (VStr (js "secret")) (VStr (js "ab"))
                     (VNum 1) Sample.dice = Resolved Sample.envelope1
  /\ (exists (v : Z) (ivBytes : nat) (payload : buffer),
         ((default_arg (VNum 1) (VNum 2) = VNum 1 /\ v = 1 /\ ivBytes = 16%nat)
          \/ (default_arg (VNum 1) (VNum 2) = VNum 2 /\ v = 2 /\ ivBytes = 12%nat))
         /\ Sample.envelope1
            = tagged_envelope v (getRandomValues ivBytes Sample.dice) payload
         /\ take 2 Sample.envelope1 = JSON.number_to_string v ++ js "$")
  /\ (forall (e : jsstr) (password : value),
         e <> [] -> match_version e = None ->
         Crypto.decryptData Sample.provider (VStr e) password
         = Crypto.decryptData Sample.provider (VStr (js "1$" ++ e)) password).
Proof.
  split; [vm_compute; reflexivity|].
  apply (encryptData_format Sample.provider (js "secret") 97 (js "b") (VNum 1)
                            Sample.dice Sample.envelope1).
  vm_compute. reflexivity.
Defined.

(** C4 as stated fails: with version 1 the string of [encryptData] begins
    with the version and a dollar sign; it is no string of the bare form,
    which has hexadecimal digits only. *)
Lemma encryptData_version1_not_bare :
  Crypto.encryptData Sample.provider (VStr (js "secret")) (VStr (js "ab"))
                     (VNum 1) Sample.dice = Resolved Sample.envelope1
  /\ take 2 Sample.envelope1 = js "1$"
  /\ forall iVector payload, Sample.envelope1 <> bare_envelope iVector payload.
Proof.
  split; [vm_compute; reflexivity|]. split; [reflexivity|].
  intros iVector payload E.
  assert (H : forallb is_hex Sample.envelope1 = true).
  { rewrite E. unfold bare_envelope. rewrite forallb_app, !toHex_is_hex. reflexivity. }
  vm_compute in H. discriminate H.
Qed.

(** ** C3: what [decryptData] answers *)

(** C3, as the code has it: missing or empty arguments and an
    unsupported version reject; a text that is not hexadecimal makes the
    call throw; on every other input the promise is fulfilled, with the
    string only if the import of the key, the decryption, the unwrapping
    and the test of the member [data] all succeed, and with [null] in
    every other case, whichever step fails. *)
Theorem decryptData_outcomes (W : WebCrypto) (encryptedData password : value) :
  match encryptedData, password with
  | VStr ((_ :: _) as e), VStr ((_ :: _) as p) =>
    let '(data, version) := Crypto.split_version e in
    match Crypto.cipher_of_version version with
    | None =>
      Crypto.decryptData W encryptedData password
      = Rejected (Crypto.InvalidArguments)
    | Some (sAlgo, ivBytes) =>
      match BufferTools.fromHex (take (ivBytes * 2) data),
            BufferTools.fromHex (drop (ivBytes * 2) data) with
      | Ok iVector, Ok encryptedBuffer =>
        exists res,
          Crypto.decryptData W encryptedData password = Resolved res
          /\ forall d,
              res = Some d <->
              exists sKey dataBuffer obj,
                importKey_raw W (Crypto.password_key p) sAlgo = Ok sKey
                /\ decrypt_aes W sAlgo iVector sKey encryptedBuffer = Ok dataBuffer
                /\ BufferTools.toObject dataBuffer = Ok obj
                /\ Crypto.data_member obj = Ok (Some d)
      | _, _ =>
        Crypto.decryptData W encryptedData password
        = Thrown BufferTools.fromHex_error
      end
    end
  | _, _ =>
    Crypto.decryptData W encryptedData password = Rejected Crypto.InvalidArguments
  end.
Proof.
  destruct encryptedData as [ | | | | [|c0 e] | | ]; try reflexivity.
  destruct password as [ | | | | [|c1 p] | | ]; try reflexivity.
  unfold Crypto.decryptData.
  destruct (Crypto.split_version (c0 :: e)) as [data version].
  destruct (Crypto.cipher_of_version version) as [[sAlgo ivBytes]|]; [|reflexivity].
  destruct (BufferTools.fromHex (take (ivBytes * 2) data)) as [iVector|err] eqn:E1.
  2:{ apply fromHex_error_unique in E1 as ->. reflexivity. }
  destruct (BufferTools.fromHex (drop (ivBytes * 2) data)) as [encryptedBuffer|err] eqn:E2.
  2:{ apply fromHex_error_unique in E2 as ->. reflexivity. }
  match goal with
  | |- exists res, match ?ch with _ => _ end = _ /\ _ =>
    exists (match ch with Ok res => res | Throw _ => None end);
      split; [destruct ch; reflexivity|]
  end.
  intros d. split.
  - destruct (importKey_raw W _ sAlgo) as [sKey|] eqn:Ek; [|discriminate].
    cbn [mbind result_bind].
    destruct (decrypt_aes W sAlgo iVector sKey encryptedBuffer) as [dataBuffer|] eqn:Eb;
      [|discriminate].
    cbn [mbind result_bind].
    destruct (BufferTools.toObject dataBuffer) as [obj|] eqn:Eo; [|discriminate].
    cbn [mbind result_bind].
    destruct (Crypto.data_member obj) as [res|] eqn:Ed; [|discriminate].
    intros ->. exists sKey, dataBuffer, obj. auto.
  - intros [sKey [dataBuffer [obj [-> [H2 [H3 H4]]]]]].
    cbn [mbind result_bind]. rewrite H2. cbn [mbind result_bind].
    rewrite H3. cbn [mbind result_bind]. rewrite H4. reflexivity.
Qed.

(** C3 as stated fails: a text that is not hexadecimal makes the call
    throw, and a version that is not supported makes it reject. *)
Lemma decryptData_malformed_throws :
  Crypto.decryptData Sample.provider (VStr (js "zz")) (VStr (js "pw"))
  = Thrown BufferTools.fromHex_error
  /\ Crypto.decryptData Sample.provider (VStr (js "3$00")) (VStr (js "pw"))
     = Rejected Crypto.InvalidArguments.
Proof. split; reflexivity. Qed.

(** ** C10: the key of a password *)




Lemma split_version_tagged (v : Z) (iVector payload : buffer) :
  v = 1 \/ v = 2 -> iVector <> [] ->
  Crypto.split_version (tagged_envelope v iVector payload)
  = (BufferTools.toHex iVector ++ BufferTools.toHex payload, VNum v).
Proof.
  intros Hv Hne. unfold Crypto.split_version, tagged_envelope.
  assert (Hbody : forallb (fun x => negb (is_line_terminator x))
                    (BufferTools.toHex iVector ++ BufferTools.toHex payload) = true).
  { apply hex_no_line_terminator. rewrite forallb_app, !toHex_is_hex. reflexivity. }
  destruct (BufferTools.toHex iVector ++ BufferTools.toHex payload) as [|b body] eqn:E.
  { apply app_eq_nil in E as [E _]. apply toHex_nonempty in E; [contradiction | exact Hne]. }
  destruct Hv as [-> | ->].
  - change (JSON.number_to_string 1 ++ js "$" ++ b :: body) with (49 :: 36 :: b :: body).
    unfold match_version, span_while.
    cbn -[forallb]. rewrite Hbody. reflexivity.
  - change (JSON.number_to_string 2 ++ js "$" ++ b :: body) with (50 :: 36 :: b :: body).
    unfold match_version, span_while.
    cbn -[forallb]. rewrite Hbody. reflexivity.
Qed.

Lemma tagged_envelope_nonempty (v : Z) (iVector payload : buffer) :
  v = 1 \/ v = 2 -> exists c s, tagged_envelope v iVector payload = c :: s.
Proof.
  intros [-> | ->]; unfold tagged_envelope; eexists; eexists; reflexivity.
Qed.

Section Roundtrip.
Context (W : WebCrypto) (HW : Lawful W).

(** What a fulfilled call of [encryptData] went through. *)
Lemma encryptData_inv (d : jsstr) (c : Z) (p : jsstr) (version : value)
  (r : rng) (s : jsstr) :
  Crypto.encryptData W (VStr d) (VStr (c :: p)) version r = Resolved s ->
  exists v sAlgo ivBytes sKey payload,
    (v = 1 \/ v = 2)
    /\ Crypto.cipher_of_version (VNum v) = Some (sAlgo, ivBytes)
    /\ (0 < ivBytes)%nat
    /\ importKey_raw W (Crypto.password_key (c :: p)) sAlgo = Ok sKey
    /\ encrypt_aes W sAlgo (getRandomValues ivBytes r) sKey
         (fst (BufferTools.noise (skip ivBytes r))
            ++ BufferTools.fromAscii (data_text d)
            ++ snd (BufferTools.noise (skip ivBytes r))) = Ok payload
    /\ s = tagged_envelope v (getRandomValues ivBytes r) payload.
Proof.
  intros Hs. unfold Crypto.encryptData in Hs.
  destruct (Crypto.cipher_of_version (default_arg version (VNum 2)))
    as [[sAlgo ivBytes]|] eqn:Hv; [|discriminate].
  fold (data_object d) in Hs. rewrite encryptData_plain in Hs.
  destruct (importKey_raw W _ sAlgo) as [sKey|] eqn:Ek; [|discriminate].
  cbn [mbind result_bind] in Hs.
  destruct (encrypt_aes W sAlgo _ sKey _) as [payload|] eqn:Ee; [|discriminate].
  cbn [mbind result_bind settle] in Hs. injection Hs as <-.
  pose proof Hv as Hv'.
  apply cipher_of_version_inv in Hv' as [[E [-> ->]] | [E [-> ->]]]; rewrite E in *.
  - exists 1, AES_CBC, 16%nat, sKey, payload. repeat split; auto. lia.
  - exists 2, AES_GCM, 12%nat, sKey, payload. repeat split; auto. lia.
Qed.

(** [decryptData] gives back what [encryptData] was given, under every
    password with the same key. *)
Lemma decryptData_encryptData (d : jsstr) (c : Z) (p : jsstr) (c' : Z) (p' : jsstr)
  (version : value) (r : rng) (s : jsstr) :
  binary d ->
  Crypto.password_key (c' :: p') = Crypto.password_key (c :: p) ->
  Crypto.encryptData W (VStr d) (VStr (c :: p)) version r = Resolved s ->
  Crypto.decryptData W (VStr s) (VStr (c' :: p')) = Resolved (Some d).
Proof.
  intros Hd Hkey Hs.
  apply encryptData_inv in Hs
    as (v & sAlgo & ivBytes & sKey & payload & Hv & Hc & Hiv & Ek & Ee & ->).
  destruct (tagged_envelope_nonempty v (getRandomValues ivBytes r) payload Hv)
    as (c0 & s0 & Es).
  unfold Crypto.decryptData. rewrite Es, <- Es.
  rewrite split_version_tagged;
    [| exact Hv | apply (nonempty_length _ (ivBytes - 1));
                  rewrite length_getRandomValues; lia].
  rewrite Hc.
  assert (Hl : length (BufferTools.toHex (getRandomValues ivBytes r))
               = (ivBytes * 2)%nat)
    by (rewrite length_toHex, length_getRandomValues; lia).
  rewrite <- Hl, take_app_length, drop_app_length, !fromHex_toHex.
  rewrite Hkey, Ek. cbn [mbind result_bind].
  rewrite (aes_roundtrip W HW _ _ _ _ _ _ Ek Ee). cbn [mbind result_bind].
  destruct (noise_free (skip ivBytes r)) as [F0 F1].
  rewrite (toObject_framed (data_object d) (data_text d)); try assumption.
  - reflexivity.
  - apply (object_text_inner [(js "data", VStr d)]).
    + apply stringify_data_object.
    + apply parse_data_text, Hd.
    + discriminate.
    + apply data_text_binary, Hd.
  - apply data_text_binary, Hd.
  - apply parse_data_text, Hd.
Qed.

End Roundtrip.



Example decryptData_under_the_other_password :
  Crypto.decryptData Sample.provider (VStr Sample.envelope2) (VStr (js "abab"))
  = Resolved (Some (js "secret"))
  /\ Crypto.decryptData Sample.provider (VStr Sample.envelope2) (VStr (js "abc"))
     = Resolved None.
Proof. split; vm_compute; reflexivity. Qed.

(** ** C1 and C2: the hybrid envelope *)

Lemma char_of_digit_no_line_terminator (d : Z) :
  digit d -> negb (is_line_terminator (Base64.char_of_digit d)) = true.
Proof.
  intros Hd.
  assert (H : forallb (fun d => negb (is_line_terminator (Base64.char_of_digit d)))
                      (map Z.of_nat (seq 0 64)) = true)
    by (vm_compute; reflexivity).
  exact (range_check _ 64 H d Hd).
Qed.

Lemma encode_no_line_terminator (b : buffer) :
  forallb (fun x => negb (is_line_terminator x)) (Base64.encode b) = true.
Proof.
  assert (Hbody : forallb (fun x => negb (is_line_terminator x))
                    (map Base64.char_of_digit (Base64.digits_of_bytes b)) = true).
  { apply forallb_forall. intros c Hc. apply in_map_iff in Hc as [d [<- Hd]].
    apply char_of_digit_no_line_terminator.
    pose proof (digits_of_bytes_digit b) as H. rewrite Forall_forall in H.
    apply H, list_elem_of_In, Hd. }
  destruct (encode_cases b) as [[-> _] | [[-> _] | [-> _]]];
    rewrite ?forallb_app, ?Hbody; reflexivity.
Qed.

Lemma encode_nonempty (b : buffer) : b <> [] -> Base64.encode b <> [].
Proof.
  intros Hne E. unfold Base64.encode in E. apply app_eq_nil in E as [E _].
  apply map_eq_nil in E. revert E. apply digits_nonempty, Hne.
Qed.

(** A text with the version 1 or 2 in front is taken apart again. *)
Lemma split_version_prefixed (v : Z) (body : jsstr) :
  v = 1 \/ v = 2 -> body <> [] ->
  forallb (fun x => negb (is_line_terminator x)) body = true ->
  Crypto.split_version (JSON.number_to_string v ++ js "$" ++ body) = (body, VNum v).
Proof.
  intros Hv Hne Hbody. unfold Crypto.split_version.
  destruct body as [|b body]; [congruence|].
  destruct Hv as [-> | ->].
  - change (JSON.number_to_string 1 ++ js "$" ++ b :: body) with (49 :: 36 :: b :: body).
    unfold match_version, span_while.
    cbn -[forallb]. rewrite Hbody. reflexivity.
  - change (JSON.number_to_string 2 ++ js "$" ++ b :: body) with (50 :: 36 :: b :: body).
    unfold match_version, span_while.
    cbn -[forallb]. rewrite Hbody. reflexivity.
Qed.

Lemma splitInTwo_app (a b : buffer) :
  BufferTools.splitInTwo (a ++ b) (Z.of_nat (length a)) = (a, b).
Proof.
  unfold BufferTools.splitInTwo. rewrite length_app, relative_index_inside.
  rewrite take_app_length, drop_app_length. reflexivity.
Qed.

Section Hybrid.
Context (W : WebCrypto) (HW : Lawful W).

(** What a fulfilled call of [encryptObject] on an object went through. *)
Lemma encryptObject_inv (this : Crypto.t W) (members : list (jsstr * value))
  (text : jsstr) (version : value) (r : rng) (env : Crypto.Envelope) :
  JSON.stringify (VObj members) = Some text ->
  Crypto.encryptObject W this (VObj members) version r = Resolved env ->
  exists v sAlgo ivBytes pub sKey cipherBuffer sKeyBuffer keyBuffer iVector before after r',
    (v = 1 \/ v = 2)
    /\ Crypto.cipher_of_version (VNum v) = Some (sAlgo, ivBytes)
    /\ length iVector = ivBytes
    /\ forallb (fun b => negb (reserved b)) before = true
    /\ forallb (fun b => negb (reserved b)) after = true
    /\ Crypto.publicKey W this = Some pub
    /\ generateKey_aes W sAlgo r' = Ok sKey
    /\ encrypt_aes W sAlgo iVector sKey (before ++ BufferTools.fromAscii text ++ after)
       = Ok cipherBuffer
    /\ exportKey_raw W sKey = Ok sKeyBuffer
    /\ encrypt_rsa W pub (iVector ++ sKeyBuffer) (skip 1 r') = Ok keyBuffer
    /\ env = {| Crypto.message := JSON.number_to_string v ++ js "$"
                                    ++ Base64.encode cipherBuffer;
                Crypto.key := Base64.encode keyBuffer |}.
Proof.
  intros Hs He. unfold Crypto.encryptObject in He.
  cbn [typeof] in He. rewrite bool_decide_eq_true_2 in He by reflexivity.
  cbn [negb] in He.
  destruct (Crypto.cipher_of_version (default_arg version (VNum 2)))
    as [[sAlgo ivBytes]|] eqn:Hv; [|discriminate].
  destruct (fromObject_object members text r Hs) as [Hplain _].
  rewrite Hplain in He.
  destruct (generateKey_aes W sAlgo _) as [sKey|] eqn:Eg; [|discriminate].
  cbn [mbind result_bind] in He.
  destruct (encrypt_aes W sAlgo _ sKey _) as [cipherBuffer|] eqn:Ee; [|discriminate].
  cbn [mbind result_bind] in He.
  destruct (exportKey_raw W sKey) as [sKeyBuffer|] eqn:Ex; [|discriminate].
  cbn [mbind result_bind BufferTools.concat List.concat] in He.
  rewrite app_nil_r in He.
  destruct (Crypto.publicKey W this) as [pub|] eqn:Ep; [|discriminate].
  cbn [Crypto.with_key] in He.
  destruct (encrypt_rsa W pub _ _) as [keyBuffer|] eqn:Er; [|discriminate].
  cbn [mbind result_bind] in He. rewrite !btoa_toAscii in He.
  cbn [mbind result_bind settle] in He. injection He as <-.
  destruct (noise_free r) as [F0 F1].
  pose proof Hv as Hv'.
  apply cipher_of_version_inv in Hv' as [[E [-> ->]] | [E [-> ->]]]; rewrite E in *.
  - exists 1, AES_CBC, 16%nat, pub, sKey, cipherBuffer, sKeyBuffer, keyBuffer,
      (getRandomValues 16 (skip (Crypto.noise_length r) r)),
      (fst (BufferTools.noise r)), (snd (BufferTools.noise r)),
      (skip 16 (skip (Crypto.noise_length r) r)).
    repeat split; try assumption; auto; apply length_getRandomValues.
  - exists 2, AES_GCM, 12%nat, pub, sKey, cipherBuffer, sKeyBuffer, keyBuffer,
      (getRandomValues 12 (skip (Crypto.noise_length r) r)),
      (fst (BufferTools.noise r)), (snd (BufferTools.noise r)),
      (skip 12 (skip (Crypto.noise_length r) r)).
    repeat split; try assumption; auto; apply length_getRandomValues.
Qed.

(** C1, as the code has it: with a session that holds a key-pair of the
    provider, an object with a member whose JSON text is a binary string
    that [JSON.parse] reads back, and the version 1 or 2 (or none, which
    is 2), what [encryptObject] returns is decrypted by [decryptObject]
    to the object; the message carries its version in front. *)
Theorem decryptObject_encryptObject (this : Crypto.t W) (pub priv : CryptoKey W)
  (members : list (jsstr * value)) (text : jsstr) (version : value) (r : rng)
  (env : Crypto.Envelope) :
  Crypto.publicKey W this = Some pub ->
  Crypto.privateKey W this = Some priv ->
  is_Some (Crypto.publicKeyExport W this) ->
  key_pair W pub priv ->
  members <> [] ->
  JSON.stringify (VObj members) = Some text ->
  JSON.parse text = Some (VObj members) ->
  binary text ->
  Crypto.encryptObject W this (VObj members) version r = Resolved env ->
  Crypto.decryptObject W this (VStr (Crypto.key env)) (VStr (Crypto.message env))
  = Resolved (VObj members)
  /\ (default_arg version (VNum 2) = VNum 1 \/ default_arg version (VNum 2) = VNum 2)
  /\ take 2 (Crypto.message env) = to_string (default_arg version (VNum 2)) ++ js "$".
Proof.
  intros Hpub Hpriv Hexp Hpair Hne Hs Hp Hb He.
  assert (Hver : (default_arg version (VNum 2) = VNum 1
                  \/ default_arg version (VNum 2) = VNum 2)
                 /\ take 2 (Crypto.message env)
                    = to_string (default_arg version (VNum 2)) ++ js "$").
  { unfold Crypto.encryptObject in He.
    destruct (negb _); [discriminate|].
    destruct (Crypto.cipher_of_version (default_arg version (VNum 2)))
      as [[sAlgo ivBytes]|] eqn:Hv; [|discriminate].
    destruct (BufferTools.fromObject _ _ _); [|discriminate].
    match type of He with settle ?ch = _ => destruct ch as [x|] eqn:Ech end;
      [|discriminate].
    injection He as <-.
    repeat match type of Ech with
           | (mbind _ ?m) = _ => destruct m; [cbn [mbind result_bind] in Ech|discriminate]
           end.
    injection Ech as <-.
    apply cipher_of_version_inv in Hv as [[E _] | [E _]]; rewrite E; auto. }
  split; [|exact Hver].
  apply (encryptObject_inv this members text version r env Hs) in He
    as (v & sAlgo & ivBytes & pub' & sKey & cipherBuffer & sKeyBuffer & keyBuffer
        & iVector & before & after & r' & Hv & Hc & Hl & F0 & F1 & Hpub' & Eg & Ee
        & Ex & Er & ->).
  rewrite Hpub in Hpub'. injection Hpub' as <-.
  unfold Crypto.decryptObject. cbn [Crypto.key Crypto.message].
  assert (Crypto.hasKeyPair W this = true) as ->.
  { unfold Crypto.hasKeyPair. rewrite Hpub, Hpriv.
    rewrite !bool_decide_eq_true_2 by eauto. reflexivity. }
  cbn [negb]. rewrite atob_encode, fromAscii_toAscii.
  assert (Hcne : cipherBuffer <> []).
  { pose proof (aes_grows W HW _ _ _ _ _ Ee) as Hg.
    intros ->. cbn [length] in Hg. lia. }
  rewrite split_version_prefixed;
    [| exact Hv | apply encode_nonempty, Hcne | apply encode_no_line_terminator].
  rewrite atob_encode, fromAscii_toAscii, Hc.
  rewrite Hpriv. cbn [Crypto.with_key].
  rewrite (rsa_roundtrip W HW pub priv _ _ _ Hpair Er). cbn [mbind result_bind].
  rewrite <- Hl, splitInTwo_app. cbn [fst snd].
  destruct (aes_export_roundtrip W HW _ _ _ _ _ _ _ Eg Ex Ee) as [k' [Ek Ed]].
  rewrite Ek. cbn [mbind result_bind]. rewrite Ed. cbn [mbind result_bind].
  rewrite (toObject_framed (VObj members) text); try assumption.
  - reflexivity.
  - apply (object_text_inner members); assumption.
Qed.

End Hybrid.

(** A run: the object of the tests, with version 1 and with the default
    version. *)
Lemma decryptObject_encryptObject_witness :
  (Crypto.decryptObject Sample.provider Sample.session
     (VStr (Crypto.key Sample.letter1)) (VStr (Crypto.message Sample.letter1))
   = Resolved (VObj Sample.greeting)
   /\ (default_arg (VNum 1) (VNum 2) = VNum 1 \/ default_arg (VNum 1) (VNum 2) = VNum 2)
   /\ take 2 (Crypto.message Sample.letter1)
      = to_string (default_arg (VNum 1) (VNum 2)) ++ js "$")
  /\ (Crypto.decryptObject Sample.provider Sample.session
        (VStr (Crypto.key Sample.letter2)) (VStr (Crypto.message Sample.letter2))
      = Resolved (VObj Sample.greeting)
      /\ (default_arg VUndefined (VNum 2) = VNum 1
          \/ default_arg VUndefined (VNum 2) = VNum 2)
      /\ take 2 (Crypto.message Sample.letter2)
         = to_string (default_arg VUndefined (VNum 2)) ++ js "$").
Proof.
  split.
  - apply (decryptObject_encryptObject Sample.provider sample_lawful Sample.session
             (Sample.PublicKey [72; 119]) (Sample.PrivateKey [72; 119])
             Sample.greeting
             [123; 34; 109; 101; 115; 115; 97; 103; 101; 34; 58; 34; 72; 101;
              108; 108; 111; 32; 119; 111; 114; 108; 100; 33; 34; 125]
             (VNum 1) Sample.dice Sample.letter1).
    + vm_compute. reflexivity.
    + vm_compute. reflexivity.
    + eexists. vm_compute. reflexivity.
    + exists [72; 119]. split; reflexivity.
    + discriminate.
    + reflexivity.
    + vm_compute. reflexivity.
    + unfold binary. repeat constructor; lia.
    + vm_compute. reflexivity.
  - apply (decryptObject_encryptObject Sample.provider sample_lawful Sample.session
             (Sample.PublicKey [72; 119]) (Sample.PrivateKey [72; 119])
             Sample.greeting
             [123; 34; 109; 101; 115; 115; 97; 103; 101; 34; 58; 34; 72; 101;
              108; 108; 111; 32; 119; 111; 114; 108; 100; 33; 34; 125]
             VUndefined Sample.zeros Sample.letter2).
    + vm_compute. reflexivity.
    + vm_compute. reflexivity.
    + eexists. vm_compute. reflexivity.
    + exists [72; 119]. split; reflexivity.
    + discriminate.
    + reflexivity.
    + vm_compute. reflexivity.
    + unfold binary. repeat constructor; lia.
    + vm_compute. reflexivity.
Defined.

(** C1 as stated fails: the object [{ name: "š" }] is carried by JSON
    unchanged, its envelope is made, but it is decrypted to
    [{ name: "a" }]: the buffer keeps the low byte of every character. *)
Lemma decryptObject_encryptObject_wide :
  (exists text, JSON.stringify (VObj Sample.wide) = Some text
                /\ JSON.parse text = Some (VObj Sample.wide))
  /\ Crypto.hasKeyPair Sample.provider Sample.session = true
  /\ Crypto.encryptObject Sample.provider Sample.session (VObj Sample.wide)
                          (VNum 2) Sample.dice = Resolved Sample.wide_letter
  /\ Crypto.decryptObject Sample.provider Sample.session
       (VStr (Crypto.key Sample.wide_letter)) (VStr (Crypto.message Sample.wide_letter))
     = Resolved (VObj [(js "name", VStr [97])])
  /\ VObj [(js "name", VStr [97])] <> VObj Sample.wide.
Proof.
  split; [eexists; split; vm_compute; reflexivity|].
  split; [vm_compute; reflexivity|].
  split; [vm_compute; reflexivity|].
  split; [vm_compute; reflexivity|].
  discriminate.
Qed.

(** The empty object has an envelope, too, and its decryption is
    rejected with the error of [toObject]. *)
Lemma decryptObject_encryptObject_empty :
  Crypto.encryptObject Sample.provider Sample.session (VObj []) (VNum 2) Sample.dice
  = Resolved Sample.empty_letter
  /\ Crypto.decryptObject Sample.provider Sample.session
       (VStr (Crypto.key Sample.empty_letter)) (VStr (Crypto.message Sample.empty_letter))
     = Rejected (Error "BufferTools.toObject(): Invalid arguments").
Proof. split; vm_compute; reflexivity. Qed.

Lemma parse_members_object (fuel : nat) (s : jsstr) (acc : list (jsstr * value))
  (v : value) (rest : jsstr) :
  JSON.parse_members fuel s acc = Some (v, rest) -> exists m, v = VObj m.
Proof.
  revert s acc. induction fuel as [|fuel IH]; intros s acc; [discriminate|].
  cbn [JSON.parse_members].
  destruct (JSON.skip_ws s) as [|q s1]; [discriminate|].
  destruct (q =? JSON.ch_quote); [|discriminate].
  destruct (JSON.parse_string_body s1) as [[k s2]|]; [|discriminate].
  destruct (JSON.skip_ws s2) as [|c s3]; [discriminate|].
  destruct (c =? JSON.ch_colon); [|discriminate].
  destruct (JSON.parse_value fuel s3) as [[x r]|]; [|discriminate].
  destruct (JSON.skip_ws r) as [|c' r']; [discriminate|].
  destruct (c' =? JSON.ch_comma); [apply IH|].
  destruct (c' =? ch_rbrace); [|discriminate].
  intros [= <- _]. eauto.
Qed.

(** A text that begins with a brace is read as an object, or not at all. *)
Lemma parse_brace_object (rest : jsstr) (v : value) :
  JSON.parse (ch_lbrace :: rest) = Some v -> exists m, v = VObj m.
Proof.
  unfold JSON.parse.
  replace (2 * length (ch_lbrace :: rest) + 2)%nat
    with (S (2 * length rest + 3)) by (cbn [length]; lia).
  cbn [JSON.parse_value]. change (JSON.skip_ws (ch_lbrace :: rest)) with (ch_lbrace :: rest).
  cbv iota. rewrite Z.eqb_refl.
  destruct (JSON.skip_ws rest) as [|c' r']; [discriminate|].
  destruct (c' =? ch_rbrace).
  - destruct (JSON.skip_ws r'); [|discriminate]. intros [= <-]. eauto.
  - destruct (JSON.parse_members _ _ _) as [[x r]|] eqn:E; [|discriminate].
    destruct (JSON.skip_ws r); [|discriminate]. intros [= <-].
    eapply parse_members_object, E.
Qed.

Lemma match_braces_brace (s text : jsstr) :
  match_braces s = Some text -> exists rest, text = ch_lbrace :: rest.
Proof.
  unfold match_braces.
  destruct (drop_while _ s) as [|c after]; [discriminate|].
  destruct (drop_while _ (rev after)) as [|c' rinner]; [discriminate|].
  destruct (rev rinner); [discriminate|].
  destruct (forallb _ _); [|discriminate].
  intros [= <-]. eauto.
Qed.

(** [toObject] returns an object or throws a plain [Error]. *)
Lemma toObject_object (dataBuffer : buffer) (v : value) :
  BufferTools.toObject dataBuffer = Ok v -> exists m, v = VObj m.
Proof.
  unfold BufferTools.toObject.
  destruct (match_braces _) as [text|] eqn:E; [|discriminate].
  apply match_braces_brace in E as [rest ->].
  destruct (JSON.parse _) as [o|] eqn:Ep; [|discriminate].
  intros [= <-]. eapply parse_brace_object, Ep.
Qed.

Lemma toObject_error (dataBuffer : buffer) (e : JsError) :
  BufferTools.toObject dataBuffer = Throw e -> err_name e = "Error"%string.
Proof.
  unfold BufferTools.toObject.
  destruct (match_braces _) as [text|]; [|intros [= <-]; reflexivity].
  destruct (JSON.parse _); [discriminate|]. intros [= <-]. reflexivity.
Qed.



(** The private key of another key-pair: the provider fails with an
    [OperationError], and the call resolves with [false]. *)
Example decryptObject_other_key :
  Crypto.decryptObject Sample.provider Sample.stranger
    (VStr (Crypto.key Sample.letter2)) (VStr (Crypto.message Sample.letter2))
  = Resolved (VBool false)
  /\ Crypto.decryptObject Sample.provider Sample.fresh
       (VStr (Crypto.key Sample.letter2)) (VStr (Crypto.message Sample.letter2))
     = Rejected (Error "Crypto: The private key is missing, decryption is not available.")
  /\ Crypto.decryptObject Sample.provider Sample.session
       (VStr (Crypto.key Sample.letter2)) (VStr (js "3$AAAA"))
     = Rejected Crypto.InvalidArguments
  /\ Crypto.decryptObject Sample.provider Sample.session
       VNull (VStr (Crypto.message Sample.letter2))
     = Rejected Crypto.InvalidArguments.
Proof. repeat split; vm_compute; reflexivity. Qed.

(** ** C5: the session after a failed load or import *)

Lemma clear_keys_null (W : WebCrypto) (this : Crypto.t W) :
  keys_null (Crypto.clear_keys W this).
Proof. repeat split. Qed.

(** C5, as the code has it: [loadKeyPair] that finds no record, and
    [importPublicKey] whose import fails, leave the four fields [null];
    [importPublicKey] that rejects its argument, and [importPrivateKey]
    that does not resolve with [true], leave the session as it was, and
    so with four fields [null] if it had them. *)
Theorem failed_load_or_import (W : WebCrypto) (this : Crypto.t W) (db : Database W) :
  (Crypto.unavailable W this db = false ->
   items db !! (default [] (databaseName db), Crypto.accessPath W this) = None ->
   fst (fst (Crypto.loadKeyPair W this db)) = Resolved tt
   /\ keys_null (snd (fst (Crypto.loadKeyPair W this db))))
  /\ (forall keyString e,
         fst (Crypto.importPublicKey W keyString this) = Rejected e ->
         match keyString with
         | VStr ((_ :: _) as s) =>
           if bool_decide (take 16 s = Crypto.public_prefix)
           then importKey_jwk W (Crypto.publicJWK (drop 16 s)) true Encrypt = Throw e
                /\ keys_null (snd (Crypto.importPublicKey W keyString this))
           else snd (Crypto.importPublicKey W keyString this) = this
         | _ => snd (Crypto.importPublicKey W keyString this) = this
         end)
  /\ (forall pKeyString exportPassword,
         fst (fst (Crypto.importPrivateKey W pKeyString exportPassword this db))
         <> Resolved true ->
         snd (fst (Crypto.importPrivateKey W pKeyString exportPassword this db)) = this
         /\ snd (Crypto.importPrivateKey W pKeyString exportPassword this db) = db
         /\ (keys_null this ->
             keys_null
               (snd (fst (Crypto.importPrivateKey W pKeyString exportPassword this db))))).
Proof.
  split; [|split].
  - intros Ha Hnone. unfold Crypto.loadKeyPair. rewrite Ha.
    unfold readItem, record_key, open. cbn [items databaseName].
    cbn [Crypto.clear_keys Crypto.accessPath].
    match goal with
    | |- context [match ?x with Some _ => _ | None => _ end] =>
      replace x with (@None (KeyBundle W)) by (symmetry; exact Hnone)
    end.
    cbn [fst snd]. split; [reflexivity | apply clear_keys_null].
  - intros keyString e. unfold Crypto.importPublicKey.
    destruct keyString as [ | | | | [|c s] | | ]; try reflexivity.
    destruct (bool_decide (take 16 (c :: s) = Crypto.public_prefix));
      cbn [negb]; [|reflexivity].
    destruct (importKey_jwk W _ true Encrypt) as [k|e']; cbn [fst snd].
    + discriminate.
    + intros [= <-]. split; [reflexivity | apply clear_keys_null].
  - intros pKeyString exportPassword.
    assert (H : fst (fst (Crypto.importPrivateKey W pKeyString exportPassword this db))
                <> Resolved true ->
                snd (fst (Crypto.importPrivateKey W pKeyString exportPassword this db))
                = this
                /\ snd (Crypto.importPrivateKey W pKeyString exportPassword this db) = db).
    { unfold Crypto.importPrivateKey.
      destruct pKeyString as [ | | | | k | | ]; try (intros _; split; reflexivity).
      destruct exportPassword as [ | | | | [|c p] | | ];
        try (intros _; split; reflexivity).
      destruct (negb _); [intros _; split; reflexivity|].
      destruct (Crypto.unavailable W this db); [intros _; split; reflexivity|].
      destruct (Crypto.decryptData W _ _) as [[text|]|e|e];
        try (intros _; split; reflexivity).
      match goal with
      | |- context [match ?ch with Ok _ => _ | Throw _ => _ end] => destruct ch
      end; cbn [fst snd]; [congruence | intros _; split; reflexivity]. }
    intros Hf. destruct (H Hf) as [E1 E2]. rewrite E1, E2. auto.
Qed.

(** [importPrivateKey] on an export string that [decryptData] does not
    open. *)
Lemma importPrivateKey_not_opened (W : WebCrypto) (pKeyString password : jsstr)
  (this : Crypto.t W) (db : Database W) :
  password <> [] ->
  take 16 pKeyString = Crypto.private_prefix ->
  Crypto.unavailable W this db = false ->
  Crypto.decryptData W (VStr (drop 16 pKeyString)) (VStr password) = Resolved None ->
  Crypto.importPrivateKey W (VStr pKeyString) (VStr password) this db
  = (Resolved false, this, db).
Proof.
  intros Hp Hk Ha Hd. unfold Crypto.importPrivateKey.
  destruct password as [|c p]; [contradiction|].
  rewrite bool_decide_eq_true_2 by exact Hk. cbn [negb].
  rewrite Ha, Hd. reflexivity.
Qed.

(** C5 as stated fails: on a session that holds a key-pair,
    [importPrivateKey] of its export string with a wrong password
    resolves with [false] and leaves the four fields as they were, none
    of them [null]; with the password of the export it resolves with
    [true]. *)
Lemma importPrivateKey_wrong_password_keeps_keys :
  fst (fst (Crypto.importPrivateKey Sample.provider (VStr Sample.export)
                                    (VStr (js "s3cr3t")) Sample.session Sample.store))
  = Resolved true
  /\ Crypto.importPrivateKey Sample.provider (VStr Sample.export) (VStr (js "wrong"))
                             Sample.session Sample.store
     = (Resolved false, Sample.session, Sample.store)
  /\ Crypto.hasKeyPair Sample.provider Sample.session = true
  /\ is_Some (Crypto.publicKey Sample.provider Sample.session)
  /\ is_Some (Crypto.privateKey Sample.provider Sample.session)
  /\ is_Some (Crypto.publicKeyExport Sample.provider Sample.session)
  /\ is_Some (Crypto.privateKeyExport Sample.provider Sample.session)
  /\ ~ keys_null Sample.session.
Proof.
  split; [vm_compute; reflexivity|].
  split; [apply importPrivateKey_not_opened; vm_compute; congruence|].
  split; [vm_compute; reflexivity|].
  do 4 (split; [vm_compute; eexists; reflexivity|]).
  intros [H _]. vm_compute in H. discriminate H.
Qed.

(** [importPublicKey] with a string of another form rejects and leaves
    the key-pair of the session, too. *)
Example importPublicKey_other_form_keeps_keys :
  Crypto.importPublicKey Sample.provider (VStr (js "$ceph2-publ$jwk$Hw")) Sample.session
  = (Rejected Crypto.InvalidArguments, Sample.session).
Proof. reflexivity. Qed.

Lemma failed_load_or_import_witness :
  keys_null (snd (fst (Crypto.loadKeyPair Sample.provider Sample.session
                                          Sample.empty_store)))
  /\ keys_null (snd (Crypto.importPublicKey Sample.provider
                                            (VStr Crypto.public_prefix) Sample.session))
  /\ keys_null
       (snd (fst (Crypto.importPrivateKey
                    Sample.provider
                    (VStr Sample.export)
                    (VStr (js "wrong")) Sample.fresh Sample.store))).
Proof.
  split; [|split].
  - apply (failed_load_or_import Sample.provider Sample.session Sample.empty_store);
      reflexivity.
  - assert (E : fst (Crypto.importPublicKey Sample.provider (VStr Crypto.public_prefix)
                                            Sample.session)
                = Rejected Sample.DataError) by (vm_compute; reflexivity).
    apply (proj1 (proj2 (failed_load_or_import Sample.provider Sample.session
                                               Sample.empty_store))) in E.
    vm_compute in E. destruct E as [_ E]. exact E.
  - apply (proj2 (proj2 (failed_load_or_import Sample.provider Sample.fresh
                                               Sample.store))).
    + vm_compute. discriminate.
    + repeat split.
Defined.

(** ** C9: a private key comes with its public key *)

Section Pairing.
Context (W : WebCrypto) (HW : Lawful W).

Lemma paired_no_private (pub : option (CryptoKey W)) (pubE : option jsstr) :
  paired W pub None pubE.
Proof. intros k [=]. Qed.

Lemma paired_keys (p k : CryptoKey W) :
  modulus W p = modulus W k ->
  paired W (Some p) (Some k) (Some (Crypto.public_prefix ++ modulus W p)).
Proof. intros Hm k' [= <-]. exists p. auto. Qed.

Lemma paired_or_null (pub priv : option (CryptoKey W)) (pubE : option jsstr) :
  paired W pub priv pubE -> paired W pub priv (Crypto.or_null pubE).
Proof.
  intros H k Hk. destruct (H k Hk) as [p [Hp [Hm ->]]].
  exists p. split; [exact Hp|]. split; [exact Hm|]. reflexivity.
Qed.

Lemma session_paired_clear_keys (this : Crypto.t W) :
  session_paired (Crypto.clear_keys W this).
Proof. apply paired_no_private. Qed.

Lemma store_paired_open (db : Database W) :
  store_paired db -> store_paired (open W db).
Proof. intros H. exact H. Qed.

Lemma store_paired_writeItem (key : jsstr) (keys : KeyBundle W) (db : Database W) :
  paired W (public keys) (private keys) (publicExport keys) ->
  store_paired db -> store_paired (writeItem key keys db).
Proof.
  intros Hk Hdb key' keys'. unfold writeItem. cbn [items].
  intros [[_ <-] | [_ H]]%lookup_insert_Some; [exact Hk | exact (Hdb _ _ H)].
Qed.

Lemma store_paired_removeItem (key : jsstr) (db : Database W) :
  store_paired db -> store_paired (removeItem key db).
Proof.
  intros Hdb key' keys'. unfold removeItem. cbn [items].
  intros [_ H]%lookup_delete_Some. exact (Hdb _ _ H).
Qed.

Lemma store_paired_init (name store : jsstr) (db db' : Database W) :
  init name store db = Ok db' -> store_paired db -> store_paired db'.
Proof.
  unfold init. destruct (_ && _); [discriminate|]. intros [= <-] H. exact H.
Qed.

Lemma drop_public_prefix (n : jsstr) : drop 16 (Crypto.public_prefix ++ n) = n.
Proof. reflexivity. Qed.

(** The bundle that [generateKeyPair] writes. *)
Lemma generateKeyPair_paired (exportPassword : value) (r : rng)
  (this : Crypto.t W) (db : Database W) :
  session_paired this -> store_paired db ->
  session_paired (snd (fst (Crypto.generateKeyPair W exportPassword r this db)))
  /\ store_paired (snd (Crypto.generateKeyPair W exportPassword r this db)).
Proof.
  intros Hs Hdb. unfold Crypto.generateKeyPair.
  destruct (_ && _); [auto|].
  destruct (Crypto.unavailable W this db); [auto|].
  destruct (generateKey_rsa W _ r) as [[pub generated]|] eqn:Eg;
    cbn [mbind result_bind fst snd];
    [|split; [apply session_paired_clear_keys | exact Hdb]].
  destruct (generated_pair W HW _ _ _ _ Eg) as [_ Hm].
  destruct (negb (is_nullish (default_arg exportPassword VNull))).
  - destruct (exportKey_jwk W generated) as [privateKeyJWK|] eqn:Ex;
      cbn [mbind result_bind fst snd];
      [|split; [apply session_paired_clear_keys | exact Hdb]].
    destruct (exportKey_jwk W pub) as [jwk|] eqn:Ep;
      cbn [mbind result_bind fst snd];
      [|split; [apply session_paired_clear_keys | exact Hdb]].
    rewrite (exported_modulus W HW _ _ Ep). cbn [mbind result_bind to_string].
    destruct (importKey_jwk W privateKeyJWK false Decrypt) as [priv|] eqn:Ei;
      cbn [mbind result_bind fst snd];
      [|split; [apply session_paired_clear_keys | exact Hdb]].
    assert (Hp : modulus W pub = modulus W priv).
    { destruct (imported_modulus W HW _ _ _ _ Ei) as [n [Hn <-]].
      rewrite (exported_modulus W HW _ _ Ex) in Hn. injection Hn as <-.
      exact Hm. }
    destruct (Crypto.as_result _) as [enc|];
      cbn [mbind result_bind fst snd public private publicExport privateExport];
      [|split; [apply session_paired_clear_keys | exact Hdb]].
    split; [apply paired_keys, Hp|].
    apply store_paired_writeItem; [apply paired_keys, Hp | exact Hdb].
  - cbn [mbind result_bind fst snd].
    destruct (exportKey_jwk W pub) as [jwk|] eqn:Ep;
      cbn [mbind result_bind fst snd];
      [|split; [apply session_paired_clear_keys | exact Hdb]].
    rewrite (exported_modulus W HW _ _ Ep).
    cbn [mbind result_bind to_string fst snd public private publicExport privateExport].
    split; [apply paired_keys, Hm|].
    apply store_paired_writeItem; [apply paired_keys, Hm | exact Hdb].
Qed.

Lemma loadKeyPair_paired (this : Crypto.t W) (db : Database W) :
  session_paired this -> store_paired db ->
  session_paired (snd (fst (Crypto.loadKeyPair W this db)))
  /\ store_paired (snd (Crypto.loadKeyPair W this db)).
Proof.
  intros Hs Hdb. unfold Crypto.loadKeyPair.
  destruct (Crypto.unavailable W this db); [auto|].
  unfold readItem.
  match goal with
  | |- context [match ?x with Some _ => _ | None => _ end] => destruct x as [keys|] eqn:E
  end; cbn [fst snd].
  - split; [|exact Hdb]. apply paired_or_null. exact (Hdb _ _ E).
  - split; [apply session_paired_clear_keys | exact Hdb].
Qed.

Lemma importPublicKey_paired (keyString : value) (this : Crypto.t W) :
  session_paired this ->
  session_paired (snd (Crypto.importPublicKey W keyString this)).
Proof.
  intros Hs. unfold Crypto.importPublicKey.
  destruct keyString as [ | | | | [|c s] | | ]; try exact Hs.
  destruct (negb _); [exact Hs|].
  destruct (importKey_jwk W _ true Encrypt); apply paired_no_private.
Qed.

Lemma importPrivateKey_paired (pKeyString exportPassword : value)
  (this : Crypto.t W) (db : Database W) :
  session_paired this -> store_paired db ->
  session_paired
    (snd (fst (Crypto.importPrivateKey W pKeyString exportPassword this db)))
  /\ store_paired (snd (Crypto.importPrivateKey W pKeyString exportPassword this db)).
Proof.
  intros Hs Hdb. unfold Crypto.importPrivateKey.
  destruct pKeyString as [ | | | | k | | ]; try (split; assumption).
  destruct exportPassword as [ | | | | [|c p] | | ]; try (split; assumption).
  destruct (negb _); [split; assumption|].
  destruct (Crypto.unavailable W this db); [split; assumption|].
  destruct (Crypto.decryptData W _ _) as [[text|]|e|e]; try (split; assumption).
  destruct (Crypto.parse_or_throw text) as [privateKeyJWK|];
    cbn [mbind result_bind fst snd]; [|split; assumption].
  destruct (get_member (js "n") privateKeyJWK) as [n|] eqn:En;
    cbn [mbind result_bind fst snd]; [|split; assumption].
  destruct (importKey_jwk W privateKeyJWK false Decrypt) as [priv|] eqn:Ei;
    cbn [mbind result_bind fst snd]; [|split; assumption].
  rewrite drop_public_prefix.
  destruct (importKey_jwk W _ true Encrypt) as [pub|] eqn:Eu;
    cbn [mbind result_bind fst snd public private publicExport privateExport];
    [|split; assumption].
  destruct (imported_modulus W HW _ _ _ _ Ei) as [n' [Hn' Hpriv]].
  rewrite En in Hn'. injection Hn' as <-.
  destruct (imported_modulus W HW _ _ _ _ Eu) as [m [Hm Hpub]].
  cbn in Hm. injection Hm as <-. cbn [to_string] in Hpub.
  assert (Hp : modulus W pub = modulus W priv) by congruence.
  rewrite Hpub.
  split; [apply paired_keys, Hp|].
  apply store_paired_writeItem; [apply paired_keys, Hp | exact Hdb].
Qed.

Lemma removeKeyPair_paired (this : Crypto.t W) (db : Database W) :
  session_paired this -> store_paired db ->
  session_paired (snd (fst (Crypto.removeKeyPair W this db)))
  /\ store_paired (snd (Crypto.removeKeyPair W this db)).
Proof.
  intros Hs Hdb. unfold Crypto.removeKeyPair.
  destruct (Crypto.unavailable W this db); [auto|]. cbn [fst snd].
  split; [apply session_paired_clear_keys | apply store_paired_removeItem, Hdb].
Qed.

Lemma setAccessPath_paired (path : value) (this this' : Crypto.t W) :
  Crypto.setAccessPath W path this = Ok this' ->
  session_paired this -> session_paired this'.
Proof.
  unfold Crypto.setAccessPath.
  destruct path as [ | | | | [|c p] | | ]; try discriminate.
  intros [= <-] H. exact H.
Qed.

Lemma constructor_paired (name : value) (db db' : Database W) (this : Crypto.t W) :
  Crypto.constructor W name db = Ok (this, db') ->
  store_paired db -> session_paired this /\ store_paired db'.
Proof.
  unfold Crypto.constructor.
  destruct (default_arg name VNull) as [ | | | | [|c s] | | ]; try discriminate.
  - intros [= <- <-] H. split; [apply paired_no_private | exact H].
  - destruct (init _ _ db) as [d|] eqn:E; [|discriminate].
    cbn [mbind result_bind]. intros [= <- <-] H.
    split; [apply paired_no_private | exact (store_paired_init _ _ _ _ E H)].
Qed.

Lemma step_paired (s s' : Crypto.t W * Database W) :
  step s s' ->
  session_paired (fst s) /\ store_paired (snd s) ->
  session_paired (fst s') /\ store_paired (snd s').
Proof.
  intros Hstep [Hs Hdb]. destruct Hstep; cbn [fst snd] in *.
  - apply generateKeyPair_paired; assumption.
  - apply loadKeyPair_paired; assumption.
  - split; [apply importPublicKey_paired|]; assumption.
  - apply importPrivateKey_paired; assumption.
  - apply removeKeyPair_paired; assumption.
  - split; [eapply setAccessPath_paired; eassumption | assumption].
  - eapply constructor_paired; eassumption.
Qed.

Lemma reachable_paired (s : Crypto.t W * Database W) :
  reachable s -> session_paired (fst s) /\ store_paired (snd s).
Proof.
  induction 1 as [name this db Hc | s s' _ IH Hstep].
  - apply (constructor_paired name (blank_database W)); [exact Hc|].
    intros key keys. cbn [items blank_database].
    rewrite lookup_empty. discriminate.
  - exact (step_paired _ _ Hstep IH).
Qed.

End Pairing.

(** C9: in every state that the calls on the sessions of a page lead to,
    [hasKeyPair()] implies [hasPublicKey()], and a session with a private
    key holds the public key of the same modulus together with the string
    of that public key; in particular [hasPublicKey()] is true of it. *)
Theorem hasKeyPair_hasPublicKey (W : WebCrypto) (HW : Lawful W)
  (s : Crypto.t W * Database W) :
  reachable s ->
  (Crypto.hasKeyPair W (fst s) = true -> Crypto.hasPublicKey W (fst s) = true)
  /\ (forall priv, Crypto.privateKey W (fst s) = Some priv ->
      exists pub, Crypto.publicKey W (fst s) = Some pub
                  /\ modulus W pub = modulus W priv
                  /\ Crypto.publicKeyExport W (fst s)
                     = Some (Crypto.public_prefix ++ modulus W pub)
                  /\ Crypto.hasPublicKey W (fst s) = true
                  /\ Crypto.hasKeyPair W (fst s) = true).
Proof.
  intros Hr. split.
  - unfold Crypto.hasKeyPair, Crypto.hasPublicKey.
    intros H. apply andb_prop in H as [H _]. exact H.
  - intros priv Hpriv.
    destruct (reachable_paired W HW s Hr) as [Hs _].
    destruct (Hs priv Hpriv) as [pub [Hpub [Hm He]]].
    exists pub. unfold Crypto.hasPublicKey, Crypto.hasKeyPair.
    rewrite Hpub, He, Hpriv. repeat split; auto.
Qed.

Lemma hasKeyPair_hasPublicKey_witness :
  reachable (Sample.session, Sample.store)
  /\ Crypto.hasKeyPair Sample.provider Sample.session = true
  /\ Crypto.hasPublicKey Sample.provider Sample.session = true.
Proof.
  assert (R : reachable (Sample.session, Sample.store)).
  { apply (reachable_step _ (Sample.fresh, Sample.empty_store)).
    - apply (reachable_new _ (VStr (js "db"))). reflexivity.
    - apply (step_generateKeyPair _ (VStr (js "s3cr3t")) Sample.dice
                                  Sample.fresh Sample.empty_store). }
  split; [exact R|]. split; [vm_compute; reflexivity|].
  apply (hasKeyPair_hasPublicKey Sample.provider sample_lawful _ R).
  vm_compute. reflexivity.
Defined.

(** A longer life of a session: the key-pair is generated, removed,
    imported again from its export string and loaded by a second session
    object; a private key is held with its public key throughout. *)
Example session_life :
  let s1 := (Sample.session, Sample.store) in
  let s2 := (snd (fst (Crypto.removeKeyPair Sample.provider (fst s1) (snd s1))),
             snd (Crypto.removeKeyPair Sample.provider (fst s1) (snd s1))) in
  let s3 := (snd (fst (Crypto.importPrivateKey Sample.provider (VStr Sample.export)
                                               (VStr (js "s3cr3t")) (fst s2) (snd s2))),
             snd (Crypto.importPrivateKey Sample.provider (VStr Sample.export)
                                          (VStr (js "s3cr3t")) (fst s2) (snd s2))) in
  let s4 := (Sample.fresh, snd s3) in
  let s5 := (snd (fst (Crypto.loadKeyPair Sample.provider (fst s4) (snd s4))),
             snd (Crypto.loadKeyPair Sample.provider (fst s4) (snd s4))) in
  Crypto.hasKeyPair Sample.provider (fst s2) = false
  /\ Crypto.hasKeyPair Sample.provider (fst s3) = true
  /\ Crypto.hasKeyPair Sample.provider (fst s5) = true
  /\ Crypto.publicKeyExport Sample.provider (fst s5)
     = Crypto.publicKeyExport Sample.provider Sample.session.
Proof. vm_compute. repeat split. Qed.

(** ** The envelope strings of [src/crypto.js] *)

(** The earlier [encryptData] returns the bare form for version 1 and
    for version 2 alike. *)
Lemma legacy_encryptData_bare (W : WebCrypto) (d : jsstr) (c : Z) (p : jsstr)
  (version : value) (r : rng) (s : jsstr) :
  Legacy.encryptData W (VStr d) (VStr (c :: p)) version r = Resolved s ->
  exists (ivBytes : nat) (payload : buffer),
    ((default_arg version (VNum 2) = VNum 1 /\ ivBytes = 16%nat)
     \/ (default_arg version (VNum 2) = VNum 2 /\ ivBytes = 12%nat))
    /\ s = bare_envelope (getRandomValues ivBytes r) payload.
Proof.
  unfold Legacy.encryptData.
  destruct (Crypto.cipher_of_version (default_arg version (VNum 2)))
    as [[sAlgo ivBytes]|] eqn:Hv; [|discriminate].
  fold (data_object d). rewrite encryptData_plain.
  destruct (importKey_raw W _ sAlgo) as [sKey|]; [|discriminate].
  cbn [mbind result_bind].
  destruct (encrypt_aes W sAlgo _ sKey _) as [encryptedBuffer|]; [|discriminate].
  cbn [mbind result_bind settle]. intros [= <-].
  exists ivBytes, encryptedBuffer. split; [|reflexivity].
  apply cipher_of_version_inv in Hv as [[-> [_ ->]] | [-> [_ ->]]]; auto.
Qed.

(** What the bundled [decryptData] makes of a string without a version
    is what the earlier one makes of it with the version 1. *)
Lemma decryptData_legacy (W : WebCrypto) (e : jsstr) (password : value) :
  (32 <= length e)%nat -> match_version e = None ->
  Crypto.decryptData W (VStr e) password = Legacy.decryptData W (VStr e) password (VNum 1).
Proof.
  intros Hlen Hm. unfold Crypto.decryptData, Legacy.decryptData, Crypto.split_version.
  rewrite Hm. cbn [default_arg].
  destruct e as [|x e]; [cbn in Hlen; lia|].
  destruct password as [ | | | | [|c p] | | ]; try reflexivity.
  apply Nat.ltb_ge in Hlen. rewrite Hlen. reflexivity.
Qed.

Example legacy_encryptData_version2 :
  exists s, Legacy.encryptData Sample.provider (VStr (js "secret")) (VStr (js "ab"))
                               (VNum 2) Sample.dice = Resolved s
            /\ forallb is_hex s = true.
Proof. eexists. split; vm_compute; reflexivity. Qed.

(* ================================================================== *)
(** * Part III: further properties of the code                         *)
(* ================================================================== *)

(** ** BufferTools: the conversions *)

Lemma hex_digit_lower (d : Z) :
  0 <= d < 16 -> is_lower_hex (BufferTools.hex_digit d) = true.
Proof.
  intros Hd. unfold is_lower_hex, BufferTools.hex_digit.
  destruct (Z.ltb_spec d 10); lia.
Qed.

Lemma toHex_lower (b : buffer) : forallb is_lower_hex (BufferTools.toHex b) = true.
Proof.
  induction b as [|x b IH]; [reflexivity|].
  pose proof (Z_of_byte_range x) as Hx.
  cbn [BufferTools.toHex forallb].
  rewrite !hex_digit_lower, IH; [reflexivity | |].
  - apply Z.mod_pos_bound. lia.
  - split; [apply Z.div_pos; lia | apply Z.div_lt_upper_bound; lia].
Qed.

(** X1: [fromHex] reverts [toHex] on every buffer; the text of [toHex]
    has two digits for every byte, all of them in lower case. *)
Theorem toHex_roundtrip (b : buffer) :
  BufferTools.fromHex (BufferTools.toHex b) = Ok b
  /\ length (BufferTools.toHex b) = (2 * length b)%nat
  /\ forallb is_lower_hex (BufferTools.toHex b) = true.
Proof.
  split; [apply fromHex_toHex|]. split; [apply length_toHex | apply toHex_lower].
Qed.

Lemma hex_value_lower (c d : Z) :
  BufferTools.hex_value c = Some d ->
  0 <= d < 16 /\ BufferTools.hex_digit d = ascii_lower c.
Proof.
  unfold BufferTools.hex_value, BufferTools.hex_digit, ascii_lower.
  destruct (Z.leb_spec 48 c), (Z.leb_spec c 57); cbn [andb];
    try (intros [= <-]; destruct (Z.ltb_spec (c - 48) 10),
           (Z.leb_spec 65 c), (Z.leb_spec c 90); cbn [andb]; lia).
  all: destruct (Z.leb_spec 97 c), (Z.leb_spec c 102); cbn [andb];
    try (intros [= <-]; destruct (Z.ltb_spec (c - 97 + 10) 10),
           (Z.leb_spec 65 c), (Z.leb_spec c 90); cbn [andb]; lia).
  all: destruct (Z.leb_spec 65 c), (Z.leb_spec c 70); cbn [andb];
    try discriminate;
    try (intros [= <-]; destruct (Z.ltb_spec (c - 65 + 10) 10),
           (Z.leb_spec c 90); cbn [andb]; lia).
Qed.

Lemma toHex_byte_of_pair (d1 d2 : Z) :
  0 <= d1 < 16 -> 0 <= d2 < 16 ->
  Z_of_byte (byte_of_Z (16 * d1 + d2)) / 16 = d1
  /\ Z_of_byte (byte_of_Z (16 * d1 + d2)) mod 16 = d2.
Proof.
  intros H1 H2. rewrite Z_of_byte_of_Z_small by lia.
  split; [symmetry; apply Z.div_unique with d2; lia
         | symmetry; apply Z.mod_unique with d1; lia].
Qed.

(** X2: [fromHex] accepts exactly the strings of an even number of
    hexadecimal digits, of either case, and throws its error on every
    other string; [toHex] of the bytes it returns is the string in lower
    case. *)
Theorem fromHex_cases (s : jsstr) :
  match BufferTools.fromHex s with
  | Ok b =>
    Nat.even (length s) = true /\ forallb is_hex s = true
    /\ (2 * length b)%nat = length s
    /\ BufferTools.toHex b = map ascii_lower s
  | Throw e =>
    e = BufferTools.fromHex_error
    /\ (Nat.even (length s) = false \/ forallb is_hex s = false)
  end.
Proof.
  induction s as [|c1|c1 c2 s IH] using list_ind3_pairs.
  - cbn. auto.
  - cbn. auto.
  - cbn [BufferTools.fromHex forallb length map].
    change (Nat.even (S (S (length s)))) with (Nat.even (length s)).
    destruct (BufferTools.hex_value c1) as [d1|] eqn:E1.
    2: { split; [reflexivity | right]. unfold is_hex at 1. rewrite E1. reflexivity. }
    destruct (BufferTools.hex_value c2) as [d2|] eqn:E2.
    2: { split; [reflexivity | right]. unfold is_hex at 2. rewrite E2.
         apply andb_false_r. }
    assert (H1 : is_hex c1 = true) by (unfold is_hex; rewrite E1; reflexivity).
    assert (H2 : is_hex c2 = true) by (unfold is_hex; rewrite E2; reflexivity).
    rewrite H1, H2. cbn [andb].
    destruct (hex_value_lower _ _ E1) as [R1 L1].
    destruct (hex_value_lower _ _ E2) as [R2 L2].
    destruct (BufferTools.fromHex s) as [b|e].
    + destruct IH as [He [Hh [Hl Ht]]]. cbn [length BufferTools.toHex].
      destruct (toHex_byte_of_pair d1 d2 R1 R2) as [-> ->].
      rewrite L1, L2, Ht. repeat split; auto. lia.
    + destruct IH as [-> [Ho | Hh]]; auto.
Qed.

(** X3: [fromAscii] reverts [toAscii] on every buffer; [toAscii] after
    [fromAscii] keeps of every character its code modulo 256, so that it
    gives the string back exactly when the string is a binary one. *)
Theorem ascii_roundtrip (b : buffer) (s : jsstr) :
  BufferTools.fromAscii (BufferTools.toAscii b) = b
  /\ length (BufferTools.fromAscii s) = length s
  /\ BufferTools.toAscii (BufferTools.fromAscii s) = map (fun c => c mod 256) s
  /\ (BufferTools.toAscii (BufferTools.fromAscii s) = s <-> binary s).
Proof.
  split; [apply fromAscii_toAscii|].
  split; [apply length_map|].
  assert (E : BufferTools.toAscii (BufferTools.fromAscii s)
              = map (fun c => c mod 256) s).
  { unfold BufferTools.toAscii, BufferTools.fromAscii. rewrite map_map.
    apply map_ext. intros c. apply Z_of_byte_of_Z. }
  split; [exact E|]. split.
  - intros H. rewrite <- H. apply toAscii_binary.
  - apply toAscii_fromAscii.
Qed.

Lemma relative_index_range (len pos : Z) :
  0 <= len -> (BufferTools.relative_index len pos <= Z.to_nat len)%nat.
Proof.
  intros Hl. unfold BufferTools.relative_index.
  destruct (Z.ltb_spec pos 0); lia.
Qed.

(** X4: [splitInTwo] cuts at the position, counted from the end when it
    is negative and clamped to the buffer when it is out of range, and
    [concat] of the two parts is the buffer, whatever the position. *)
Theorem splitInTwo_positions (a b : buffer) (x : byte) (n : nat) (k : Z) :
  BufferTools.splitInTwo (a ++ b) (Z.of_nat (length a)) = (a, b)
  /\ BufferTools.splitInTwo (a ++ x :: b) (- Z.of_nat (length (x :: b))) = (a, x :: b)
  /\ BufferTools.splitInTwo a (- Z.of_nat (length a + n)) = ([], a)
  /\ BufferTools.splitInTwo a (Z.of_nat (length a + n)) = (a, [])
  /\ BufferTools.concat [fst (BufferTools.splitInTwo a k);
                         snd (BufferTools.splitInTwo a k)] = Ok a.
Proof.
  split; [apply splitInTwo_app|]. split; [|split; [|split]].
  - unfold BufferTools.splitInTwo, BufferTools.relative_index.
    rewrite length_app. cbn [length].
    destruct (Z.ltb_spec (- Z.of_nat (S (length b))) 0); [|lia].
    replace (Z.to_nat (Z.max (Z.of_nat (length a + S (length b))
                              + - Z.of_nat (S (length b))) 0))
      with (length a) by lia.
    rewrite take_app_length, drop_app_length. reflexivity.
  - unfold BufferTools.splitInTwo, BufferTools.relative_index.
    destruct (Z.ltb_spec (- Z.of_nat (length a + n)) 0).
    + replace (Z.to_nat _) with 0%nat by lia. reflexivity.
    + replace (Z.to_nat _) with 0%nat by lia. reflexivity.
  - unfold BufferTools.splitInTwo, BufferTools.relative_index.
    destruct (Z.ltb_spec (Z.of_nat (length a + n)) 0); [lia|].
    replace (Z.to_nat _) with (length a) by lia.
    rewrite firstn_all, skipn_all. reflexivity.
  - unfold BufferTools.splitInTwo, BufferTools.concat. cbn [fst snd List.concat].
    rewrite app_nil_r, take_drop. reflexivity.
Qed.

Lemma toAscii_not_lbrace (l : buffer) :
  forallb not_lbrace l = true ->
  forallb (fun c => negb (c =? ch_lbrace)) (BufferTools.toAscii l) = true.
Proof.
  induction l as [|b l IH]; [reflexivity|].
  cbn [forallb BufferTools.toAscii map]. intros [Hb Hl]%andb_prop.
  fold (BufferTools.toAscii l). rewrite (IH Hl), andb_true_r.
  unfold not_lbrace in Hb. apply negb_true_iff in Hb.
  apply bool_decide_eq_false in Hb. apply negb_true_iff, Z.eqb_neq.
  intros E. apply Hb. apply (f_equal byte_of_Z) in E.
  rewrite byte_of_Z_of_byte in E. exact E.
Qed.

Lemma toAscii_not_rbrace (l : buffer) :
  forallb not_rbrace l = true ->
  forallb (fun c => negb (c =? ch_rbrace)) (BufferTools.toAscii l) = true.
Proof.
  induction l as [|b l IH]; [reflexivity|].
  cbn [forallb BufferTools.toAscii map]. intros [Hb Hl]%andb_prop.
  fold (BufferTools.toAscii l). rewrite (IH Hl), andb_true_r.
  unfold not_rbrace in Hb. apply negb_true_iff in Hb.
  apply bool_decide_eq_false in Hb. apply negb_true_iff, Z.eqb_neq.
  intros E. apply Hb. apply (f_equal byte_of_Z) in E.
  rewrite byte_of_Z_of_byte in E. exact E.
Qed.

(** What [match_braces] finds does not depend on what stands before
    the first opening and after the last closing brace. *)
Lemma match_braces_noise (before inner after : jsstr) :
  forallb (fun c => negb (c =? ch_lbrace)) before = true ->
  forallb (fun c => negb (c =? ch_rbrace)) after = true ->
  match_braces (before ++ (ch_lbrace :: inner ++ [ch_rbrace]) ++ after)
  = match_braces (ch_lbrace :: inner ++ [ch_rbrace]).
Proof.
  intros Hb Ha. unfold match_braces.
  change (before ++ (ch_lbrace :: inner ++ [ch_rbrace]) ++ after)
    with (before ++ ch_lbrace :: ((inner ++ [ch_rbrace]) ++ after)).
  rewrite (drop_while_stop _ before ch_lbrace) by (auto; reflexivity).
  cbn [drop_while]. change (negb (ch_lbrace =? ch_lbrace)) with false. cbn iota.
  rewrite !rev_app_distr. cbn [rev app].
  rewrite (drop_while_stop _ (rev after) ch_rbrace).
  - reflexivity.
  - apply forallb_rev. exact Ha.
  - reflexivity.
Qed.

Lemma toAscii_braced (inner : buffer) :
  BufferTools.toAscii (byte_of_Z ch_lbrace :: inner ++ [byte_of_Z ch_rbrace])
  = ch_lbrace :: BufferTools.toAscii inner ++ [ch_rbrace].
Proof.
  unfold BufferTools.toAscii. cbn [map]. rewrite map_app. reflexivity.
Qed.

(** X5: [toObject] ignores the noise: what stands before the opening
    brace of the text, if it holds no opening brace, and what stands
    after its closing brace, if it holds no closing brace, does not change
    the result, be it an object or an error. *)
Theorem toObject_ignores_noise (before inner after : buffer) :
  forallb not_lbrace before = true ->
  forallb not_rbrace after = true ->
  BufferTools.toObject
    (before ++ (byte_of_Z ch_lbrace :: inner ++ [byte_of_Z ch_rbrace]) ++ after)
  = BufferTools.toObject (byte_of_Z ch_lbrace :: inner ++ [byte_of_Z ch_rbrace]).
Proof.
  intros Hb Ha. unfold BufferTools.toObject.
  rewrite !toAscii_app, toAscii_braced.
  rewrite match_braces_noise;
    [reflexivity | apply toAscii_not_lbrace, Hb | apply toAscii_not_rbrace, Ha].
Qed.

Lemma toObject_ignores_noise_witness :
  forallb not_lbrace Tests.noise_before = true
  /\ forallb not_rbrace Tests.noise_after = true
  /\ BufferTools.toObject (Tests.noise_before ++ Tests.message ++ Tests.noise_after)
     = Ok (VObj [(js "message", VStr (js "Hello world!"))]).
Proof.
  split; [vm_compute; reflexivity|]. split; [vm_compute; reflexivity|].
  unfold Tests.message.
  rewrite (toObject_ignores_noise Tests.noise_before Tests.inner Tests.noise_after)
    by (vm_compute; reflexivity).
  vm_compute. reflexivity.
Defined.

Lemma match_braces_none (s : jsstr) :
  forallb (fun c => negb (c =? ch_lbrace)) s = true -> match_braces s = None.
Proof.
  intros H. unfold match_braces. rewrite drop_while_all by exact H. reflexivity.
Qed.

(** X6: [toObject] returns plain objects only and throws an [Error]
    otherwise, the one for invalid arguments when the buffer holds no
    opening brace.  An array and [null] are accepted by [fromObject], yet
    they never come back from the buffer. *)
Theorem toObject_only_objects (dataBuffer : buffer) (items : list value) (r : rng) :
  match BufferTools.toObject dataBuffer with
  | Ok v => exists members, v = VObj members
  | Throw e => err_name e = "Error"%string
  end
  /\ (forallb not_lbrace dataBuffer = true ->
      BufferTools.toObject dataBuffer
      = Throw (Error "BufferTools.toObject(): Invalid arguments"))
  /\ (exists b, BufferTools.fromObject (VArr items) false r = Ok b
                /\ BufferTools.toObject b <> Ok (VArr items))
  /\ BufferTools.fromObject VNull false r = Ok (BufferTools.fromAscii (js "null"))
  /\ BufferTools.toObject (BufferTools.fromAscii (js "null"))
     = Throw (Error "BufferTools.toObject(): Invalid arguments").
Proof.
  split; [|split; [|split; [|split]]].
  - destruct (BufferTools.toObject dataBuffer) as [v|e] eqn:E.
    + exact (toObject_object _ _ E).
    + exact (toObject_error _ _ E).
  - intros H. unfold BufferTools.toObject.
    rewrite match_braces_none by (apply toAscii_not_lbrace, H). reflexivity.
  - unfold BufferTools.fromObject. cbn [typeof].
    rewrite bool_decide_eq_true_2 by reflexivity.
    destruct (JSON.stringify (VArr items)) as [text|] eqn:E; [|discriminate E].
    eexists. split; [reflexivity|]. intros H.
    apply toObject_object in H as [m [=]].
  - reflexivity.
  - reflexivity.
Qed.

Lemma toObject_only_objects_witness :
  forallb not_lbrace (BufferTools.fromAscii (js "[1,2]")) = true
  /\ BufferTools.toObject (BufferTools.fromAscii (js "[1,2]"))
     = Throw (Error "BufferTools.toObject(): Invalid arguments").
Proof.
  split; [vm_compute; reflexivity|].
  apply (proj1 (proj2 (toObject_only_objects (BufferTools.fromAscii (js "[1,2]")) []
                                             Sample.zeros))).
  vm_compute. reflexivity.
Defined.

(** ** The key store *)



(** ** Sessions and their key-pairs *)

Section Keys.
Context (W : WebCrypto) (HW : Lawful W).

Lemma isReady_writeItem (key : jsstr) (v : KeyBundle W) (db : Database W) :
  isReady (writeItem key v db) = isReady db.
Proof. reflexivity. Qed.

Lemma isReady_removeItem (key : jsstr) (db : Database W) :
  isReady (removeItem key db) = isReady db.
Proof. reflexivity. Qed.

(** What a fulfilled call of [generateKeyPair] went through and left. *)
Lemma generateKeyPair_resolved (exportPassword : value) (r : rng)
  (this : Crypto.t W) (db : Database W) :
  fst (fst (Crypto.generateKeyPair W exportPassword r this db)) = Resolved tt ->
  exists pub priv privE,
    Crypto.unavailable W this db = false
    /\ modulus W pub = modulus W priv
    /\ snd (fst (Crypto.generateKeyPair W exportPassword r this db))
       = Crypto.set_keys W (Some pub) (Some priv)
           (Some (Crypto.public_prefix ++ modulus W pub)) privE this
    /\ snd (Crypto.generateKeyPair W exportPassword r this db)
       = writeItem (Crypto.accessPath W this)
           {| public := Some pub; private := Some priv;
              publicExport := Some (Crypto.public_prefix ++ modulus W pub);
              privateExport := privE |} db
    /\ (is_nullish (default_arg exportPassword VNull) = true ->
        privE = None /\ generateKey_rsa W false r = Ok (pub, priv))
    /\ (is_nullish (default_arg exportPassword VNull) = false ->
        exists generated jwk enc,
          generateKey_rsa W true r = Ok (pub, generated)
          /\ exportKey_jwk W generated = Ok jwk
          /\ importKey_jwk W jwk false Decrypt = Ok priv
          /\ Crypto.encryptData W (Crypto.stringify_arg jwk)
               (default_arg exportPassword VNull) VUndefined (skip 1 r) = Resolved enc
          /\ privE = Some (Crypto.private_prefix ++ enc)).
Proof.
  unfold Crypto.generateKeyPair.
  destruct (_ && _); [discriminate|].
  destruct (Crypto.unavailable W this db); [discriminate|].
  destruct (is_nullish (default_arg exportPassword VNull)) eqn:En; cbn [negb].
  - destruct (generateKey_rsa W false r) as [[pub priv]|] eqn:Eg;
      cbn [mbind result_bind fst snd]; [|discriminate].
    destruct (generated_pair W HW _ _ _ _ Eg) as [_ Hm].
    destruct (exportKey_jwk W pub) as [jwk|] eqn:Ep;
      cbn [mbind result_bind fst snd]; [|discriminate].
    rewrite (exported_modulus W HW _ _ Ep).
    cbn [mbind result_bind to_string fst snd public private publicExport privateExport].
    intros _. exists pub, priv, None.
    repeat split; auto. discriminate.
  - destruct (generateKey_rsa W true r) as [[pub generated]|] eqn:Eg;
      cbn [mbind result_bind fst snd]; [|discriminate].
    destruct (generated_pair W HW _ _ _ _ Eg) as [_ Hm].
    destruct (exportKey_jwk W generated) as [privateKeyJWK|] eqn:Ex;
      cbn [mbind result_bind fst snd]; [|discriminate].
    destruct (exportKey_jwk W pub) as [jwk|] eqn:Ep;
      cbn [mbind result_bind fst snd]; [|discriminate].
    rewrite (exported_modulus W HW _ _ Ep). cbn [mbind result_bind to_string].
    destruct (importKey_jwk W privateKeyJWK false Decrypt) as [priv|] eqn:Ei;
      cbn [mbind result_bind fst snd]; [|discriminate].
    assert (Hp : modulus W pub = modulus W priv).
    { destruct (imported_modulus W HW _ _ _ _ Ei) as [n [Hn <-]].
      rewrite (exported_modulus W HW _ _ Ex) in Hn. injection Hn as <-.
      exact Hm. }
    destruct (Crypto.encryptData W _ _ _ _) as [enc|e|e] eqn:Ee;
      cbn [Crypto.as_result mbind result_bind fst snd public private publicExport
           privateExport]; try discriminate.
    intros _. exists pub, priv, (Some (Crypto.private_prefix ++ enc)).
    repeat split; auto; try discriminate.
    intros _. exists generated, privateKeyJWK, enc. auto.
Qed.

End Keys.

Section Lifecycle.
Context (W : WebCrypto) (HW : Lawful W).

(** [encryptData] without a version: the string of version 2. *)
Lemma encryptData_default_resolved (dataString password : value) (r : rng) (enc : jsstr) :
  Crypto.encryptData W dataString password VUndefined r = Resolved enc ->
  exists text c p payload,
    dataString = VStr text /\ password = VStr (c :: p)
    /\ enc = tagged_envelope 2 (getRandomValues 12 r) payload.
Proof.
  destruct dataString as [ | | | | text | | ]; try discriminate.
  destruct password as [ | | | | [|c p] | | ]; try discriminate.
  change (Crypto.encryptData W (VStr text) (VStr (c :: p)) VUndefined r)
    with (Crypto.encryptData W (VStr text) (VStr (c :: p)) (VNum 2) r).
  rewrite (encryptData_steps W text c p 2 AES_GCM 12 r eq_refl).
  destruct (importKey_raw W _ AES_GCM) as [sKey|]; [|discriminate].
  cbn [mbind result_bind].
  destruct (encrypt_aes W AES_GCM _ sKey _) as [payload|]; [|discriminate].
  cbn [mbind result_bind settle]. intros [= <-].
  exists text, c, p, payload. auto.
Qed.

(** X8: a fulfilled [generateKeyPair] leaves a session with a key-pair:
    [hasKeyPair()] and [hasPublicKey()] are true, the public key string is
    the prefix [$ceph1-publ$jwk$] and the modulus, the private key string is
    [null] without a password and the prefix [$ceph1-priv$hex$] with an
    envelope of version 2 otherwise, and the record is in the store under
    the access path of the session. *)
Theorem generateKeyPair_success (exportPassword : value) (r : rng)
  (this : Crypto.t W) (db : Database W) :
  fst (fst (Crypto.generateKeyPair W exportPassword r this db)) = Resolved tt ->
  let this' := snd (fst (Crypto.generateKeyPair W exportPassword r this db)) in
  let db' := snd (Crypto.generateKeyPair W exportPassword r this db) in
  Crypto.hasKeyPair W this' = true
  /\ Crypto.hasPublicKey W this' = true
  /\ (exists pub, Crypto.publicKey W this' = Some pub
                  /\ Crypto.getPublicKeyString W this'
                     = Some (Crypto.public_prefix ++ modulus W pub))
  /\ (if is_nullish (default_arg exportPassword VNull)
      then Crypto.getPrivateKeyString W this' = None
      else exists payload,
          Crypto.getPrivateKeyString W this'
          = Some (Crypto.private_prefix
                    ++ tagged_envelope 2 (getRandomValues 12 (skip 1 r)) payload))
  /\ Crypto.dbName W this' = Crypto.dbName W this
  /\ Crypto.accessPath W this' = Crypto.accessPath W this
  /\ fst (readItem (Crypto.accessPath W this) db')
     = Some {| public := Crypto.publicKey W this';
               private := Crypto.privateKey W this';
               publicExport := Crypto.publicKeyExport W this';
               privateExport := Crypto.privateKeyExport W this' |}.
Proof.
  intros Hg. cbv zeta.
  destruct (generateKeyPair_resolved W HW _ _ _ _ Hg)
    as (pub & priv & privE & Ha & Hm & -> & -> & Hnull & Hpw).
  cbn [Crypto.set_keys Crypto.hasKeyPair Crypto.hasPublicKey Crypto.publicKey
       Crypto.privateKey Crypto.publicKeyExport Crypto.privateKeyExport
       Crypto.getPublicKeyString Crypto.getPrivateKeyString Crypto.dbName
       Crypto.accessPath].
  split; [reflexivity|]. split; [reflexivity|].
  split; [exists pub; auto|].
  split; [|split; [reflexivity|split; [reflexivity|]]].
  - destruct (is_nullish (default_arg exportPassword VNull)).
    + destruct (Hnull eq_refl) as [-> _]. reflexivity.
    + destruct (Hpw eq_refl) as (generated & jwk & enc & _ & _ & _ & He & ->).
      apply encryptData_default_resolved in He
        as (text & c & p & payload & _ & _ & ->).
      exists payload. reflexivity.
  - unfold readItem, writeItem, record_key, open. cbn [fst items databaseName].
    apply lookup_insert_eq.
Qed.


Lemma unavailable_false (this : Crypto.t W) (db : Database W) :
  Crypto.unavailable W this db = false ->
  Crypto.dbName W this <> None /\ isReady db = true.
Proof.
  unfold Crypto.unavailable. intros [H1 H2]%orb_false_elim.
  apply bool_decide_eq_false in H1. apply negb_false_iff in H2. auto.
Qed.

Lemma unavailable_ready (this : Crypto.t W) (db : Database W) :
  Crypto.dbName W this <> None -> isReady db = true ->
  Crypto.unavailable W this db = false.
Proof.
  intros H1 H2. unfold Crypto.unavailable.
  rewrite bool_decide_eq_false_2 by exact H1. rewrite H2. reflexivity.
Qed.

(** [loadKeyPair] on a store that holds a record under the path. *)
Lemma loadKeyPair_found (that : Crypto.t W) (db : Database W) (keys : KeyBundle W) :
  Crypto.unavailable W that db = false ->
  fst (readItem (Crypto.accessPath W that) db) = Some keys ->
  Crypto.loadKeyPair W that db
  = (Resolved tt,
     Crypto.set_keys W (public keys) (private keys) (Crypto.or_null (publicExport keys))
                     (Crypto.or_null (privateExport keys)) that,
     open W db).
Proof.
  intros Ha Hr. unfold Crypto.loadKeyPair. rewrite Ha.
  unfold readItem in *. cbn [fst] in Hr.
  cbn [Crypto.clear_keys Crypto.accessPath]. rewrite Hr. reflexivity.
Qed.

Lemma loadKeyPair_missing (that : Crypto.t W) (db : Database W) :
  Crypto.unavailable W that db = false ->
  fst (readItem (Crypto.accessPath W that) db) = None ->
  Crypto.loadKeyPair W that db = (Resolved tt, Crypto.clear_keys W that, open W db).
Proof.
  intros Ha Hr. unfold Crypto.loadKeyPair. rewrite Ha.
  unfold readItem in *. cbn [fst] in Hr.
  cbn [Crypto.clear_keys Crypto.accessPath]. rewrite Hr. reflexivity.
Qed.

(** X9: what [generateKeyPair] stored, [loadKeyPair] restores: another
    session object over the same database and with the same access path
    gets the four fields of the session that generated the key-pair. *)
Theorem loadKeyPair_generateKeyPair (exportPassword : value) (r : rng)
  (this that : Crypto.t W) (db : Database W) :
  fst (fst (Crypto.generateKeyPair W exportPassword r this db)) = Resolved tt ->
  Crypto.dbName W that <> None ->
  Crypto.accessPath W that = Crypto.accessPath W this ->
  let this' := snd (fst (Crypto.generateKeyPair W exportPassword r this db)) in
  let db' := snd (Crypto.generateKeyPair W exportPassword r this db) in
  let that' := snd (fst (Crypto.loadKeyPair W that db')) in
  fst (fst (Crypto.loadKeyPair W that db')) = Resolved tt
  /\ Crypto.publicKey W that' = Crypto.publicKey W this'
  /\ Crypto.privateKey W that' = Crypto.privateKey W this'
  /\ Crypto.publicKeyExport W that' = Crypto.publicKeyExport W this'
  /\ Crypto.privateKeyExport W that' = Crypto.privateKeyExport W this'
  /\ Crypto.hasKeyPair W that' = true.
Proof.
  intros Hg Hn Hp. cbv zeta.
  destruct (generateKeyPair_resolved W HW _ _ _ _ Hg)
    as (pub & priv & privE & Ha & Hm & -> & -> & Hnull & Hpw).
  destruct (unavailable_false _ _ Ha) as [_ Hready].
  rewrite (loadKeyPair_found that _
             {| public := Some pub; private := Some priv;
                publicExport := Some (Crypto.public_prefix ++ modulus W pub);
                privateExport := privE |}).
  - cbn [fst snd Crypto.set_keys Crypto.publicKey Crypto.privateKey
         Crypto.publicKeyExport Crypto.privateKeyExport Crypto.hasKeyPair
         public private publicExport privateExport].
    assert (Hq : Crypto.or_null privE = privE).
    { destruct (is_nullish (default_arg exportPassword VNull)).
      - destruct (Hnull eq_refl) as [-> _]. reflexivity.
      - destruct (Hpw eq_refl) as (generated & jwk & enc & _ & _ & _ & _ & ->).
        reflexivity. }
    rewrite Hq. repeat split; reflexivity.
  - apply unavailable_ready; [exact Hn | exact Hready].
  - rewrite Hp. unfold readItem, writeItem, record_key, open.
    cbn [fst items databaseName]. apply lookup_insert_eq.
Qed.

End Lifecycle.

Section Paths.
Context (W : WebCrypto).

(** What [loadKeyPair] makes of a session depends on the store through
    its readiness and the record under the access path only. *)
Lemma loadKeyPair_depends (that : Crypto.t W) (db db' : Database W) :
  isReady db' = isReady db ->
  fst (readItem (Crypto.accessPath W that) db')
  = fst (readItem (Crypto.accessPath W that) db) ->
  fst (Crypto.loadKeyPair W that db') = fst (Crypto.loadKeyPair W that db).
Proof.
  intros Hr Hi. unfold Crypto.loadKeyPair, Crypto.unavailable. rewrite Hr.
  destruct (_ || _); [reflexivity|].
  unfold readItem in *. cbn [fst] in Hi.
  cbn [Crypto.clear_keys Crypto.accessPath]. rewrite Hi.
  destruct (items (open W db) !! _); reflexivity.
Qed.

Lemma generateKeyPair_store (exportPassword : value) (r : rng)
  (this : Crypto.t W) (db : Database W) :
  snd (Crypto.generateKeyPair W exportPassword r this db) = db
  \/ exists keys,
      snd (Crypto.generateKeyPair W exportPassword r this db)
      = writeItem (Crypto.accessPath W this) keys db.
Proof.
  unfold Crypto.generateKeyPair.
  destruct (_ && _); [auto|].
  destruct (Crypto.unavailable W this db); [auto|].
  match goal with
  | |- context [match ?ch with Ok _ => _ | Throw _ => _ end] => destruct ch as [keys|]
  end; cbn [snd]; [right; exists keys; reflexivity | auto].
Qed.

Lemma importPrivateKey_store (pKeyString exportPassword : value)
  (this : Crypto.t W) (db : Database W) :
  snd (Crypto.importPrivateKey W pKeyString exportPassword this db) = db
  \/ exists keys,
      snd (Crypto.importPrivateKey W pKeyString exportPassword this db)
      = writeItem (Crypto.accessPath W this) keys db.
Proof.
  unfold Crypto.importPrivateKey.
  destruct pKeyString as [ | | | | k | | ]; auto.
  destruct exportPassword as [ | | | | [|c p] | | ]; auto.
  destruct (negb _); [auto|].
  destruct (Crypto.unavailable W this db); [auto|].
  destruct (Crypto.decryptData W _ _) as [[text|]|e|e]; auto.
  match goal with
  | |- context [match ?ch with Ok _ => _ | Throw _ => _ end] => destruct ch as [keys|]
  end; cbn [snd]; [right; exists keys; reflexivity | auto].
Qed.

Lemma removeKeyPair_store (this : Crypto.t W) (db : Database W) :
  snd (Crypto.removeKeyPair W this db) = db
  \/ snd (Crypto.removeKeyPair W this db) = removeItem (Crypto.accessPath W this) db.
Proof.
  unfold Crypto.removeKeyPair.
  destruct (Crypto.unavailable W this db); auto.
Qed.

(** X10: the access path separates the key-pairs of a database: what
    a session generates, imports or removes under its access path does
    not change what [loadKeyPair] gives a session with another one. *)
Theorem access_paths_separate (this that : Crypto.t W) (db : Database W)
  (exportPassword pKeyString : value) (r : rng) :
  Crypto.accessPath W that <> Crypto.accessPath W this ->
  fst (Crypto.loadKeyPair W that (snd (Crypto.generateKeyPair W exportPassword r this db)))
  = fst (Crypto.loadKeyPair W that db)
  /\ fst (Crypto.loadKeyPair W that
            (snd (Crypto.importPrivateKey W pKeyString exportPassword this db)))
     = fst (Crypto.loadKeyPair W that db)
  /\ fst (Crypto.loadKeyPair W that (snd (Crypto.removeKeyPair W this db)))
     = fst (Crypto.loadKeyPair W that db).
Proof.
  intros Hp.
  assert (Hw : forall keys,
             fst (Crypto.loadKeyPair W that
                    (writeItem (Crypto.accessPath W this) keys db))
             = fst (Crypto.loadKeyPair W that db)).
  { intros keys. apply loadKeyPair_depends; [reflexivity|].
    unfold readItem, writeItem, record_key, open. cbn [fst items databaseName].
    apply lookup_insert_ne. congruence. }
  split; [|split].
  - destruct (generateKeyPair_store exportPassword r this db) as [-> | [keys ->]];
      [reflexivity | apply Hw].
  - destruct (importPrivateKey_store pKeyString exportPassword this db)
      as [-> | [keys ->]]; [reflexivity | apply Hw].
  - destruct (removeKeyPair_store this db) as [-> | ->]; [reflexivity|].
    apply loadKeyPair_depends; [reflexivity|].
    unfold readItem, removeItem, record_key, open. cbn [fst items databaseName].
    apply lookup_delete_ne. congruence.
Qed.

(** X11: [removeKeyPair] on a session with a database empties the
    session and removes the record of its access path: [loadKeyPair]
    under that path finds nothing afterwards. *)
Theorem loadKeyPair_removeKeyPair (this that : Crypto.t W) (db : Database W) :
  Crypto.unavailable W this db = false ->
  Crypto.dbName W that <> None ->
  Crypto.accessPath W that = Crypto.accessPath W this ->
  let this' := snd (fst (Crypto.removeKeyPair W this db)) in
  let db' := snd (Crypto.removeKeyPair W this db) in
  fst (fst (Crypto.removeKeyPair W this db)) = Resolved tt
  /\ keys_null this'
  /\ Crypto.hasPublicKey W this' = false
  /\ fst (fst (Crypto.loadKeyPair W that db')) = Resolved tt
  /\ keys_null (snd (fst (Crypto.loadKeyPair W that db')))
  /\ Crypto.hasPublicKey W (snd (fst (Crypto.loadKeyPair W that db'))) = false.
Proof.
  intros Ha Hn Hp. cbv zeta. unfold Crypto.removeKeyPair. rewrite Ha.
  cbn [fst snd].
  split; [reflexivity|]. split; [repeat split|]. split; [reflexivity|].
  rewrite loadKeyPair_missing.
  - cbn [fst snd]. split; [reflexivity|]. split; [repeat split | reflexivity].
  - apply unavailable_false in Ha as [_ Hr].
    apply unavailable_ready; [exact Hn | exact Hr].
  - rewrite Hp. unfold readItem, removeItem, record_key, open.
    cbn [fst items databaseName]. apply lookup_delete_eq.
Qed.

End Paths.

Section Public.
Context (W : WebCrypto).

Lemma unavailable_public (this : Crypto.t W) (db : Database W) :
  Crypto.dbName W this = None -> Crypto.unavailable W this db = true.
Proof.
  intros H. unfold Crypto.unavailable. rewrite bool_decide_eq_true_2 by exact H.
  reflexivity.
Qed.

(** No call gives a private key to a session without a database. *)
Lemma step_public (s s' : Crypto.t W * Database W) :
  step s s' ->
  (Crypto.dbName W (fst s) = None ->
   Crypto.privateKey W (fst s) = None /\ Crypto.privateKeyExport W (fst s) = None) ->
  Crypto.dbName W (fst s') = None ->
  Crypto.privateKey W (fst s') = None /\ Crypto.privateKeyExport W (fst s') = None.
Proof.
  intros Hstep. destruct Hstep as [pw r this db | this db | keyString this db
                                  | k pw this db | this db | path this this' db Hs
                                  | name this db this' db' Hc]; cbn [fst snd].
  - unfold Crypto.generateKeyPair.
    destruct (_ && _); [auto|].
    destruct (Crypto.unavailable W this db) eqn:Ha; [auto|].
    apply unavailable_false in Ha as [Hn _].
    match goal with
    | |- context [match ?ch with Ok _ => _ | Throw _ => _ end] => destruct ch
    end; cbn [fst snd Crypto.set_keys Crypto.clear_keys Crypto.dbName];
      intros _ H; contradiction.
  - unfold Crypto.loadKeyPair.
    destruct (Crypto.unavailable W this db) eqn:Ha; [auto|].
    apply unavailable_false in Ha as [Hn _].
    unfold readItem. cbn [Crypto.clear_keys Crypto.accessPath].
    match goal with
    | |- context [match ?x with Some _ => _ | None => _ end] => destruct x
    end; cbn [fst snd Crypto.set_keys Crypto.dbName]; intros _ H; contradiction.
  - unfold Crypto.importPublicKey.
    destruct keyString as [ | | | | [|c s] | | ]; auto.
    destruct (negb _); [auto|].
    destruct (importKey_jwk W _ true Encrypt); cbn [snd]; intros _ _; split; reflexivity.
  - unfold Crypto.importPrivateKey.
    destruct k as [ | | | | k | | ]; auto.
    destruct pw as [ | | | | [|c p] | | ]; auto.
    destruct (negb _); [auto|].
    destruct (Crypto.unavailable W this db) eqn:Ha; [auto|].
    apply unavailable_false in Ha as [Hn _].
    destruct (Crypto.decryptData W _ _) as [[text|]|e|e]; auto.
    match goal with
    | |- context [match ?ch with Ok _ => _ | Throw _ => _ end] => destruct ch
    end; cbn [fst snd Crypto.set_keys Crypto.dbName]; [|auto].
    intros _ H; contradiction.
  - unfold Crypto.removeKeyPair.
    destruct (Crypto.unavailable W this db); [auto|].
    cbn [fst snd]. intros _ _. split; reflexivity.
  - unfold Crypto.setAccessPath in Hs.
    destruct path as [ | | | | [|c p] | | ]; try discriminate.
    injection Hs as <-. cbn [Crypto.dbName Crypto.privateKey Crypto.privateKeyExport].
    auto.
  - unfold Crypto.constructor in Hc.
    destruct (default_arg name VNull) as [ | | | | [|c n] | | ]; try discriminate.
    + injection Hc as <- <-. intros _ _. split; reflexivity.
    + destruct (init _ _ db); [|discriminate]. cbn [mbind result_bind] in Hc.
      injection Hc as <- <-. intros _ _. split; reflexivity.
Qed.

(** X12: a session that was made without a database name never holds
    a private key, whatever is called on it: [hasKeyPair()] is false, no
    export string is kept, and [decryptObject] rejects, the private key
    being missing. *)
Theorem public_session_no_private_key (s : Crypto.t W * Database W) :
  reachable s ->
  Crypto.dbName W (fst s) = None ->
  Crypto.privateKey W (fst s) = None
  /\ Crypto.getPrivateKeyString W (fst s) = None
  /\ Crypto.hasKeyPair W (fst s) = false
  /\ forall keyString messageString,
      Crypto.decryptObject W (fst s) (VStr keyString) (VStr messageString)
      = Rejected (Error "Crypto: The private key is missing, decryption is not available.").
Proof.
  intros Hr Hn.
  assert (H : Crypto.privateKey W (fst s) = None
              /\ Crypto.privateKeyExport W (fst s) = None).
  { revert Hn. induction Hr as [name this db Hc | s s' _ IH Hstep].
    - unfold Crypto.constructor in Hc.
      destruct (default_arg name VNull) as [ | | | | [|c n] | | ]; try discriminate.
      + injection Hc as <- <-. intros _. split; reflexivity.
      + destruct (init _ _ _); [|discriminate]. cbn [mbind result_bind] in Hc.
        injection Hc as <- <-. intros _. split; reflexivity.
    - exact (step_public s s' Hstep IH). }
  destruct H as [Hk He].
  assert (Hh : Crypto.hasKeyPair W (fst s) = false).
  { unfold Crypto.hasKeyPair. rewrite Hk. apply andb_false_r. }
  split; [exact Hk|]. split.
  - unfold Crypto.getPrivateKeyString. rewrite He. reflexivity.
  - split; [exact Hh|]. intros ks ms. unfold Crypto.decryptObject. rewrite Hh.
    reflexivity.
Qed.

(** A fulfilled [importPublicKey] leaves a session that encrypts only:
    it holds the key and the string that was imported and no private key,
    whatever it held before, and [decryptObject] rejects. *)
Lemma importPublicKey_success (keyString : jsstr) (this : Crypto.t W) :
  fst (Crypto.importPublicKey W (VStr keyString) this) = Resolved tt ->
  let this' := snd (Crypto.importPublicKey W (VStr keyString) this) in
  take 16 keyString = Crypto.public_prefix
  /\ (exists k, importKey_jwk W (Crypto.publicJWK (drop 16 keyString)) true Encrypt = Ok k
                /\ Crypto.publicKey W this' = Some k)
  /\ Crypto.getPublicKeyString W this' = Some keyString
  /\ Crypto.privateKey W this' = None
  /\ Crypto.getPrivateKeyString W this' = None
  /\ Crypto.hasPublicKey W this' = true
  /\ Crypto.hasKeyPair W this' = false
  /\ Crypto.dbName W this' = Crypto.dbName W this
  /\ Crypto.accessPath W this' = Crypto.accessPath W this
  /\ forall k m,
      Crypto.decryptObject W this' (VStr k) (VStr m)
      = Rejected (Error "Crypto: The private key is missing, decryption is not available.").
Proof.
  cbv zeta. unfold Crypto.importPublicKey.
  destruct keyString as [|c s]; [discriminate|].
  destruct (bool_decide_reflect (take 16 (c :: s) = Crypto.public_prefix)) as [Hp|];
    cbn [negb]; [|discriminate].
  destruct (importKey_jwk W _ true Encrypt) as [k|e] eqn:Ei; cbn [fst snd];
    [|discriminate].
  intros _. split; [exact Hp|]. split; [exists k; auto|].
  repeat split; reflexivity.
Qed.

End Public.

Section Correspondence.
Context (W : WebCrypto) (HW : Lawful W).

(** X13: the envelope that a session makes with an imported public key
    is opened by the session that holds the private key of the pair:
    [decryptObject] of the owner resolves with the object that
    [encryptObject] of the sender was given. *)
Theorem decryptObject_of_owner (start owner : Crypto.t W) (keyString : jsstr)
  (pub priv : CryptoKey W) (members : list (jsstr * value)) (text : jsstr)
  (version : value) (r : rng) (env : Crypto.Envelope) :
  fst (Crypto.importPublicKey W (VStr keyString) start) = Resolved tt ->
  let sender := snd (Crypto.importPublicKey W (VStr keyString) start) in
  Crypto.publicKey W sender = Some pub ->
  Crypto.hasKeyPair W owner = true ->
  Crypto.privateKey W owner = Some priv ->
  key_pair W pub priv ->
  members <> [] ->
  JSON.stringify (VObj members) = Some text ->
  JSON.parse text = Some (VObj members) ->
  binary text ->
  Crypto.encryptObject W sender (VObj members) version r = Resolved env ->
  Crypto.hasKeyPair W sender = false
  /\ Crypto.decryptObject W owner (VStr (Crypto.key env)) (VStr (Crypto.message env))
     = Resolved (VObj members).
Proof.
  intros Hi sender Hpub Hown Hpriv Hpair Hne Hs Hp Hb He.
  split.
  { destruct (importPublicKey_success W keyString start Hi)
      as (_ & _ & _ & _ & _ & _ & Hk & _). exact Hk. }
  apply (encryptObject_inv W sender members text version r env Hs) in He
    as (v & sAlgo & ivBytes & pub' & sKey & cipherBuffer & sKeyBuffer & keyBuffer
        & iVector & before & after & r' & Hv & Hc & Hl & F0 & F1 & Hpub' & Eg & Ee
        & Ex & Er & ->).
  rewrite Hpub in Hpub'. injection Hpub' as <-.
  unfold Crypto.decryptObject. cbn [Crypto.key Crypto.message].
  rewrite Hown. cbn [negb]. rewrite atob_encode, fromAscii_toAscii.
  assert (Hcne : cipherBuffer <> []).
  { pose proof (aes_grows W HW _ _ _ _ _ Ee) as Hg.
    intros ->. cbn [length] in Hg. lia. }
  rewrite split_version_prefixed;
    [| exact Hv | apply encode_nonempty, Hcne | apply encode_no_line_terminator].
  rewrite atob_encode, fromAscii_toAscii, Hc.
  rewrite Hpriv. cbn [Crypto.with_key].
  rewrite (rsa_roundtrip W HW pub priv _ _ _ Hpair Er). cbn [mbind result_bind].
  rewrite <- Hl, splitInTwo_app. cbn [fst snd].
  destruct (aes_export_roundtrip W HW _ _ _ _ _ _ _ Eg Ex Ee) as [k' [Ek Ed]].
  rewrite Ek. cbn [mbind result_bind]. rewrite Ed. cbn [mbind result_bind].
  rewrite (toObject_framed (VObj members) text); try assumption.
  - reflexivity.
  - apply (object_text_inner members); assumption.
Qed.

End Correspondence.

Section Names.
Context (W : WebCrypto) (HW : Lawful W).

Lemma constructor_named (c : Z) (name : jsstr) (db : Database W)
  (this : Crypto.t W) (db' : Database W) :
  Crypto.constructor W (VStr (c :: name)) db = Ok (this, db') ->
  Crypto.dbName W this = Some (c :: name)
  /\ Crypto.accessPath W this = js "default"
  /\ databaseName db' = Some (c :: name)
  /\ storeName db' = Some (js "crypto")
  /\ connection db' = connection db
  /\ items db' = items db.
Proof.
  unfold Crypto.constructor. cbn [default_arg].
  unfold init. destruct (_ && _); [discriminate|].
  cbn [mbind result_bind]. intros [= <- <-]. repeat split.
Qed.

(** X14: the sessions of a page share one store, and the database name
    of the session made last counts until the store is connected: a key-pair
    that the first of two sessions generates is kept under the name the
    second one was made with.  Once the store is connected, a session with
    another database name cannot be made any more. *)
Theorem constructor_database_name (a b c : jsstr) (A B : Crypto.t W)
  (db1 db2 : Database W) (exportPassword : value) (r : rng) :
  Crypto.constructor W (VStr a) (blank_database W) = Ok (A, db1) ->
  Crypto.constructor W (VStr b) db1 = Ok (B, db2) ->
  fst (fst (Crypto.generateKeyPair W exportPassword r A db2)) = Resolved tt ->
  let db3 := snd (Crypto.generateKeyPair W exportPassword r A db2) in
  Crypto.dbName W A = Some a
  /\ is_Some (items db3 !! (b, Crypto.accessPath W A))
  /\ (a <> b -> items db3 !! (a, Crypto.accessPath W A) = None)
  /\ (c <> [] -> c <> b ->
      Crypto.constructor W (VStr c) db3
      = Throw (Error "Can't reconfigure database connection. It's already established."))
  /\ (exists B', Crypto.constructor W (VStr b) db3 = Ok (B', db3)).
Proof.
  intros HA HB Hg. cbv zeta.
  destruct a as [|ca a]; [discriminate HA|].
  destruct b as [|cb b]; [discriminate HB|].
  destruct (constructor_named _ _ _ _ _ HA) as (HnA & HpA & Hd1 & Hs1 & Hc1 & Hi1).
  destruct (constructor_named _ _ _ _ _ HB) as (HnB & HpB & Hd2 & Hs2 & Hc2 & Hi2).
  destruct (generateKeyPair_resolved W HW _ _ _ _ Hg)
    as (pub & priv & privE & Ha & Hm & _ & -> & _ & _).
  unfold writeItem, record_key, open. cbn [items databaseName storeName connection].
  rewrite Hd2. cbn [default].
  split; [exact HnA|]. split; [|split; [|split]].
  - rewrite lookup_insert_eq. eauto.
  - intros Hab. rewrite lookup_insert_ne.
    + rewrite Hi2, Hi1. apply lookup_empty.
    + intros E. apply Hab. injection E. intros; subst; reflexivity.
  - intros Hc Hcb. destruct c as [|cc c]; [contradiction|].
    unfold Crypto.constructor. cbn [default_arg]. unfold init.
    cbn [connection databaseName andb].
    rewrite bool_decide_eq_false_2 by congruence. reflexivity.
  - unfold Crypto.constructor. cbn [default_arg]. unfold init.
    cbn [connection databaseName andb].
    rewrite bool_decide_eq_true_2 by reflexivity. cbn [negb mbind result_bind].
    rewrite Hs2. eexists. reflexivity.
Qed.

End Names.

(** ** The export of the private key *)

Section Exported.
Context (W : WebCrypto) (HW : Lawful W).

(** The export string that [generateKeyPair] makes with a password, and
    what [decryptData] makes of it under that password. *)
Lemma generateKeyPair_export (c : Z) (p : jsstr) (r : rng)
  (this : Crypto.t W) (db : Database W)
  (pub generated : CryptoKey W) (jwk : value) (text : jsstr) :
  generateKey_rsa W true r = Ok (pub, generated) ->
  exportKey_jwk W generated = Ok jwk ->
  JSON.stringify jwk = Some text ->
  binary text ->
  fst (fst (Crypto.generateKeyPair W (VStr (c :: p)) r this db)) = Resolved tt ->
  exists priv enc,
    importKey_jwk W jwk false Decrypt = Ok priv
    /\ modulus W generated = modulus W pub
    /\ Crypto.unavailable W this db = false
    /\ snd (fst (Crypto.generateKeyPair W (VStr (c :: p)) r this db))
       = Crypto.set_keys W (Some pub) (Some priv)
           (Some (Crypto.public_prefix ++ modulus W pub))
           (Some (Crypto.private_prefix ++ enc)) this
    /\ isReady (snd (Crypto.generateKeyPair W (VStr (c :: p)) r this db)) = true
    /\ Crypto.decryptData W (VStr enc) (VStr (c :: p)) = Resolved (Some text).
Proof.
  intros Eg Ex Hs Hb Hg.
  destruct (generateKeyPair_resolved W HW _ _ _ _ Hg)
    as (pub0 & priv & privE & Ha & Hm & E1 & E2 & _ & Hpw).
  destruct (Hpw eq_refl) as (generated0 & jwk0 & enc & Eg0 & Ex0 & Ei & Ee & ->).
  rewrite Eg in Eg0. injection Eg0 as <- <-.
  rewrite Ex in Ex0. injection Ex0 as <-.
  destruct (generated_pair W HW _ _ _ _ Eg) as [_ Hgm].
  exists priv, enc. split; [exact Ei|]. split; [auto|]. split; [exact Ha|].
  split; [exact E1|]. split.
  - rewrite E2. apply unavailable_false in Ha as [_ Hr]. exact Hr.
  - unfold Crypto.stringify_arg in Ee. rewrite Hs in Ee. cbn [default_arg] in Ee.
    exact (decryptData_encryptData W HW text c p c p VUndefined _ enc Hb eq_refl Ee).
Qed.

(** X15: the export string of a key-pair that was generated with a
    password is imported again with that password: [importPrivateKey]
    resolves with [true], for any session with a database, and leaves the
    session with the private key, the public key string and the export
    string of the session that generated the pair. *)
Theorem importPrivateKey_generateKeyPair (c : Z) (p : jsstr) (r : rng)
  (this that : Crypto.t W) (db : Database W)
  (pub generated pub' : CryptoKey W) (jwk : value) (text : jsstr) :
  generateKey_rsa W true r = Ok (pub, generated) ->
  exportKey_jwk W generated = Ok jwk ->
  JSON.stringify jwk = Some text ->
  binary text ->
  JSON.parse text = Some jwk ->
  importKey_jwk W (Crypto.publicJWK (modulus W pub)) true Encrypt = Ok pub' ->
  fst (fst (Crypto.generateKeyPair W (VStr (c :: p)) r this db)) = Resolved tt ->
  Crypto.dbName W that <> None ->
  let this' := snd (fst (Crypto.generateKeyPair W (VStr (c :: p)) r this db)) in
  let db' := snd (Crypto.generateKeyPair W (VStr (c :: p)) r this db) in
  exists export,
    Crypto.getPrivateKeyString W this' = Some export
    /\ fst (fst (Crypto.importPrivateKey W (VStr export) (VStr (c :: p)) that db'))
       = Resolved true
    /\ let that' :=
         snd (fst (Crypto.importPrivateKey W (VStr export) (VStr (c :: p)) that db')) in
       Crypto.privateKey W that' = Crypto.privateKey W this'
       /\ Crypto.publicKey W that' = Some pub'
       /\ Crypto.publicKeyExport W that' = Crypto.publicKeyExport W this'
       /\ Crypto.privateKeyExport W that' = Some export
       /\ Crypto.hasKeyPair W that' = true.
Proof.
  intros Eg Ex Hs Hb Hp Eu Hg Hn. cbv zeta.
  destruct (generateKeyPair_export c p r this db pub generated jwk text Eg Ex Hs Hb Hg)
    as (priv & enc & Ei & Hm & Ha & -> & Hr & Hd).
  exists (Crypto.private_prefix ++ enc). split; [reflexivity|].
  unfold Crypto.importPrivateKey.
  change (take 16 (Crypto.private_prefix ++ enc)) with Crypto.private_prefix.
  change (drop 16 (Crypto.private_prefix ++ enc)) with enc.
  rewrite bool_decide_eq_true_2 by reflexivity. cbn [negb].
  rewrite (unavailable_ready W that _ Hn Hr), Hd.
  unfold Crypto.parse_or_throw. rewrite Hp. cbn [mbind result_bind].
  rewrite (exported_modulus W HW _ _ Ex). cbn [mbind result_bind to_string].
  rewrite Ei. cbn [mbind result_bind].
  change (drop 16 (Crypto.public_prefix ++ modulus W generated))
    with (modulus W generated).
  rewrite Hm, Eu.
  cbn [mbind result_bind fst snd Crypto.set_keys Crypto.publicKey Crypto.privateKey
       Crypto.publicKeyExport Crypto.privateKeyExport Crypto.hasKeyPair
       public private publicExport privateExport].
  repeat split; reflexivity.
Qed.

(** X16: [checkExportPassword] resolves with [true] for the password
    the key-pair was generated with. *)
Theorem checkExportPassword_generateKeyPair (c : Z) (p : jsstr) (r : rng)
  (this : Crypto.t W) (db : Database W)
  (pub generated : CryptoKey W) (jwk : value) (text : jsstr) :
  generateKey_rsa W true r = Ok (pub, generated) ->
  exportKey_jwk W generated = Ok jwk ->
  JSON.stringify jwk = Some text ->
  binary text ->
  JSON.parse text = Some jwk ->
  fst (fst (Crypto.generateKeyPair W (VStr (c :: p)) r this db)) = Resolved tt ->
  Crypto.checkExportPassword W (VStr (c :: p))
    (snd (fst (Crypto.generateKeyPair W (VStr (c :: p)) r this db)))
  = Resolved true.
Proof.
  intros Eg Ex Hs Hb Hp Hg.
  destruct (generateKeyPair_export c p r this db pub generated jwk text Eg Ex Hs Hb Hg)
    as (priv & enc & Ei & Hm & Ha & -> & Hr & Hd).
  unfold Crypto.checkExportPassword.
  cbn [Crypto.set_keys Crypto.privateKeyExport Crypto.publicKeyExport].
  change (take 16 (Crypto.private_prefix ++ enc)) with Crypto.private_prefix.
  change (drop 16 (Crypto.private_prefix ++ enc)) with enc.
  rewrite bool_decide_eq_true_2 by reflexivity. cbn [negb].
  rewrite Hd. unfold Crypto.parse_or_throw. rewrite Hp. cbn [mbind result_bind].
  rewrite (exported_modulus W HW _ _ Ex). cbn [mbind result_bind to_string settle].
  rewrite Hm, bool_decide_eq_true_2 by reflexivity. reflexivity.
Qed.

End Exported.

Section No_export.
Context (W : WebCrypto) (HW : Lawful W).

(** X17: without export data there is nothing to check: on the session
    that a [generateKeyPair] without password or an [importPublicKey]
    leaves, [checkExportPassword] throws, and it throws on an empty
    password on every session; in neither case is a promise returned. *)
Theorem checkExportPassword_missing (c : Z) (p keyString : jsstr) (r : rng)
  (exportPassword : value) (this : Crypto.t W) (db : Database W) :
  (is_nullish exportPassword = true ->
   fst (fst (Crypto.generateKeyPair W exportPassword r this db)) = Resolved tt ->
   Crypto.checkExportPassword W (VStr (c :: p))
     (snd (fst (Crypto.generateKeyPair W exportPassword r this db)))
   = Thrown (Error "Crypto: Export data missing"))
  /\ (fst (Crypto.importPublicKey W (VStr keyString) this) = Resolved tt ->
      Crypto.checkExportPassword W (VStr (c :: p))
        (snd (Crypto.importPublicKey W (VStr keyString) this))
      = Thrown (Error "Crypto: Export data missing"))
  /\ Crypto.checkExportPassword W (VStr []) this = Thrown (Error "Invalid arguments").
Proof.
  split; [|split; [|reflexivity]].
  - intros Hn Hg.
    destruct (generateKeyPair_resolved W HW _ _ _ _ Hg)
      as (pub & priv & privE & _ & _ & -> & _ & Hnull & _).
    assert (Hd : is_nullish (default_arg exportPassword VNull) = true)
      by (destruct exportPassword; try discriminate Hn; reflexivity).
    destruct (Hnull Hd) as [-> _]. reflexivity.
  - intros Hi.
    destruct (importPublicKey_success W keyString this Hi)
      as (_ & _ & _ & _ & He & _).
    unfold Crypto.getPrivateKeyString in He. unfold Crypto.checkExportPassword.
    destruct (Crypto.privateKeyExport W _) as [[|x e]|]; try reflexivity.
    discriminate He.
Qed.

End No_export.

(** ** Password hashing with a supplied salt *)

Lemma take_drop_while {A} (p : A -> bool) (s : list A) :
  take_while p s ++ drop_while p s = s.
Proof.
  induction s as [|c s IH]; [reflexivity|]. cbn.
  destruct (p c); [cbn; rewrite IH|]; reflexivity.
Qed.

Lemma forallb_take_while {A} (p : A -> bool) (s : list A) :
  forallb p (take_while p s) = true.
Proof.
  induction s as [|c s IH]; [reflexivity|]. cbn.
  destruct (p c) eqn:E; [cbn; rewrite E, IH|]; reflexivity.
Qed.

(** What [/^([^=]+)=*$/] matches: a body without padding character and
    a run of padding characters. *)
Lemma match_unpadded_inv (s body : jsstr) :
  match_unpadded s = Some body ->
  exists pad,
    s = body ++ pad /\ body <> []
    /\ forallb (fun c => negb (c =? ch_equals)) body = true
    /\ forallb (fun c => c =? ch_equals) pad = true.
Proof.
  unfold match_unpadded, span_while.
  pose proof (take_drop_while (fun c => negb (c =? ch_equals)) s) as Hs.
  pose proof (forallb_take_while (fun c => negb (c =? ch_equals)) s) as Hb.
  destruct (take_while _ s) as [|x b] eqn:Et; [discriminate|].
  destruct (forallb _ (drop_while _ s)) eqn:Ep; [|discriminate].
  intros [= <-]. exists (drop_while (fun c => negb (c =? ch_equals)) s).
  repeat split; auto.
Qed.

Lemma match_unpadded_body (body : jsstr) :
  body <> [] -> forallb (fun c => negb (c =? ch_equals)) body = true ->
  match_unpadded body = Some body.
Proof.
  intros Hne Hb. unfold match_unpadded, span_while.
  rewrite take_while_all, drop_while_all by exact Hb.
  destruct body; [contradiction | reflexivity].
Qed.

(** [strip_padding] removes padding characters from the end only. *)
Lemma strip_padding_suffix (s : jsstr) :
  exists t, s = Base64.strip_padding s ++ t /\ forallb (fun c => c =? ch_equals) t = true.
Proof.
  unfold Base64.strip_padding.
  destruct (length s mod 4 =? 0)%nat; [|exists []; rewrite app_nil_r; auto].
  destruct (rev s) as [|c1 [|c2 r]] eqn:E.
  - exists []. rewrite app_nil_r. auto.
  - apply (f_equal (@rev Z)) in E. rewrite rev_involutive in E. cbn in E. subst s.
    destruct (c1 =? ch_equals) eqn:E1.
    + exists [c1]. cbn. rewrite E1. auto.
    + exists []. auto.
  - apply (f_equal (@rev Z)) in E. rewrite rev_involutive in E. cbn in E. subst s.
    destruct (c1 =? ch_equals) eqn:E1.
    + destruct (c2 =? ch_equals) eqn:E2.
      * exists [c2; c1]. cbn. rewrite E1, E2, <- app_assoc. auto.
      * exists [c1]. cbn. rewrite E1. auto.
    + exists []. rewrite app_nil_r. auto.
Qed.

Lemma split_at_padding (a b t u : jsstr) :
  forallb (fun c => negb (c =? ch_equals)) a = true ->
  forallb (fun c => negb (c =? ch_equals)) b = true ->
  forallb (fun c => c =? ch_equals) t = true ->
  forallb (fun c => c =? ch_equals) u = true ->
  a ++ t = b ++ u -> a = b.
Proof.
  intros Ha Hb Ht Hu E.
  assert (Hn : forall l, forallb (fun c => c =? ch_equals) l = true ->
                         forallb (fun x => negb (negb (x =? ch_equals))) l = true).
  { intros l. apply forallb_impl. intros x ->. reflexivity. }
  rewrite <- (take_while_app (fun c => negb (c =? ch_equals)) a t Ha (Hn t Ht)).
  rewrite <- (take_while_app (fun c => negb (c =? ch_equals)) b u Hb (Hn u Hu)).
  rewrite E. reflexivity.
Qed.

Lemma digits_of_chars_valid (s : jsstr) (d : list Z) :
  Base64.digits_of_chars s = Some d ->
  forallb (fun c => negb (c =? ch_equals) && negb (c =? ch_dollar)) s = true.
Proof.
  revert d. induction s as [|c s IH]; [reflexivity|]. intros d.
  cbn [Base64.digits_of_chars forallb].
  destruct (Base64.digit_of_char c) as [x|] eqn:Ec; [|discriminate].
  destruct (Base64.digits_of_chars s) as [ds|]; [|discriminate]. intros _.
  rewrite (IH ds eq_refl), andb_true_r.
  unfold Base64.digit_of_char in Ec. unfold ch_equals, ch_dollar.
  destruct (Z.eqb_spec c 61) as [->|]; [discriminate Ec|].
  destruct (Z.eqb_spec c 36) as [->|]; [discriminate Ec|]. reflexivity.
Qed.

(** The salt that [hashPassword] stores for a salt in base64 decodes
    to the bytes of the salt that was supplied, and holds no dollar sign. *)
Lemma atob_unpadded_salt (s body x : jsstr) :
  Base64.atob s = Ok x -> match_unpadded s = Some body ->
  Base64.atob body = Ok x
  /\ forallb (fun c => negb (c =? ch_dollar)) body = true.
Proof.
  intros Ha Hm.
  destruct (match_unpadded_inv s body Hm) as (pad & -> & Hne & Hb & Hp).
  set (nows := fun c => negb (Base64.is_ascii_whitespace c)) in *.
  assert (Hfp : List.filter nows pad = pad).
  { apply filter_all. revert Hp. apply forallb_impl.
    intros c Hc. apply Z.eqb_eq in Hc. subst c. reflexivity. }
  assert (Hfb : forallb (fun c => negb (c =? ch_equals)) (List.filter nows body) = true).
  { apply forallb_forall. intros c [Hc _]%filter_In.
    rewrite forallb_forall in Hb. auto. }
  unfold Base64.atob in Ha. fold nows in Ha.
  rewrite List.filter_app, Hfp in Ha.
  destruct (length (Base64.strip_padding (List.filter nows body ++ pad)) mod 4 =? 1)%nat
    eqn:El; [discriminate|].
  destruct (Base64.digits_of_chars
              (Base64.strip_padding (List.filter nows body ++ pad))) as [d|] eqn:Ed;
    [|discriminate].
  pose proof (digits_of_chars_valid _ _ Ed) as Hv.
  assert (Hs : Base64.strip_padding (List.filter nows body ++ pad)
               = List.filter nows body).
  { destruct (strip_padding_suffix (List.filter nows body ++ pad)) as (t & Et & Ht).
    symmetry. apply (split_at_padding _ _ pad t); auto.
    revert Hv. apply forallb_impl. intros c [H _]%andb_prop. exact H. }
  assert (Hs' : Base64.strip_padding (List.filter nows body) = List.filter nows body).
  { destruct (strip_padding_suffix (List.filter nows body)) as (t & Et & Ht).
    assert (Hstrip : forallb (fun c => negb (c =? ch_equals))
                             (Base64.strip_padding (List.filter nows body)) = true).
    { rewrite Et in Hfb. rewrite forallb_app in Hfb.
      apply andb_prop in Hfb as [H _]. exact H. }
    apply (split_at_padding _ _ t []); auto.
    rewrite app_nil_r. symmetry. exact Et. }
  rewrite Hs in *. split.
  - unfold Base64.atob. fold nows. rewrite Hs', El, Ed. exact Ha.
  - apply forallb_forall. intros c Hc.
    destruct (Base64.is_ascii_whitespace c) eqn:Ew.
    + unfold Base64.is_ascii_whitespace in Ew. unfold ch_dollar.
      destruct (Z.eqb_spec c 36) as [->|]; [discriminate Ew | reflexivity].
    + rewrite forallb_forall in Hv.
      assert (Hin : In c (List.filter nows body)).
      { apply filter_In. split; [exact Hc|]. unfold nows. rewrite Ew. reflexivity. }
      apply Hv in Hin. apply andb_prop in Hin as [_ H]. exact H.
Qed.

Section Salted.
Context (W : WebCrypto) (HW : Lawful W).

Lemma fromHex_no_dollar (s : jsstr) (b : buffer) :
  BufferTools.fromHex s = Ok b -> forallb (fun c => negb (c =? ch_dollar)) s = true.
Proof.
  intros H. apply fromHex_is_hex in H. revert H. apply forallb_impl.
  intros c Hc. apply is_hex_range in Hc. unfold ch_dollar.
  destruct (Z.eqb_spec c 36); [lia | reflexivity].
Qed.

(** The two components that [hashPassword] takes from a salt it
    accepts: the stored text is not empty, holds no dollar sign, and
    decodes to the salt that is hashed. *)
Lemma salt_of_decodes (salt : value) (enc : Passwords.Encoding) (r : rng)
  (saltString saltEncoded : jsstr) :
  is_nullish salt = true \/ (exists d s, salt = VStr (d :: s)) ->
  Passwords.salt_of salt enc r = Ok (saltString, saltEncoded) ->
  saltEncoded <> []
  /\ forallb (fun c => negb (c =? ch_dollar)) saltEncoded = true
  /\ Passwords.decode enc saltEncoded = Ok saltString.
Proof.
  intros [Hn | (d & s & ->)].
  - assert (E : Passwords.salt_of salt enc r = Passwords.salt_of VNull enc r)
      by (destruct salt; try discriminate Hn; reflexivity).
    rewrite E, salt_of_fresh. pose proof (salt_nonempty r) as Hr.
    revert Hr. generalize (getRandomValues 16 r). intros b Hr [= <- <-].
    destruct enc; cbn [Passwords.decode].
    + split; [apply encode_nonempty, Hr|]. split; [apply encode_no_dollar|].
      apply atob_encode.
    + split; [apply toHex_nonempty, Hr|]. split; [apply toHex_no_dollar|].
      rewrite fromHex_toHex. reflexivity.
  - destruct enc; cbn [Passwords.salt_of Passwords.decode].
    + destruct (Base64.atob (d :: s)) as [x|] eqn:Ea; [|discriminate].
      cbn [mbind result_bind]. unfold Passwords.unpadded.
      destruct (match_unpadded (d :: s)) as [body|] eqn:Em; [|discriminate].
      cbn [mbind result_bind]. intros [= <- <-].
      destruct (atob_unpadded_salt _ _ _ Ea Em) as [Hb Hd].
      destruct (match_unpadded_inv _ _ Em) as (pad & _ & Hne & _ & _).
      auto.
    + destruct (BufferTools.fromHex (d :: s)) as [b|] eqn:Eh; [|discriminate].
      cbn [mbind result_bind]. intros [= <- <-].
      split; [discriminate|]. split; [exact (fromHex_no_dollar _ _ Eh)|].
      rewrite Eh. reflexivity.
Qed.

(** What a fulfilled call of [hashPassword] returns. *)
Lemma hashPassword_resolved (c : Z) (p : jsstr) (salt : value)
  (enc : Passwords.Encoding) (r : rng) (h : jsstr) :
  Passwords.hashPassword W (VStr (c :: p)) salt (VStr (Passwords.encoding_name enc)) r
  = Resolved h ->
  exists saltString saltEncoded,
    (is_nullish (default_arg salt VNull) = true
     \/ exists d s, default_arg salt VNull = VStr (d :: s))
    /\ Passwords.salt_of (default_arg salt VNull) enc r = Ok (saltString, saltEncoded)
    /\ h = hash_string enc saltEncoded
             (hash_text enc (digest W (BufferTools.fromAscii ((c :: p) ++ saltString)))).
Proof.
  unfold Passwords.hashPassword.
  change (default_arg (VStr (Passwords.encoding_name enc)) (VStr (js "base64")))
    with (VStr (Passwords.encoding_name enc)).
  rewrite encoding_of_name.
  assert (Hg : is_nullish (default_arg salt VNull) = true
               \/ (exists d s, default_arg salt VNull = VStr (d :: s))
               \/ negb (is_nullish (default_arg salt VNull))
                  && not_filled_string (default_arg salt VNull) = true).
  { destruct (default_arg salt VNull) as [ | | | | [|d s] | | ]; eauto. }
  destruct Hg as [Hn | [Hs | Hbad]].
  - rewrite Hn. cbn [negb andb].
    destruct (Passwords.salt_of _ enc r) as [[saltString saltEncoded]|] eqn:Es;
      [|discriminate].
    rewrite (hash_text_computed enc _ (digest_nonempty W HW _)).
    cbn [mbind result_bind settle]. intros [= <-].
    exists saltString, saltEncoded. auto.
  - destruct Hs as (d & s & Hs). rewrite Hs. cbn [is_nullish negb not_filled_string andb].
    destruct (Passwords.salt_of _ enc r) as [[saltString saltEncoded]|] eqn:Es;
      [|discriminate].
    rewrite (hash_text_computed enc _ (digest_nonempty W HW _)).
    cbn [mbind result_bind settle]. intros [= <-].
    exists saltString, saltEncoded. split; [right; eauto|]. auto.
  - rewrite Hbad. discriminate.
Qed.

(** X18: [checkPassword] accepts what [hashPassword] returns, whatever
    salt was supplied: for every password, salt and encoding for which
    [hashPassword] resolves, [checkPassword] of the password and the
    hash string resolves with [true]. *)
Theorem checkPassword_hashPassword_salted (c : Z) (p : jsstr) (salt : value)
  (enc : Passwords.Encoding) (r : rng) (h : jsstr) :
  Passwords.hashPassword W (VStr (c :: p)) salt (VStr (Passwords.encoding_name enc)) r
  = Resolved h ->
  Passwords.checkPassword W (VStr (c :: p)) (VStr h) = Resolved true.
Proof.
  intros Hh.
  destruct (hashPassword_resolved _ _ _ _ _ _ Hh)
    as (saltString & saltEncoded & Hg & Hs & ->).
  destruct (salt_of_decodes _ _ _ _ _ Hg Hs) as (Hne & Hd & Hdec).
  destruct (hash_text_wellformed enc _ (digest_nonempty W HW
              (BufferTools.fromAscii ((c :: p) ++ saltString)))) as [Hhne Hhd].
  rewrite (checkPassword_components W c p enc saltEncoded _ saltString _
             Hne Hhne Hd Hhd Hdec (decode_hash_text enc _)).
  rewrite bool_decide_eq_true_2 by reflexivity. reflexivity.
Qed.

End Salted.

Section Stable.
Context (W : WebCrypto) (HW : Lawful W).

(** X19: a hash string that was made with a supplied salt is stable:
    hashing the password again with the salt component of the string
    gives the same string, whatever the random values; for the encoding
    base64 that component is what [queryPasswordSalt] returns. *)
Theorem hashPassword_again_salted (c : Z) (p : jsstr) (d : Z) (s : jsstr)
  (enc : Passwords.Encoding) (r r' : rng) (h : jsstr) :
  Passwords.hashPassword W (VStr (c :: p)) (VStr (d :: s))
                         (VStr (Passwords.encoding_name enc)) r = Resolved h ->
  exists salt hash,
    match_hash h = Some (Passwords.encoding_name enc, salt, hash)
    /\ Passwords.hashPassword W (VStr (c :: p)) (VStr salt)
                              (VStr (Passwords.encoding_name enc)) r' = Resolved h
    /\ (enc = Passwords.base64 ->
        Passwords.queryPasswordSalt (VStr h) = Ok (Some salt)).
Proof.
  intros Hh.
  destruct (hashPassword_resolved W HW _ _ _ _ _ _ Hh)
    as (saltString & saltEncoded & Hg & Hs & ->).
  cbn [default_arg] in Hs, Hg.
  destruct (salt_of_decodes _ _ _ _ _ Hg Hs) as (Hne & Hd & Hdec).
  destruct (hash_text_wellformed enc _ (digest_nonempty W HW
              (BufferTools.fromAscii ((c :: p) ++ saltString)))) as [Hhne Hhd].
  pose proof (match_hash_string enc saltEncoded _ Hne Hhne Hd Hhd) as Hm.
  exists saltEncoded, (hash_text enc (digest W (BufferTools.fromAscii
                                                 ((c :: p) ++ saltString)))).
  split; [exact Hm|].
  assert (Hs' : Passwords.salt_of (VStr saltEncoded) enc r'
                = Ok (saltString, saltEncoded)).
  { destruct enc; cbn [Passwords.salt_of] in *.
    - destruct (Base64.atob (d :: s)) as [x|] eqn:Ea; [|discriminate].
      cbn [mbind result_bind] in Hs. unfold Passwords.unpadded in *.
      destruct (match_unpadded (d :: s)) as [body|] eqn:Em; [|discriminate].
      cbn [mbind result_bind] in Hs. injection Hs as <- <-.
      destruct (atob_unpadded_salt _ _ _ Ea Em) as [Hb _].
      destruct (match_unpadded_inv _ _ Em) as (pad & _ & Hbne & Hbe & _).
      rewrite Hb, (match_unpadded_body _ Hbne Hbe). reflexivity.
    - destruct (BufferTools.fromHex (d :: s)) as [b|] eqn:Eh; [|discriminate].
      cbn [mbind result_bind] in Hs. injection Hs as <- <-.
      rewrite Eh. reflexivity. }
  split.
  - destruct saltEncoded as [|d' s']; [contradiction|].
    apply (hashPassword_with_salt W HW c p (VStr (d' :: s')) enc r' saltString (d' :: s'));
      [right; eauto | exact Hs'].
  - intros ->. unfold Passwords.queryPasswordSalt.
    change (hash_string Passwords.base64 saltEncoded ?x)
      with (36 :: js "ceph1$" ++ js "base64" ++ js "$" ++ saltEncoded ++ js "$" ++ x) in *.
    rewrite Hm. cbn [Passwords.encoding_name].
    rewrite bool_decide_eq_true_2 by reflexivity. reflexivity.
Qed.

End Stable.

Section Hash_strings.
Context (W : WebCrypto) (HW : Lawful W).

Lemma length_base64_unpadded (b : buffer) (n : nat) :
  length b = n ->
  length (base64_unpadded b)
  = (4 * (n / 3) + match n mod 3 with 0 => 0 | m => m + 1 end)%nat.
Proof.
  intros <-. unfold base64_unpadded. rewrite length_map. apply length_digits_of_bytes.
Qed.

(** X20: the hash string of a fresh salt has a fixed size: 24 and 43
    characters of salt and hash and 82 in all for base64, 32 and 64
    hexadecimal digits and 108 in all for hex. *)
Theorem hashPassword_length (c : Z) (p : jsstr) (enc : Passwords.Encoding)
  (r : rng) (h : jsstr) :
  Passwords.hashPassword W (VStr (c :: p)) VNull (VStr (Passwords.encoding_name enc)) r
  = Resolved h ->
  exists salt hash,
    h = hash_string enc salt hash
    /\ match enc with
       | Passwords.base64 =>
         length salt = 24%nat /\ length hash = 43%nat /\ length h = 82%nat
       | Passwords.hex =>
         length salt = 32%nat /\ length hash = 64%nat /\ length h = 108%nat
         /\ forallb is_lower_hex salt = true /\ forallb is_lower_hex hash = true
       end.
Proof.
  intros Hh.
  destruct (hashPassword_resolved W HW _ _ _ _ _ _ Hh)
    as (saltString & saltEncoded & _ & Hs & ->).
  cbn [default_arg] in Hs. rewrite salt_of_fresh in Hs.
  pose proof (length_getRandomValues 16 r) as Hl.
  revert Hs Hl. generalize (getRandomValues 16 r). intros b [= <- <-] Hl.
  pose proof (digest_length W HW (BufferTools.fromAscii ((c :: p)
                                    ++ BufferTools.toAscii b))) as Hdl.
  eexists _, _. split; [reflexivity|].
  unfold hash_string. destruct enc; cbn [hash_text Passwords.encoding_name].
  - assert (L1 : length (Base64.encode b) = 24%nat).
    { rewrite (encode_16 b Hl), length_app, (length_base64_unpadded b 16 Hl).
      reflexivity. }
    assert (L2 : length (base64_unpadded (digest W (BufferTools.fromAscii
                            ((c :: p) ++ BufferTools.toAscii b)))) = 43%nat).
    { rewrite (length_base64_unpadded _ 32 Hdl). reflexivity. }
    split; [exact L1|]. split; [exact L2|].
    rewrite !length_app, L1, L2. reflexivity.
  - assert (L1 : length (BufferTools.toHex b) = 32%nat)
      by (rewrite length_toHex, Hl; reflexivity).
    assert (L2 : length (BufferTools.toHex (digest W (BufferTools.fromAscii
                            ((c :: p) ++ BufferTools.toAscii b)))) = 64%nat)
      by (rewrite length_toHex, Hdl; reflexivity).
    split; [exact L1|]. split; [exact L2|].
    split; [rewrite !length_app, L1, L2; reflexivity|].
    split; apply toHex_lower.
Qed.

(** [fromHex] throws on every string that is no even number of
    hexadecimal digits. *)
Lemma fromHex_refuses (s : jsstr) :
  Nat.even (length s) = false \/ forallb is_hex s = false ->
  BufferTools.fromHex s = Throw BufferTools.fromHex_error.
Proof.
  induction s as [|c1|c1 c2 s IH] using list_ind3_pairs.
  - intros [H | H]; discriminate H.
  - reflexivity.
  - cbn [BufferTools.fromHex forallb length].
    change (Nat.even (S (S (length s)))) with (Nat.even (length s)).
    unfold is_hex at 1 2.
    destruct (BufferTools.hex_value c1) as [d1|]; [|reflexivity].
    destruct (BufferTools.hex_value c2) as [d2|]; [|reflexivity].
    cbn [andb]. intros H. rewrite (IH H). reflexivity.
Qed.

(** X21: [checkPassword] throws, returning no promise, when the salt
    or the hash of a hash string in hexadecimal is no even number of
    hexadecimal digits, whereas it rejects a string that is no hash
    string. *)
Theorem checkPassword_undecodable (c : Z) (p : jsstr) (salt hash other : jsstr) :
  salt <> [] -> hash <> [] ->
  forallb (fun x => negb (x =? ch_dollar)) salt = true ->
  forallb (fun x => negb (x =? ch_dollar)) hash = true ->
  (Nat.even (length salt) = false \/ forallb is_hex salt = false
   \/ Nat.even (length hash) = false \/ forallb is_hex hash = false ->
   Passwords.checkPassword W (VStr (c :: p)) (VStr (hash_string Passwords.hex salt hash))
   = Thrown BufferTools.fromHex_error)
  /\ (other <> [] -> match_hash other = None ->
      Passwords.checkPassword W (VStr (c :: p)) (VStr other)
      = Rejected Passwords.InvalidArguments).
Proof.
  intros Hs Hh Hsd Hhd.
  pose proof (match_hash_string Passwords.hex salt hash Hs Hh Hsd Hhd) as Hm.
  split.
  - intros Hbad. unfold Passwords.checkPassword.
    change (hash_string Passwords.hex salt hash)
      with (36 :: js "ceph1$" ++ Passwords.encoding_name Passwords.hex ++ js "$" ++ salt
               ++ js "$" ++ hash) in *.
    rewrite Hm, encoding_of_name. cbn [Passwords.decode].
    destruct (BufferTools.fromHex salt) as [saltBuffer|e] eqn:Es.
    + cbn [mbind result_bind].
      assert (Eh : BufferTools.fromHex hash = Throw BufferTools.fromHex_error).
      { apply fromHex_refuses.
        destruct Hbad as [H | [H | [H | H]]]; auto;
          rewrite (fromHex_refuses salt) in Es by auto; discriminate Es. }
      rewrite Eh. reflexivity.
    + cbn [mbind result_bind]. rewrite (fromHex_error_unique _ _ Es). reflexivity.
  - intros Hne Hn. destruct other as [|x o]; [contradiction|].
    unfold Passwords.checkPassword. rewrite Hn. reflexivity.
Qed.

End Hash_strings.

(** ** The server side *)

Lemma toHex_app (a b : buffer) :
  BufferTools.toHex (a ++ b) = BufferTools.toHex a ++ BufferTools.toHex b.
Proof.
  induction a as [|x a IH]; [reflexivity|].
  cbn [app BufferTools.toHex]. rewrite IH. reflexivity.
Qed.

(** The UTF-8 bytes of a string of ASCII are its code units. *)
Lemma utf8_ascii (s : jsstr) :
  ascii_string s -> Node.utf8 s = BufferTools.fromAscii s.
Proof.
  unfold ascii_string, BufferTools.fromAscii.
  induction 1 as [|c s Hc _ IH]; [reflexivity|].
  cbn [Node.utf8 map]. destruct (Z.ltb_spec c 128); [|lia].
  rewrite IH. reflexivity.
Qed.

Section Server_side.
Context (W : WebCrypto) (HW : Lawful W) (from_base64 : jsstr -> buffer).

Lemma node_digest_text (password : jsstr) (enc : Passwords.Encoding) (s : jsstr) :
  Node.digest_text W from_base64 password enc s
  = Ok (hash_text enc (digest W (Node.message_bytes from_base64 password enc s))).
Proof.
  unfold Node.digest_text. destruct enc; cbn [Node.buffer_text hash_text]; [|reflexivity].
  unfold Passwords.unpadded.
  rewrite match_unpadded_encode by apply (digest_nonempty W HW). reflexivity.
Qed.

(** What [checkPassword] of the server answers for a hash string of
    well-formed components. *)
Lemma node_checkPassword_components (c : Z) (p : jsstr) (enc : Passwords.Encoding)
  (salt hash : jsstr) :
  salt <> [] -> hash <> [] ->
  forallb (fun c => negb (c =? ch_dollar)) salt = true ->
  forallb (fun c => negb (c =? ch_dollar)) hash = true ->
  Node.checkPassword W from_base64 (VStr (c :: p)) (VStr (hash_string enc salt hash))
  = Ok (Some (bool_decide
                (hash = hash_text enc
                          (digest W (Node.message_bytes from_base64 (c :: p) enc salt))))).
Proof.
  intros Hs Hh Fs Fh. unfold Node.checkPassword.
  assert (Hm : match_hash (hash_string enc salt hash)
               = Some (Passwords.encoding_name enc, salt, hash)).
  { apply match_hash_build; try assumption; destruct enc; (discriminate || reflexivity). }
  assert (Hne : exists x y, hash_string enc salt hash = x :: y)
    by (eexists _, _; reflexivity).
  destruct Hne as (x & y & Hxy). rewrite Hxy, <- Hxy, Hm, encoding_of_name.
  rewrite node_digest_text. reflexivity.
Qed.

(** What [hashPassword] of the server returns. *)
Lemma node_hashPassword_returned (c : Z) (p : jsstr) (salt : value)
  (enc : Passwords.Encoding) (r : rng) (h : jsstr) :
  Node.hashPassword W from_base64 (VStr (c :: p)) salt
    (VStr (Passwords.encoding_name enc)) r = Ok h ->
  exists saltEncoded,
    h = hash_string enc saltEncoded
          (hash_text enc (digest W (Node.message_bytes from_base64 (c :: p) enc saltEncoded)))
    /\ saltEncoded <> []
    /\ ((is_nullish salt = true
         /\ saltEncoded = Node.buffer_text enc (getRandomValues 16 r))
        \/ (exists s pad, salt = VStr s /\ s = saltEncoded ++ pad)).
Proof.
  unfold Node.hashPassword.
  change (default_arg (VStr (Passwords.encoding_name enc)) (VStr (js "base64")))
    with (VStr (Passwords.encoding_name enc)).
  rewrite encoding_of_name.
  assert (Hfresh : forall e, e <> [] -> Node.buffer_text enc e <> []).
  { intros e He. destruct enc; [apply encode_nonempty | apply toHex_nonempty]; exact He. }
  destruct salt as [ | | | | [|d s] | | ];
    cbn [default_arg is_nullish negb not_filled_string andb mbind result_bind];
    try discriminate.
  - rewrite node_digest_text. cbn [mbind result_bind]. intros [= <-].
    eexists. split; [reflexivity|]. split; [apply Hfresh, salt_nonempty|].
    left. split; reflexivity.
  - rewrite node_digest_text. cbn [mbind result_bind]. intros [= <-].
    eexists. split; [reflexivity|]. split; [apply Hfresh, salt_nonempty|].
    left. split; reflexivity.
  - destruct enc.
    + unfold Passwords.unpadded at 1.
      destruct (match_unpadded (d :: s)) as [body|] eqn:Em; [|discriminate].
      cbn [mbind result_bind]. rewrite node_digest_text. cbn [mbind result_bind].
      intros [= <-].
      destruct (match_unpadded_inv _ _ Em) as (pad & Es & Hne & _ & _).
      exists body. split; [reflexivity|]. split; [exact Hne|].
      right. exists (d :: s), pad. split; [reflexivity | exact Es].
    + cbn [mbind result_bind]. rewrite node_digest_text. cbn [mbind result_bind].
      intros [= <-]. exists (d :: s). split; [reflexivity|]. split; [discriminate|].
      right. exists (d :: s), []. split; [reflexivity|]. rewrite app_nil_r. reflexivity.
Qed.

(** X22: on the server, [checkPassword] accepts what [hashPassword]
    returns: for a generated salt, for a supplied salt in base64
    without a dollar sign and for a supplied salt of an even number of
    hexadecimal digits, [checkPassword] of the password and the hash
    string returns [true]. *)
Theorem node_checkPassword_hashPassword (c : Z) (p : jsstr) (salt : value)
  (enc : Passwords.Encoding) (r : rng) (h : jsstr) :
  (forall s, salt = VStr s ->
     match enc with
     | Passwords.base64 => forallb (fun c => negb (c =? ch_dollar)) s = true
     | Passwords.hex => Nat.even (length s) = true /\ forallb is_hex s = true
     end) ->
  Node.hashPassword W from_base64 (VStr (c :: p)) salt
    (VStr (Passwords.encoding_name enc)) r = Ok h ->
  Node.checkPassword W from_base64 (VStr (c :: p)) (VStr h) = Ok (Some true).
Proof.
  intros Hsalt Hh.
  destruct (node_hashPassword_returned _ _ _ _ _ _ Hh) as (se & -> & Hne & Hfrom).
  destruct (hash_text_wellformed enc
              (digest W (Node.message_bytes from_base64 (c :: p) enc se))
              (digest_nonempty W HW _)) as [Hhne Hhd].
  rewrite node_checkPassword_components; try assumption.
  - rewrite bool_decide_eq_true_2 by reflexivity. reflexivity.
  - destruct Hfrom as [[_ ->] | (s & pad & Es & Ep)].
    + destruct enc; [apply encode_no_dollar | apply toHex_no_dollar].
    + specialize (Hsalt s Es).
      assert (Hd : forallb (fun c => negb (c =? ch_dollar)) s = true).
      { destruct enc; [exact Hsalt|]. destruct Hsalt as [_ Hx].
        revert Hx. apply forallb_impl. intros x Hx. apply is_hex_range in Hx.
        unfold ch_dollar. destruct (Z.eqb_spec x 36); [lia | reflexivity]. }
      rewrite Ep, forallb_app in Hd.
      apply andb_true_iff in Hd as [Hd _]. exact Hd.
Qed.

(** The bytes that the server hashes for a password of ASCII and a
    generated salt are those that the browser hashes. *)
Lemma message_bytes_fresh (password : jsstr) (enc : Passwords.Encoding) (b : buffer) :
  (forall x, from_base64 (Base64.encode x) = x) ->
  ascii_string password ->
  Node.message_bytes from_base64 password enc (Node.buffer_text enc b)
  = BufferTools.fromAscii (password ++ BufferTools.toAscii b).
Proof.
  intros Hd Hp. unfold Node.message_bytes.
  assert (E : BufferTools.toHex (Node.utf8 password)
              ++ match enc with
                 | Passwords.base64 =>
                   BufferTools.toHex (from_base64 (Node.buffer_text enc b))
                 | Passwords.hex => Node.buffer_text enc b
                 end
              = BufferTools.toHex (Node.utf8 password ++ b)).
  { rewrite toHex_app. destruct enc; cbn [Node.buffer_text]; [rewrite Hd|]; reflexivity. }
  cbv zeta. rewrite E, buffer_from_hex_toHex, utf8_ascii by exact Hp.
  unfold BufferTools.fromAscii. rewrite map_app. f_equal.
  symmetry. apply fromAscii_toAscii.
Qed.

(** X23: a hash string made in the browser with a generated salt is
    accepted by the server: for a password of ASCII, [checkPassword]
    of the server returns [true] for what [hashPassword] of the
    browser resolves with, provided that the base64 decoder of the
    server inverts the encoder. *)
Theorem node_checkPassword_of_browser (c : Z) (p : jsstr) (salt : value)
  (enc : Passwords.Encoding) (r : rng) (h : jsstr) :
  (forall x, from_base64 (Base64.encode x) = x) ->
  ascii_string (c :: p) ->
  is_nullish salt = true ->
  Passwords.hashPassword W (VStr (c :: p)) salt (VStr (Passwords.encoding_name enc)) r
  = Resolved h ->
  Node.checkPassword W from_base64 (VStr (c :: p)) (VStr h) = Ok (Some true).
Proof.
  intros Hd Hp Hn Hh.
  assert (Hh' : Passwords.hashPassword W (VStr (c :: p)) VNull
                  (VStr (Passwords.encoding_name enc)) r = Resolved h)
    by (destruct salt; try discriminate Hn; exact Hh).
  rewrite (hashPassword_with_salt W HW c p VNull enc r _ _ (or_introl eq_refl)
             (salt_of_fresh enc r)) in Hh'.
  pose proof (salt_nonempty r) as Hr.
  revert Hh' Hr. generalize (getRandomValues 16 r). intros b Hh' Hr.
  assert (Eh : h = hash_string enc (Node.buffer_text enc b)
                     (hash_text enc
                        (digest W (BufferTools.fromAscii
                                     ((c :: p) ++ BufferTools.toAscii b)))))
    by exact (eq_sym (f_equal (fun o => match o with Resolved x => x | _ => h end) Hh')).
  rewrite Eh.
  destruct (hash_text_wellformed enc
              (digest W (BufferTools.fromAscii ((c :: p) ++ BufferTools.toAscii b)))
              (digest_nonempty W HW _)) as [Hhne Hhd].
  rewrite node_checkPassword_components; try assumption.
  - rewrite message_bytes_fresh by assumption.
    rewrite bool_decide_eq_true_2 by reflexivity. reflexivity.
  - destruct enc; [apply encode_nonempty | apply toHex_nonempty]; exact Hr.
  - destruct enc; [apply encode_no_dollar | apply toHex_no_dollar].
Qed.

(** X24: a hash string made on the server with a generated salt is
    accepted in the browser: for a password of ASCII, [checkPassword]
    of the browser resolves with [true] for what [hashPassword] of the
    server returns, provided that the base64 decoder of the server
    inverts the encoder. *)
Theorem checkPassword_of_node (c : Z) (p : jsstr) (salt : value)
  (enc : Passwords.Encoding) (r : rng) (h : jsstr) :
  (forall x, from_base64 (Base64.encode x) = x) ->
  ascii_string (c :: p) ->
  is_nullish salt = true ->
  Node.hashPassword W from_base64 (VStr (c :: p)) salt
    (VStr (Passwords.encoding_name enc)) r = Ok h ->
  Passwords.checkPassword W (VStr (c :: p)) (VStr h) = Resolved true.
Proof.
  intros Hd Hp Hn Hh.
  destruct (node_hashPassword_returned _ _ _ _ _ _ Hh) as (se & -> & Hne & Hfrom).
  destruct Hfrom as [[_ ->] | (s & pad & -> & _)]; [|discriminate Hn].
  rewrite message_bytes_fresh by assumption.
  destruct (hash_text_wellformed enc
              (digest W (BufferTools.fromAscii
                           ((c :: p) ++ BufferTools.toAscii (getRandomValues 16 r))))
              (digest_nonempty W HW _)) as [Hhne Hhd].
  rewrite (checkPassword_components W c p enc _ _
             (BufferTools.toAscii (getRandomValues 16 r)) _
             Hne Hhne
             ltac:(destruct enc; [apply encode_no_dollar | apply toHex_no_dollar])
             Hhd
             ltac:(destruct enc; cbn [Passwords.decode Node.buffer_text];
                   [apply atob_encode | rewrite fromHex_toHex; reflexivity])
             (decode_hash_text enc _)).
  rewrite bool_decide_eq_true_2 by reflexivity. reflexivity.
Qed.

End Server_side.

(** ** The earlier class of [src/crypto.js] *)



Section Earlier.
Context (W : WebCrypto) (HW : Lawful W).

(** The steps of [decryptData] behind the two calls of [fromHex]. *)
Lemma open_payload (d : jsstr) (c : Z) (p : jsstr) (c' : Z) (p' : jsstr)
  (sAlgo : SymAlgo) (iVector : buffer) (sKey : CryptoKey W) (payload : buffer)
  (r : rng) :
  binary d ->
  Crypto.password_key (c' :: p') = Crypto.password_key (c :: p) ->
  importKey_raw W (Crypto.password_key (c :: p)) sAlgo = Ok sKey ->
  encrypt_aes W sAlgo iVector sKey
    (fst (BufferTools.noise r) ++ BufferTools.fromAscii (data_text d)
       ++ snd (BufferTools.noise r)) = Ok payload ->
  (sKey ← importKey_raw W (Crypto.password_key (c' :: p')) sAlgo;
   dataBuffer ← decrypt_aes W sAlgo iVector sKey payload;
   obj ← BufferTools.toObject dataBuffer;
   Crypto.data_member obj) = Ok (Some d).
Proof.
  intros Hd Hkey Ek Ee.
  rewrite Hkey, Ek. cbn [mbind result_bind].
  rewrite (aes_roundtrip W HW _ _ _ _ _ _ Ek Ee). cbn [mbind result_bind].
  destruct (noise_free r) as [F0 F1].
  rewrite (toObject_framed (data_object d) (data_text d)); try assumption.
  - reflexivity.
  - apply (object_text_inner [(js "data", VStr d)]).
    + apply stringify_data_object.
    + apply parse_data_text, Hd.
    + discriminate.
    + apply data_text_binary, Hd.
  - apply data_text_binary, Hd.
  - apply parse_data_text, Hd.
Qed.

(** What a fulfilled call of the earlier [encryptData] went through. *)
Lemma legacy_encryptData_inv (d : jsstr) (c : Z) (p : jsstr) (version : value)
  (r : rng) (s : jsstr) :
  Legacy.encryptData W (VStr d) (VStr (c :: p)) version r = Resolved s ->
  exists v sAlgo ivBytes sKey payload,
    default_arg version (VNum 2) = VNum v
    /\ Crypto.cipher_of_version (VNum v) = Some (sAlgo, ivBytes)
    /\ (12 <= ivBytes)%nat
    /\ importKey_raw W (Crypto.password_key (c :: p)) sAlgo = Ok sKey
    /\ encrypt_aes W sAlgo (getRandomValues ivBytes r) sKey
         (fst (BufferTools.noise (skip ivBytes r))
            ++ BufferTools.fromAscii (data_text d)
            ++ snd (BufferTools.noise (skip ivBytes r))) = Ok payload
    /\ s = bare_envelope (getRandomValues ivBytes r) payload.
Proof.
  intros Hs. unfold Legacy.encryptData in Hs.
  destruct (Crypto.cipher_of_version (default_arg version (VNum 2)))
    as [[sAlgo ivBytes]|] eqn:Hv; [|discriminate].
  fold (data_object d) in Hs. rewrite encryptData_plain in Hs.
  destruct (importKey_raw W _ sAlgo) as [sKey|] eqn:Ek; [|discriminate].
  cbn [mbind result_bind] in Hs.
  destruct (encrypt_aes W sAlgo _ sKey _) as [payload|] eqn:Ee; [|discriminate].
  cbn [mbind result_bind settle] in Hs.
  assert (Es : s = bare_envelope (getRandomValues ivBytes r) payload)
    by exact (eq_sym (f_equal (fun o => match o with Resolved x => x | _ => s end) Hs)).
  pose proof Hv as Hv'.
  apply cipher_of_version_inv in Hv' as [[E [-> ->]] | [E [-> ->]]]; rewrite E in *.
  - exists 1, AES_CBC, 16%nat, sKey, payload. repeat split; auto; lia.
  - exists 2, AES_GCM, 12%nat, sKey, payload. repeat split; auto.
Qed.

(** The two halves of a string without a version. *)
Lemma bare_envelope_halves (iVector payload : buffer) :
  let s := bare_envelope iVector payload in
  BufferTools.fromHex (take (length iVector * 2) s) = Ok iVector
  /\ BufferTools.fromHex (drop (length iVector * 2) s) = Ok payload
  /\ forallb is_hex s = true
  /\ length s = (2 * length iVector + 2 * length payload)%nat.
Proof.
  unfold bare_envelope.
  assert (Hl : length (BufferTools.toHex iVector) = (length iVector * 2)%nat)
    by (rewrite length_toHex; lia).
  rewrite <- Hl, take_app_length, drop_app_length, !fromHex_toHex.
  repeat split.
  - rewrite forallb_app, !toHex_is_hex. reflexivity.
  - rewrite length_app, !length_toHex. lia.
Qed.

(** X25: in the earlier class of [src/crypto.js], [decryptData] gives
    back what [encryptData] was given when it is told the same
    version: for a binary string and a password, whatever
    [encryptData] resolves with is decrypted to the string by
    [decryptData] with that password and version. *)
Theorem legacy_decryptData_encryptData (d : jsstr) (c : Z) (p : jsstr)
  (version : value) (r : rng) (s : jsstr) :
  binary d ->
  Legacy.encryptData W (VStr d) (VStr (c :: p)) version r = Resolved s ->
  Legacy.decryptData W (VStr s) (VStr (c :: p)) version = Resolved (Some d).
Proof.
  intros Hd Hs.
  apply legacy_encryptData_inv in Hs
    as (v & sAlgo & ivBytes & sKey & payload & Hv & Hc & Hiv & Ek & Ee & ->).
  pose proof (aes_grows W HW _ _ _ _ _ Ee) as Hg.
  destruct (noise_spec (skip ivBytes r)) as (_ & L0 & _).
  cbv zeta in L0. rewrite !length_app, L0 in Hg.
  assert (H15 : forall b, (15 <= BufferTools.noise_amount b)%nat).
  { intros b. unfold BufferTools.noise_amount.
    pose proof (Z.mod_pos_bound (Z_of_byte b) 50 ltac:(lia)). lia. }
  specialize (H15 (nth 0 (getRandomValues 3 (skip ivBytes r)) x00)).
  destruct (bare_envelope_halves (getRandomValues ivBytes r) payload)
    as (Hi & Hp & _ & Hl).
  cbv zeta in Hi, Hp, Hl. rewrite length_getRandomValues in Hi, Hp, Hl.
  unfold Legacy.decryptData. rewrite Hv, Hc.
  assert ((length (bare_envelope (getRandomValues ivBytes r) payload) <? 32)%nat = false)
    as -> by (apply Nat.ltb_ge; lia).
  rewrite Hi, Hp.
  rewrite (open_payload d c p c p sAlgo _ sKey payload _ Hd eq_refl Ek Ee).
  reflexivity.
Qed.


End Earlier.

(** ** Runs *)

Lemma generateKeyPair_success_witness :
  fst (fst (Crypto.generateKeyPair Sample.provider (VStr (js "s3cr3t")) Sample.dice
                                   Sample.fresh Sample.empty_store)) = Resolved tt
  /\ Crypto.hasKeyPair Sample.provider Sample.session = true
  /\ Crypto.hasPublicKey Sample.provider Sample.session = true.
Proof.
  assert (H : fst (fst (Crypto.generateKeyPair Sample.provider (VStr (js "s3cr3t"))
                          Sample.dice Sample.fresh Sample.empty_store)) = Resolved tt)
    by (vm_compute; reflexivity).
  split; [exact H|].
  pose proof (generateKeyPair_success Sample.provider sample_lawful
                (VStr (js "s3cr3t")) Sample.dice Sample.fresh Sample.empty_store H) as G.
  split; [exact (proj1 G) | exact (proj1 (proj2 G))].
Defined.

Lemma loadKeyPair_generateKeyPair_witness :
  Crypto.dbName Sample.provider Sample.fresh <> None
  /\ Crypto.accessPath Sample.provider Sample.fresh
     = Crypto.accessPath Sample.provider Sample.fresh
  /\ fst (fst (Crypto.loadKeyPair Sample.provider Sample.fresh Sample.store)) = Resolved tt
  /\ Crypto.hasKeyPair Sample.provider
       (snd (fst (Crypto.loadKeyPair Sample.provider Sample.fresh Sample.store))) = true.
Proof.
  assert (H : fst (fst (Crypto.generateKeyPair Sample.provider (VStr (js "s3cr3t"))
                          Sample.dice Sample.fresh Sample.empty_store)) = Resolved tt)
    by (vm_compute; reflexivity).
  assert (Hn : Crypto.dbName Sample.provider Sample.fresh <> None) by discriminate.
  split; [exact Hn|]. split; [reflexivity|].
  pose proof (loadKeyPair_generateKeyPair Sample.provider sample_lawful
                (VStr (js "s3cr3t")) Sample.dice Sample.fresh Sample.fresh
                Sample.empty_store H Hn eq_refl) as G.
  split; [exact (proj1 G) | exact (proj2 (proj2 (proj2 (proj2 (proj2 G)))))].
Defined.

Lemma access_paths_separate_witness :
  Crypto.accessPath Sample.provider Runs.lodger
  <> Crypto.accessPath Sample.provider Sample.session
  /\ fst (Crypto.loadKeyPair Sample.provider Runs.lodger
            (snd (Crypto.removeKeyPair Sample.provider Sample.session Sample.store)))
     = fst (Crypto.loadKeyPair Sample.provider Runs.lodger Sample.store).
Proof.
  assert (H : Crypto.accessPath Sample.provider Runs.lodger
              <> Crypto.accessPath Sample.provider Sample.session)
    by (vm_compute; discriminate).
  split; [exact H|].
  exact (proj2 (proj2 (access_paths_separate Sample.provider Sample.session Runs.lodger
                         Sample.store VNull VNull Sample.dice H))).
Defined.

Lemma loadKeyPair_removeKeyPair_witness :
  Crypto.unavailable Sample.provider Sample.session Sample.store = false
  /\ Crypto.dbName Sample.provider Sample.fresh <> None
  /\ Crypto.accessPath Sample.provider Sample.fresh
     = Crypto.accessPath Sample.provider Sample.session
  /\ fst (fst (Crypto.removeKeyPair Sample.provider Sample.session Sample.store))
     = Resolved tt
  /\ keys_null (snd (fst (Crypto.removeKeyPair Sample.provider Sample.session
                                               Sample.store))).
Proof.
  assert (H : Crypto.unavailable Sample.provider Sample.session Sample.store = false)
    by (vm_compute; reflexivity).
  assert (Hn : Crypto.dbName Sample.provider Sample.fresh <> None) by discriminate.
  assert (Hp : Crypto.accessPath Sample.provider Sample.fresh
               = Crypto.accessPath Sample.provider Sample.session)
    by (vm_compute; reflexivity).
  split; [exact H|]. split; [exact Hn|]. split; [exact Hp|].
  pose proof (loadKeyPair_removeKeyPair Sample.provider Sample.session Sample.fresh
                Sample.store H Hn Hp) as G.
  split; [exact (proj1 G) | exact (proj1 (proj2 G))].
Defined.

Lemma public_session_no_private_key_witness :
  reachable (Runs.visitor, blank_database Sample.provider)
  /\ Crypto.dbName Sample.provider Runs.visitor = None
  /\ Crypto.hasKeyPair Sample.provider Runs.visitor = false
  /\ Crypto.decryptObject Sample.provider Runs.visitor
       (VStr (Crypto.key Sample.letter1)) (VStr (Crypto.message Sample.letter1))
     = Rejected (Error "Crypto: The private key is missing, decryption is not available.").
Proof.
  assert (R : reachable (Runs.visitor, blank_database Sample.provider))
    by (apply (reachable_new _ VUndefined); reflexivity).
  split; [exact R|]. split; [reflexivity|].
  pose proof (public_session_no_private_key Sample.provider
                (Runs.visitor, blank_database Sample.provider) R eq_refl) as G.
  split; [exact (proj1 (proj2 (proj2 G)))|].
  exact (proj2 (proj2 (proj2 G)) _ _).
Defined.

Lemma decryptObject_of_owner_witness :
  fst (Crypto.importPublicKey Sample.provider (VStr Runs.public_string) Runs.visitor)
  = Resolved tt
  /\ Crypto.encryptObject Sample.provider
       (snd (Crypto.importPublicKey Sample.provider (VStr Runs.public_string)
                                    Runs.visitor))
       (VObj Sample.greeting) (VNum 1) Sample.dice
     = Resolved Sample.letter1
  /\ Crypto.decryptObject Sample.provider Sample.session
       (VStr (Crypto.key Sample.letter1)) (VStr (Crypto.message Sample.letter1))
     = Resolved (VObj Sample.greeting).
Proof.
  assert (H1 : fst (Crypto.importPublicKey Sample.provider (VStr Runs.public_string)
                                           Runs.visitor) = Resolved tt)
    by (vm_compute; reflexivity).
  assert (H2 : Crypto.encryptObject Sample.provider
                 (snd (Crypto.importPublicKey Sample.provider (VStr Runs.public_string)
                                              Runs.visitor))
                 (VObj Sample.greeting) (VNum 1) Sample.dice
               = Resolved Sample.letter1)
    by (vm_compute; reflexivity).
  split; [exact H1|]. split; [exact H2|].
  refine (proj2 (decryptObject_of_owner Sample.provider sample_lawful
                   Runs.visitor Sample.session Runs.public_string
                   (Sample.PublicKey [72; 119]) (Sample.PrivateKey [72; 119])
                   Sample.greeting Runs.greeting_text (VNum 1) Sample.dice Sample.letter1
                   H1 _ _ _ _ _ _ _ _ H2)).
  - reflexivity.
  - vm_compute. reflexivity.
  - reflexivity.
  - exists [72; 119]. split; reflexivity.
  - discriminate.
  - vm_compute. reflexivity.
  - vm_compute. reflexivity.
  - unfold binary. repeat constructor; lia.
Defined.

Lemma constructor_database_name_witness :
  Crypto.constructor Sample.provider (VStr (js "db")) (blank_database Sample.provider)
  = Ok (Sample.fresh, Sample.empty_store)
  /\ fst (fst (Crypto.generateKeyPair Sample.provider VNull Sample.dice Sample.fresh
                 (snd (Runs.second)))) = Resolved tt
  /\ Crypto.dbName Sample.provider Sample.fresh = Some (js "db")
  /\ is_Some (items (snd (Crypto.generateKeyPair Sample.provider VNull Sample.dice
                            Sample.fresh (snd Runs.second)))
                !! (js "other", Crypto.accessPath Sample.provider Sample.fresh)).
Proof.
  assert (H1 : Crypto.constructor Sample.provider (VStr (js "db"))
                 (blank_database Sample.provider)
               = Ok (Sample.fresh, Sample.empty_store)) by reflexivity.
  assert (H2 : Crypto.constructor Sample.provider (VStr (js "other")) Sample.empty_store
               = Ok (fst Runs.second, snd Runs.second)) by reflexivity.
  assert (H3 : fst (fst (Crypto.generateKeyPair Sample.provider VNull Sample.dice
                           Sample.fresh (snd (Runs.second)))) = Resolved tt)
    by (vm_compute; reflexivity).
  split; [exact H1|]. split; [exact H3|].
  pose proof (constructor_database_name Sample.provider sample_lawful
                (js "db") (js "other") (js "third") Sample.fresh (fst Runs.second)
                Sample.empty_store (snd Runs.second) VNull Sample.dice H1 H2 H3) as G.
  split; [exact (proj1 G) | exact (proj1 (proj2 G))].
Defined.

Lemma importPrivateKey_generateKeyPair_witness :
  generateKey_rsa Sample.provider true Sample.dice
  = Ok (Sample.PublicKey [72; 119], Sample.PrivateKey [72; 119])
  /\ exportKey_jwk Sample.provider (Sample.PrivateKey [72; 119]) = Ok Runs.private_jwk
  /\ JSON.stringify Runs.private_jwk = Some Runs.private_text
  /\ binary Runs.private_text
  /\ JSON.parse Runs.private_text = Some Runs.private_jwk
  /\ exists export,
      Crypto.getPrivateKeyString Sample.provider Sample.session = Some export
      /\ fst (fst (Crypto.importPrivateKey Sample.provider (VStr export)
                     (VStr (js "s3cr3t")) Runs.lodger Sample.store))
         = Resolved true.
Proof.
  assert (H1 : generateKey_rsa Sample.provider true Sample.dice
               = Ok (Sample.PublicKey [72; 119], Sample.PrivateKey [72; 119]))
    by reflexivity.
  assert (H2 : exportKey_jwk Sample.provider (Sample.PrivateKey [72; 119])
               = Ok Runs.private_jwk) by reflexivity.
  assert (H3 : JSON.stringify Runs.private_jwk = Some Runs.private_text)
    by (vm_compute; reflexivity).
  assert (H4 : binary Runs.private_text) by (unfold binary; repeat constructor; lia).
  assert (H5 : JSON.parse Runs.private_text = Some Runs.private_jwk)
    by (vm_compute; reflexivity).
  assert (H6 : importKey_jwk Sample.provider
                 (Crypto.publicJWK (modulus Sample.provider (Sample.PublicKey [72; 119])))
                 true Encrypt = Ok (Sample.PublicKey [72; 119])) by reflexivity.
  assert (H7 : fst (fst (Crypto.generateKeyPair Sample.provider (VStr (js "s3cr3t"))
                           Sample.dice Sample.fresh Sample.empty_store)) = Resolved tt)
    by (vm_compute; reflexivity).
  assert (H8 : Crypto.dbName Sample.provider Runs.lodger <> None) by discriminate.
  repeat (split; [assumption|]).
  destruct (importPrivateKey_generateKeyPair Sample.provider sample_lawful
              115 (js "3cr3t") Sample.dice Sample.fresh Runs.lodger Sample.empty_store
              _ _ _ _ _ H1 H2 H3 H4 H5 H6 H7 H8) as (export & E1 & E2 & _).
  exists export. split; [exact E1 | exact E2].
Defined.

Lemma checkExportPassword_generateKeyPair_witness :
  fst (fst (Crypto.generateKeyPair Sample.provider (VStr (js "s3cr3t")) Sample.dice
                                   Sample.fresh Sample.empty_store)) = Resolved tt
  /\ Crypto.checkExportPassword Sample.provider (VStr (js "s3cr3t")) Sample.session
     = Resolved true.
Proof.
  assert (H7 : fst (fst (Crypto.generateKeyPair Sample.provider (VStr (js "s3cr3t"))
                           Sample.dice Sample.fresh Sample.empty_store)) = Resolved tt)
    by (vm_compute; reflexivity).
  split; [exact H7|].
  refine (checkExportPassword_generateKeyPair Sample.provider sample_lawful
            115 (js "3cr3t") Sample.dice Sample.fresh Sample.empty_store
            (Sample.PublicKey [72; 119]) (Sample.PrivateKey [72; 119])
            Runs.private_jwk Runs.private_text _ _ _ _ _ H7).
  - reflexivity.
  - reflexivity.
  - vm_compute. reflexivity.
  - unfold binary. repeat constructor; lia.
  - vm_compute. reflexivity.
Defined.

Lemma checkExportPassword_missing_witness :
  is_nullish VNull = true
  /\ fst (fst (Crypto.generateKeyPair Sample.provider VNull Sample.zeros Sample.fresh
                                      Sample.empty_store)) = Resolved tt
  /\ Crypto.checkExportPassword Sample.provider (VStr (js "s3cr3t")) Sample.stranger
     = Thrown (Error "Crypto: Export data missing").
Proof.
  assert (H : fst (fst (Crypto.generateKeyPair Sample.provider VNull Sample.zeros
                          Sample.fresh Sample.empty_store)) = Resolved tt)
    by (vm_compute; reflexivity).
  split; [reflexivity|]. split; [exact H|].
  exact (proj1 (checkExportPassword_missing Sample.provider sample_lawful
                  115 (js "3cr3t") [] Sample.zeros VNull Sample.fresh Sample.empty_store)
               eq_refl H).
Defined.

Lemma checkPassword_hashPassword_salted_witness :
  Passwords.hashPassword Sample.provider (VStr (js "pw")) (VStr (js "c2FsdA=="))
                         (VStr (js "base64")) Sample.dice = Resolved Runs.salted_hash
  /\ Passwords.checkPassword Sample.provider (VStr (js "pw")) (VStr Runs.salted_hash)
     = Resolved true.
Proof.
  assert (H : Passwords.hashPassword Sample.provider (VStr (js "pw"))
                (VStr (js "c2FsdA==")) (VStr (js "base64")) Sample.dice
              = Resolved Runs.salted_hash) by (vm_compute; reflexivity).
  split; [exact H|].
  exact (checkPassword_hashPassword_salted Sample.provider sample_lawful
           112 (js "w") (VStr (js "c2FsdA==")) Passwords.base64 Sample.dice
           Runs.salted_hash H).
Defined.

Lemma hashPassword_again_salted_witness :
  Passwords.hashPassword Sample.provider (VStr (js "pw")) (VStr (js "c2FsdA=="))
                         (VStr (js "base64")) Sample.dice = Resolved Runs.salted_hash
  /\ exists salt hash,
      match_hash Runs.salted_hash = Some (js "base64", salt, hash)
      /\ Passwords.hashPassword Sample.provider (VStr (js "pw")) (VStr salt)
                                (VStr (js "base64")) Sample.zeros
         = Resolved Runs.salted_hash.
Proof.
  assert (H : Passwords.hashPassword Sample.provider (VStr (js "pw"))
                (VStr (js "c2FsdA==")) (VStr (js "base64")) Sample.dice
              = Resolved Runs.salted_hash) by (vm_compute; reflexivity).
  split; [exact H|].
  destruct (hashPassword_again_salted Sample.provider sample_lawful
              112 (js "w") 99 (js "2FsdA==") Passwords.base64 Sample.dice Sample.zeros
              Runs.salted_hash H) as (salt & hash & E1 & E2 & _).
  exists salt, hash. split; [exact E1 | exact E2].
Defined.

Lemma hashPassword_length_witness :
  Passwords.hashPassword Sample.provider (VStr (js "pw")) VNull (VStr (js "hex"))
                         Sample.dice = Resolved (Runs.fresh_hash Passwords.hex)
  /\ length (Runs.fresh_hash Passwords.hex) = 108%nat.
Proof.
  assert (H : Passwords.hashPassword Sample.provider (VStr (js "pw")) VNull
                (VStr (js "hex")) Sample.dice
              = Resolved (Runs.fresh_hash Passwords.hex)) by (vm_compute; reflexivity).
  split; [exact H|].
  destruct (hashPassword_length Sample.provider sample_lawful
              112 (js "w") Passwords.hex Sample.dice _ H)
    as (salt & hash & _ & _ & _ & E & _).
  exact E.
Defined.

Lemma checkPassword_undecodable_witness :
  forallb is_hex (js "zz") = false
  /\ Passwords.checkPassword Sample.provider (VStr (js "pw"))
       (VStr (hash_string Passwords.hex (js "zz") (js "ab")))
     = Thrown BufferTools.fromHex_error.
Proof.
  assert (H : forallb is_hex (js "zz") = false) by (vm_compute; reflexivity).
  split; [exact H|].
  refine (proj1 (checkPassword_undecodable Sample.provider 112 (js "w")
                   (js "zz") (js "ab") [] _ _ _ _) (or_intror (or_introl H))).
  - discriminate.
  - discriminate.
  - vm_compute. reflexivity.
  - vm_compute. reflexivity.
Defined.

Lemma decoder_inverts (x : buffer) : Runs.decoder (Base64.encode x) = x.
Proof.
  unfold Runs.decoder. rewrite atob_encode. apply fromAscii_toAscii.
Qed.

Lemma node_checkPassword_hashPassword_witness :
  Node.hashPassword Sample.provider Runs.decoder (VStr (js "pw")) (VStr (js "c2FsdA=="))
                    (VStr (js "base64")) Sample.dice
  = Ok (Runs.server_hash (VStr (js "c2FsdA==")) Passwords.base64)
  /\ Node.checkPassword Sample.provider Runs.decoder (VStr (js "pw"))
       (VStr (Runs.server_hash (VStr (js "c2FsdA==")) Passwords.base64))
     = Ok (Some true).
Proof.
  assert (H : Node.hashPassword Sample.provider Runs.decoder (VStr (js "pw"))
                (VStr (js "c2FsdA==")) (VStr (js "base64")) Sample.dice
              = Ok (Runs.server_hash (VStr (js "c2FsdA==")) Passwords.base64))
    by (vm_compute; reflexivity).
  split; [exact H|].
  refine (node_checkPassword_hashPassword Sample.provider sample_lawful Runs.decoder
            112 (js "w") (VStr (js "c2FsdA==")) Passwords.base64 Sample.dice _ _ H).
  intros s [= <-]. vm_compute. reflexivity.
Defined.

Lemma node_checkPassword_of_browser_witness :
  ascii_string (js "pw")
  /\ Passwords.hashPassword Sample.provider (VStr (js "pw")) VNull (VStr (js "hex"))
                            Sample.dice = Resolved (Runs.fresh_hash Passwords.hex)
  /\ Node.checkPassword Sample.provider Runs.decoder (VStr (js "pw"))
       (VStr (Runs.fresh_hash Passwords.hex)) = Ok (Some true).
Proof.
  assert (Ha : ascii_string (js "pw")) by (repeat constructor; lia).
  assert (H : Passwords.hashPassword Sample.provider (VStr (js "pw")) VNull
                (VStr (js "hex")) Sample.dice
              = Resolved (Runs.fresh_hash Passwords.hex)) by (vm_compute; reflexivity).
  split; [exact Ha|]. split; [exact H|].
  exact (node_checkPassword_of_browser Sample.provider sample_lawful Runs.decoder
           112 (js "w") VNull Passwords.hex Sample.dice _ decoder_inverts Ha eq_refl H).
Defined.

Lemma checkPassword_of_node_witness :
  ascii_string (js "pw")
  /\ Node.hashPassword Sample.provider Runs.decoder (VStr (js "pw")) VNull
                       (VStr (js "base64")) Sample.dice
     = Ok (Runs.server_hash VNull Passwords.base64)
  /\ Passwords.checkPassword Sample.provider (VStr (js "pw"))
       (VStr (Runs.server_hash VNull Passwords.base64)) = Resolved true.
Proof.
  assert (Ha : ascii_string (js "pw")) by (repeat constructor; lia).
  assert (H : Node.hashPassword Sample.provider Runs.decoder (VStr (js "pw")) VNull
                (VStr (js "base64")) Sample.dice
              = Ok (Runs.server_hash VNull Passwords.base64)) by (vm_compute; reflexivity).
  split; [exact Ha|]. split; [exact H|].
  exact (checkPassword_of_node Sample.provider sample_lawful Runs.decoder
           112 (js "w") VNull Passwords.base64 Sample.dice _ decoder_inverts Ha eq_refl H).
Defined.

Lemma legacy_decryptData_encryptData_witness :
  binary (js "secret")
  /\ Legacy.encryptData Sample.provider (VStr (js "secret")) (VStr (js "ab")) (VNum 2)
                        Sample.dice = Resolved (Runs.bare 2)
  /\ Legacy.decryptData Sample.provider (VStr (Runs.bare 2)) (VStr (js "ab")) (VNum 2)
     = Resolved (Some (js "secret")).
Proof.
  assert (Hb : binary (js "secret")) by (unfold binary; repeat constructor; lia).
  assert (H : Legacy.encryptData Sample.provider (VStr (js "secret")) (VStr (js "ab"))
                (VNum 2) Sample.dice = Resolved (Runs.bare 2))
    by (vm_compute; reflexivity).
  split; [exact Hb|]. split; [exact H|].
  exact (legacy_decryptData_encryptData Sample.provider sample_lawful
           (js "secret") 97 (js "b") (VNum 2) Sample.dice _ Hb H).
Defined.

